(** * Field detection and rule generation of the e-mail inspector

    A shallow embedding of the detection and rule-generation engine of
    [EmailInspector] (class [ParserTarget], [autoDetectParserTargets],
    [calculateConfidence], [updateTargetMapping],
    [convertContentToDisplayableText], [convertContentToHex],
    [generateRule] and the four rule generators), with the properties the
    specification states about them.

    JavaScript strings are sequences of UTF-16 code units: a string is a
    [list N].  JavaScript numbers are IEEE 754 binary64 values: confidences
    are primitive floats, whose arithmetic is the one the program runs.
    Offsets and lengths are natural numbers. *)

From Stdlib Require Import ZArith Lia Ascii String PrimFloat.
From Stdlib Require Uint63 DecimalString HexadecimalString.
From stdpp Require Import base decidable option numbers list strings gmap.

Set Warnings "-inexact-float".
Set Default Proof Using "Type".

(** ** JavaScript strings *)

(** A source literal, as its code units. *)
Definition str (s : string) : list N :=
  (λ a, N_of_ascii a) <$> list_ascii_of_string s.

Module JS.

(** [s.substring(a, b)]: both bounds are clamped to the length and
    swapped when out of order. *)
Definition substring (s : list N) (a b : nat) : list N :=
  let a' := a `min` length s in
  let b' := b `min` length s in
  take (a' `max` b' - a' `min` b') (drop (a' `min` b') s).

(** WhiteSpace and LineTerminator code units, the ones [trim] removes. *)
Definition isWhiteSpace (c : N) : bool :=
  ((9 <=? c) && (c <=? 13) || (c =? 32) || (c =? 160) || (c =? 5760)
   || (8192 <=? c) && (c <=? 8202) || (c =? 8232) || (c =? 8233)
   || (c =? 8239) || (c =? 8287) || (c =? 12288) || (c =? 65279))%N.

Fixpoint trimStart (s : list N) : list N :=
  match s with
  | c :: s' => if isWhiteSpace c then trimStart s' else s
  | [] => []
  end.

Definition trimEnd (s : list N) : list N := reverse (trimStart (reverse s)).

Definition trim (s : list N) : list N := trimEnd (trimStart s).

(** [toLowerCase] on the Latin-1 range (A-Z and the accented capitals);
    code units above it are left as they are. *)
Definition lowerUnit (c : N) : N :=
  (if (65 <=? c) && (c <=? 90) then c + 32
   else if (192 <=? c) && (c <=? 222) && negb (c =? 215) then c + 32
   else c)%N.

Definition toLowerCase (s : list N) : list N := lowerUnit <$> s.

(** [s.includes(needle)] *)
Fixpoint includes (s needle : list N) : bool :=
  bool_decide (needle `prefix_of` s)
  || match s with
     | [] => false
     | _ :: s' => includes s' needle
     end.

(** [s.indexOf(needle)], [None] for -1. *)
Fixpoint indexOf (s needle : list N) : option nat :=
  if bool_decide (needle `prefix_of` s) then Some 0
  else match s with
       | [] => None
       | _ :: s' => S <$> indexOf s' needle
       end.

(** [s.split(sep)] for a one-unit separator class: the pieces between
    separators, empty pieces kept. *)
Fixpoint splitOn (sep : N → bool) (s : list N) : list (list N) :=
  match s with
  | [] => [[]]
  | c :: s' =>
      if sep c then [] :: splitOn sep s'
      else match splitOn sep s' with
           | p :: ps => (c :: p) :: ps
           | [] => [[c]]
           end
  end.

(** A length or an offset as a number (exact below 2^53, where the lengths
    of strings are). *)
Definition number (n : nat) : float :=
  PrimFloat.of_uint63 (Uint63.of_Z (Z.of_nat n)).

(** [Math.min(a, b)] *)
Definition Math_min (a b : float) : float :=
  if PrimFloat.is_nan a || PrimFloat.is_nan b then PrimFloat.nan
  else if PrimFloat.ltb b a then b
  else if PrimFloat.ltb a b then a
  else if PrimFloat.get_sign a then a else b.

End JS.

(** ** Regular expressions

    The fragment of the regular expression language the pattern catalog and
    the scorer use: literals, classes of one code unit, [\b], [^], [$],
    sequence, alternation and greedy quantifiers over a class. *)

Inductive regex :=
| RLit (cs : list N)
| RClass (p : N → bool)
| RWordB
| RBegin
| REnd
| RSeq (r1 r2 : regex)
| RAlt (r1 r2 : regex)
| RRep (p : N → bool) (lo : nat) (hi : option nat).

Module Regex.

Definition isDigit (c : N) : bool := ((48 <=? c) && (c <=? 57))%N.
Definition isUpper (c : N) : bool := ((65 <=? c) && (c <=? 90))%N.
Definition isLower (c : N) : bool := ((97 <=? c) && (c <=? 122))%N.
(** [\w] *)
Definition isWordChar (c : N) : bool :=
  isDigit c || isUpper c || isLower c || (c =? 95)%N.

Definition wordAt (s : list N) (i : nat) : bool :=
  match s !! i with
  | Some c => isWordChar c
  | None => false
  end.

(** [\b] holds at [i] when exactly one of the units before and at [i] is
    a word character. *)
Definition atWordBoundary (s : list N) (i : nat) : bool :=
  xorb (match i with 0 => false | S j => wordAt s j end) (wordAt s i).

(** Length of the longest run of units of class [p] at the head. *)
Fixpoint spanLen (p : N → bool) (s : list N) : nat :=
  match s with
  | c :: s' => if p c then S (spanLen p s') else 0
  | [] => 0
  end.

(** A greedy quantifier gives back one unit at a time, down to [lo]. *)
Fixpoint backoff (k : nat → option nat) (i lo n : nat) : option nat :=
  if n <? lo then None
  else match k (i + n) with
       | Some e => Some e
       | None =>
           match n with
           | 0 => None
           | S n' => backoff k i lo n'
           end
       end.

(** Backtracking matcher: [m r s i k] matches [r] in [s] from offset [i]
    and hands the offset after the match to the continuation [k]. *)
Fixpoint m (r : regex) (s : list N) (i : nat) (k : nat → option nat)
  : option nat :=
  match r with
  | RLit cs =>
      if bool_decide (cs `prefix_of` drop i s) then k (i + length cs)
      else None
  | RClass p =>
      match s !! i with
      | Some c => if p c then k (S i) else None
      | None => None
      end
  | RWordB => if atWordBoundary s i then k i else None
  | RBegin => if i =? 0 then k i else None
  | REnd => if i =? length s then k i else None
  | RSeq r1 r2 => m r1 s i (λ j, m r2 s j k)
  | RAlt r1 r2 =>
      match m r1 s i k with
      | Some e => Some e
      | None => m r2 s i k
      end
  | RRep p lo hi =>
      let avail := spanLen p (drop i s) in
      let n := match hi with
               | Some h => h `min` avail
               | None => avail
               end in
      backoff k i lo n
  end.

(** A match attempt at offset [i]: the offset after the match. *)
Definition matchAt (r : regex) (s : list N) (i : nat) : option nat :=
  m r s i Some.

(** [regex.exec] without the [g] flag: the leftmost offset with a match. *)
Fixpoint searchFrom (r : regex) (s : list N) (n i : nat)
  : option (nat * nat) :=
  match n with
  | 0 => None
  | S n' =>
      match matchAt r s i with
      | Some e => Some (i, e)
      | None => searchFrom r s n' (S i)
      end
  end.

Definition search (r : regex) (s : list N) : option (nat * nat) :=
  searchFrom r s (S (length s)) 0.

(** [s.match(r)] used as a condition. *)
Definition test (r : regex) (s : list N) : bool :=
  bool_decide (is_Some (search r s)).

(** [s.matchAll(r)] with the [g] flag: the start offsets [0 .. length s]
    are visited in order ([n] of them are left, the current one is [i]);
    a match moves [lastIndex] to its end (one further after an empty
    match) and the offsets before [lastIndex] are passed over.  A match is
    its start offset ([match.index]) and its end offset. *)
Fixpoint scan (r : regex) (s : list N) (n i lastIndex : nat)
  : list (nat * nat) :=
  match n with
  | 0 => []
  | S n' =>
      if i <? lastIndex then scan r s n' (S i) lastIndex
      else match matchAt r s i with
           | Some e =>
               (i, e) :: scan r s n' (S i) (if e =? i then S i else e)
           | None => scan r s n' (S i) lastIndex
           end
  end.

Definition matchAll (r : regex) (s : list N) : list (nat * nat) :=
  scan r s (S (length s)) 0 0.

End Regex.

(** ** The pattern catalog ([initializeAutoTargetDetection]) *)

Module Patterns.
Import Regex.

(** The class [[^.!?\n]] *)
Definition notTerminator (c : N) : bool :=
  negb ((c =? 46) || (c =? 33) || (c =? 63) || (c =? 10))%N.

Definition isVP (c : N) : bool := ((c =? 86) || (c =? 80))%N.

(** [\b(?:k1|k2|...)\b[^.!?\n]*] *)
Fixpoint keywords (ks : list string) : regex :=
  match ks with
  | [] => RClass (λ _, false)
  | [k] => RLit (str k)
  | k :: ks' => RAlt (RLit (str k)) (keywords ks')
  end.

Definition phrase (ks : list string) : regex :=
  RSeq RWordB (RSeq (keywords ks) (RSeq RWordB (RRep notTerminator 0 None))).

(** [/\bSE[A-Z]\d{3,4}\b/] *)
Definition siteCode : regex :=
  RSeq RWordB (RSeq (RLit (str "SE")) (RSeq (RClass isUpper)
    (RSeq (RRep isDigit 3 (Some 4)) RWordB))).

(** [/\b[A-Z]{2,3}\d{1,4}\b/] *)
Definition genericSiteCode : regex :=
  RSeq RWordB (RSeq (RRep isUpper 2 (Some 3))
    (RSeq (RRep isDigit 1 (Some 4)) RWordB)).

(** [/\b\d{6,10}\b/] *)
Definition numericDevice : regex :=
  RSeq RWordB (RSeq (RRep isDigit 6 (Some 10)) RWordB).

(** [/\bV\d{7,10}\b/] *)
Definition deviceV : regex :=
  RSeq RWordB (RSeq (RLit (str "V")) (RSeq (RRep isDigit 7 (Some 10)) RWordB)).

(** [/\bP\d{5,9}\b/] *)
Definition deviceP : regex :=
  RSeq RWordB (RSeq (RLit (str "P")) (RSeq (RRep isDigit 5 (Some 9)) RWordB)).

Definition jobNameKeywords : list string := ["Service Call"; "Alarm"].
Definition jobNameTroubleKeywords : list string :=
  ["Device Offline"; "Line Error"; "Alarm Active"].
Definition troubleKeywords : list string :=
  ["Device Offline"; "Line Error"; "Alarm Active"; "Maintenance"].
Definition partKeywords : list string :=
  ["Input Output"; "Power Supply"; "Reader"; "Contact"].

(** [/^\d+$/] *)
Definition allDigits : regex := RSeq RBegin (RSeq (RRep isDigit 1 None) REnd).

(** [/^[VP]\d+$/] *)
Definition prefixedDigits : regex :=
  RSeq RBegin (RSeq (RClass isVP) (RSeq (RRep isDigit 1 None) REnd)).

(** [this.patternRules], in the order [Object.entries] lists it. *)
Definition patternRules : list (string * list regex) :=
  [ ("building_code", [siteCode; genericSiteCode]);
    ("device_id", [numericDevice; deviceV; deviceP]);
    ("job_name", [phrase jobNameKeywords; phrase jobNameTroubleKeywords]);
    ("job_trouble_description", [phrase troubleKeywords; phrase partKeywords]) ].

End Patterns.

(** ** Targets ([class ParserTarget]) *)

Record TargetContext := mkContext {
  before : list N;
  after : list N;
  line : nat
}.

Record ParserTarget := mkTarget {
  text : list N;
  startPos : nat;
  endPos : nat;
  confidence : float;
  fieldType : option string;
  context : option TargetContext
}.

(** What [overlaps] reads of its argument: any object with a [startPos] and
    an [endPos]. *)
Class Spanned (A : Type) := { spanStart : A → nat; spanEnd : A → nat }.

Record Probe := mkProbe {
  probeText : list N;
  probeStart : nat;
  probeEnd : nat
}.

#[export] Instance target_spanned : Spanned ParserTarget :=
  {| spanStart := startPos; spanEnd := endPos |}.
#[export] Instance probe_spanned : Spanned Probe :=
  {| spanStart := probeStart; spanEnd := probeEnd |}.

Definition getBounds (this : ParserTarget) : nat * nat * nat :=
  (startPos this, endPos this, endPos this - startPos this).

Definition contains (this : ParserTarget) (position : Z) : bool :=
  ((Z.of_nat (startPos this) <=? position)
   && (position <=? Z.of_nat (endPos this)))%Z.

Definition overlaps `{Spanned A} (this : ParserTarget) (other : A) : bool :=
  negb ((endPos this <=? spanStart other) || (spanEnd other <=? startPos this)).

(** ** Confidence scoring and detection ([class EmailInspector]) *)

Definition calculateConfidence (fieldType : string) (text : list N)
    (position : nat) (content : list N) : float :=
  let confidence := 0.5%float in
  let confidence :=
    if bool_decide (fieldType = "building_code") then
      let confidence :=
        if Regex.test Patterns.siteCode text then (confidence + 0.3)%float
        else confidence in
      if (5 <=? length text) && (length text <=? 8)
      then (confidence + 0.1)%float else confidence
    else confidence in
  let confidence :=
    if bool_decide (fieldType = "device_id") then
      let confidence :=
        if Regex.test Patterns.allDigits text then (confidence + 0.2)%float
        else confidence in
      let confidence :=
        if Regex.test Patterns.prefixedDigits text then (confidence + 0.3)%float
        else confidence in
      if (6 <=? length text) && (length text <=? 10)
      then (confidence + 0.2)%float else confidence
    else confidence in
  let windowSize := 100 in
  let beforeText := JS.substring content (position - windowSize) position in
  let afterText :=
    JS.substring content (position + length text)
      (position + length text + windowSize) in
  let contextText := JS.toLowerCase (beforeText ++ afterText) in
  let confidence :=
    if bool_decide (fieldType = "job_name")
       && JS.includes contextText (str "service call")
    then (confidence + 0.2)%float else confidence in
  let confidence :=
    if bool_decide (fieldType = "job_trouble_description")
       && (JS.includes contextText (str "device offline")
           || JS.includes contextText (str "alarm active"))
    then (confidence + 0.2)%float else confidence in
  let confidence :=
    if bool_decide (fieldType = "building_code")
       && (JS.includes contextText (str "site")
           || JS.includes contextText (str "building"))
    then (confidence + 0.1)%float else confidence in
  let contentLength := length content in
  let positionRatio := (JS.number position / JS.number contentLength)%float in
  let confidence :=
    if PrimFloat.ltb 0.2 positionRatio then (confidence + 0.1)%float
    else confidence in
  JS.Math_min 1.0 confidence.

Definition getTargetContext (content : list N) (startPos endPos : nat)
  : TargetContext :=
  let windowSize := 50 in
  {| before := JS.trim (JS.substring content (startPos - windowSize) startPos);
     after := JS.trim (JS.substring content endPos
                         ((length content) `min` (endPos + windowSize)));
     line := length (JS.splitOn (λ c, (c =? 10)%N)
                       (JS.substring content 0 startPos)) |}.

(** The body of the loop over the matches of one pattern: the registry
    [detectedTargets] after the match [(index, e)] of a pattern of
    [fieldType]. *)
Definition detectMatch (content : list N) (fieldType : string)
    (detectedTargets : list ParserTarget) (mt : nat * nat)
  : list ParserTarget :=
  let targetText := JS.trim (JS.substring content mt.1 mt.2) in
  let startPos := mt.1 in
  let endPos := startPos + length targetText in
  if existsb (λ t, overlaps t (mkProbe targetText startPos
                                 (startPos + length targetText)))
       detectedTargets
  then detectedTargets
  else
    let confidence := calculateConfidence fieldType targetText startPos content in
    if PrimFloat.leb 0.5 confidence then
      detectedTargets ++
        [ {| text := targetText; startPos := startPos; endPos := endPos;
             confidence := confidence; fieldType := Some fieldType;
             context := Some (getTargetContext content startPos
                                (startPos + length targetText)) |} ]
    else detectedTargets.

Definition detectPattern (content : list N) (fieldType : string)
    (detectedTargets : list ParserTarget) (pattern : regex)
  : list ParserTarget :=
  foldl (detectMatch content fieldType) detectedTargets
    (Regex.matchAll pattern content).

Definition detectField (content : list N)
    (detectedTargets : list ParserTarget) (entry : string * list regex)
  : list ParserTarget :=
  foldl (detectPattern content entry.1) detectedTargets entry.2.

(** [Array.prototype.sort] with the comparator [a.startPos - b.startPos]:
    a stable sort by start offset. *)
Fixpoint insertByStart (t : ParserTarget) (l : list ParserTarget)
  : list ParserTarget :=
  match l with
  | [] => [t]
  | u :: l' =>
      if startPos t <=? startPos u then t :: l else u :: insertByStart t l'
  end.

Definition sortByStart (l : list ParserTarget) : list ParserTarget :=
  foldr insertByStart [] l.

(** The registry before the final sort. *)
Definition scanCatalog (rules : list (string * list regex)) (content : list N)
  : list ParserTarget :=
  foldl (detectField content) [] rules.

Definition autoDetectParserTargets (content : list N) : list ParserTarget :=
  sortByStart (scanCatalog Patterns.patternRules content).

(** [updateTargetMapping(index, newFieldType)]: the target at [index] is
    updated in place; an index without a target changes nothing. *)
Definition remap (newFieldType : string) (target : ParserTarget)
  : ParserTarget :=
  {| text := text target; startPos := startPos target;
     endPos := endPos target;
     confidence :=
       if bool_decide (newFieldType ≠ "unmapped")
       then JS.Math_min 1.0 (confidence target + 0.2)%float
       else confidence target;
     fieldType := Some newFieldType;
     context := context target |}.

Definition updateTargetMapping (index : nat) (newFieldType : string)
    (detectedTargets : list ParserTarget) : list ParserTarget :=
  match detectedTargets !! index with
  | None => detectedTargets
  | Some target => <[index := remap newFieldType target]> detectedTargets
  end.

(** [updateTargetBoundsFromVisual(target)] at the end of a resize, for the
    target at [index]: [charCount] is the width of its overlay in
    characters, [Math.round(width / 8)]. *)
Definition resize (charCount : nat) (target : ParserTarget) : ParserTarget :=
  {| text := text target; startPos := startPos target;
     endPos := startPos target + length (text target) `max` charCount;
     confidence := confidence target;
     fieldType := fieldType target;
     context := context target |}.

Definition updateTargetBoundsFromVisual (index : nat) (charCount : nat)
    (detectedTargets : list ParserTarget) : list ParserTarget :=
  match detectedTargets !! index with
  | None => detectedTargets
  | Some target => <[index := resize charCount target]> detectedTargets
  end.

Definition clearAllTargets (detectedTargets : list ParserTarget)
  : list ParserTarget := [].

(** [regenerateTargets]: the registry is rebuilt from the document. *)
Definition regenerateTargets (rawContent : list N)
    (detectedTargets : list ParserTarget) : list ParserTarget :=
  autoDetectParserTargets rawContent.

(** The registries a session can hold: empty at first
    ([resetApplicationState]), then rebuilt by a scan, cleared, or changed
    by a reassignment or a resize. *)
Inductive registry : list ParserTarget → Prop :=
| registry_reset : registry []
| registry_scan rawContent l :
    registry l → registry (regenerateTargets rawContent l)
| registry_clear l : registry l → registry (clearAllTargets l)
| registry_remap index newFieldType l :
    registry l → registry (updateTargetMapping index newFieldType l)
| registry_resize index charCount l :
    registry l → registry (updateTargetBoundsFromVisual index charCount l).

(** ** Rule generation ([class EmailInspector], continued) *)

Module Text.

Definition quote : list N := [34%N].
Definition newline : list N := [10%N].

(** A number in a template literal: its decimal digits. *)
Definition decimal (n : nat) : list N :=
  str (DecimalString.NilZero.string_of_uint (Nat.to_uint n)).

(** [toUpperCase] of one code unit.  The mappings are the ones of Unicode
    14.0 on the Basic Multilingual Plane; a surrogate is left as it is.

    The code units whose upper case has two or three units (the
    unconditional mappings of SpecialCasing), with their images. *)
Definition upperSpecial : list (N * list N) :=
  [
    (223, [83; 83]); (329, [700; 78]); (496, [74; 780]); (912, [921; 776; 769]);
    (944, [933; 776; 769]); (1415, [1333; 1362]); (7830, [72; 817]); (7831, [84; 776]);
    (7832, [87; 778]); (7833, [89; 778]); (7834, [65; 702]); (8016, [933; 787]);
    (8018, [933; 787; 768]); (8020, [933; 787; 769]); (8022, [933; 787; 834]); (8064, [7944; 921]);
    (8065, [7945; 921]); (8066, [7946; 921]); (8067, [7947; 921]); (8068, [7948; 921]);
    (8069, [7949; 921]); (8070, [7950; 921]); (8071, [7951; 921]); (8072, [7944; 921]);
    (8073, [7945; 921]); (8074, [7946; 921]); (8075, [7947; 921]); (8076, [7948; 921]);
    (8077, [7949; 921]); (8078, [7950; 921]); (8079, [7951; 921]); (8080, [7976; 921]);
    (8081, [7977; 921]); (8082, [7978; 921]); (8083, [7979; 921]); (8084, [7980; 921]);
    (8085, [7981; 921]); (8086, [7982; 921]); (8087, [7983; 921]); (8088, [7976; 921]);
    (8089, [7977; 921]); (8090, [7978; 921]); (8091, [7979; 921]); (8092, [7980; 921]);
    (8093, [7981; 921]); (8094, [7982; 921]); (8095, [7983; 921]); (8096, [8040; 921]);
    (8097, [8041; 921]); (8098, [8042; 921]); (8099, [8043; 921]); (8100, [8044; 921]);
    (8101, [8045; 921]); (8102, [8046; 921]); (8103, [8047; 921]); (8104, [8040; 921]);
    (8105, [8041; 921]); (8106, [8042; 921]); (8107, [8043; 921]); (8108, [8044; 921]);
    (8109, [8045; 921]); (8110, [8046; 921]); (8111, [8047; 921]); (8114, [8122; 921]);
    (8115, [913; 921]); (8116, [902; 921]); (8118, [913; 834]); (8119, [913; 834; 921]);
    (8124, [913; 921]); (8130, [8138; 921]); (8131, [919; 921]); (8132, [905; 921]);
    (8134, [919; 834]); (8135, [919; 834; 921]); (8140, [919; 921]); (8146, [921; 776; 768]);
    (8147, [921; 776; 769]); (8150, [921; 834]); (8151, [921; 776; 834]); (8162, [933; 776; 768]);
    (8163, [933; 776; 769]); (8164, [929; 787]); (8166, [933; 834]); (8167, [933; 776; 834]);
    (8178, [8186; 921]); (8179, [937; 921]); (8180, [911; 921]); (8182, [937; 834]);
    (8183, [937; 834; 921]); (8188, [937; 921]); (64256, [70; 70]); (64257, [70; 73]);
    (64258, [70; 76]); (64259, [70; 70; 73]); (64260, [70; 70; 76]); (64261, [83; 84]);
    (64262, [83; 84]); (64275, [1348; 1350]); (64276, [1348; 1333]); (64277, [1348; 1339]);
    (64278, [1358; 1350]); (64279, [1348; 1341])
  ]%N.

(** The other code units with an upper case of their own, as runs
    [(first, last, step, image)]: the units [first], [first + step], ...,
    [last] are mapped to [image], [image + step], ... *)
Definition upperRuns : list (N * N * N * N) :=
  [
    (97, 122, 1, 65); (181, 181, 1, 924); (224, 246, 1, 192); (248, 254, 1, 216);
    (255, 255, 1, 376); (257, 303, 2, 256); (305, 305, 1, 73); (307, 311, 2, 306);
    (314, 328, 2, 313); (331, 375, 2, 330); (378, 382, 2, 377); (383, 383, 1, 83);
    (384, 384, 1, 579); (387, 389, 2, 386); (392, 392, 1, 391); (396, 396, 1, 395);
    (402, 402, 1, 401); (405, 405, 1, 502); (409, 409, 1, 408); (410, 410, 1, 573);
    (414, 414, 1, 544); (417, 421, 2, 416); (424, 424, 1, 423); (429, 429, 1, 428);
    (432, 432, 1, 431); (436, 438, 2, 435); (441, 441, 1, 440); (445, 445, 1, 444);
    (447, 447, 1, 503); (453, 453, 1, 452); (454, 454, 1, 452); (456, 456, 1, 455);
    (457, 457, 1, 455); (459, 459, 1, 458); (460, 460, 1, 458); (462, 476, 2, 461);
    (477, 477, 1, 398); (479, 495, 2, 478); (498, 498, 1, 497); (499, 499, 1, 497);
    (501, 501, 1, 500); (505, 543, 2, 504); (547, 563, 2, 546); (572, 572, 1, 571);
    (575, 576, 1, 11390); (578, 578, 1, 577); (583, 591, 2, 582); (592, 592, 1, 11375);
    (593, 593, 1, 11373); (594, 594, 1, 11376); (595, 595, 1, 385); (596, 596, 1, 390);
    (598, 599, 1, 393); (601, 601, 1, 399); (603, 603, 1, 400); (604, 604, 1, 42923);
    (608, 608, 1, 403); (609, 609, 1, 42924); (611, 611, 1, 404); (613, 613, 1, 42893);
    (614, 614, 1, 42922); (616, 616, 1, 407); (617, 617, 1, 406); (618, 618, 1, 42926);
    (619, 619, 1, 11362); (620, 620, 1, 42925); (623, 623, 1, 412); (625, 625, 1, 11374);
    (626, 626, 1, 413); (629, 629, 1, 415); (637, 637, 1, 11364); (640, 640, 1, 422);
    (642, 642, 1, 42949); (643, 643, 1, 425); (647, 647, 1, 42929); (648, 648, 1, 430);
    (649, 649, 1, 580); (650, 651, 1, 433); (652, 652, 1, 581); (658, 658, 1, 439);
    (669, 669, 1, 42930); (670, 670, 1, 42928); (837, 837, 1, 921); (881, 883, 2, 880);
    (887, 887, 1, 886); (891, 893, 1, 1021); (940, 940, 1, 902); (941, 943, 1, 904);
    (945, 961, 1, 913); (962, 962, 1, 931); (963, 971, 1, 931); (972, 972, 1, 908);
    (973, 974, 1, 910); (976, 976, 1, 914); (977, 977, 1, 920); (981, 981, 1, 934);
    (982, 982, 1, 928); (983, 983, 1, 975); (985, 1007, 2, 984); (1008, 1008, 1, 922);
    (1009, 1009, 1, 929); (1010, 1010, 1, 1017); (1011, 1011, 1, 895); (1013, 1013, 1, 917);
    (1016, 1016, 1, 1015); (1019, 1019, 1, 1018); (1072, 1103, 1, 1040); (1104, 1119, 1, 1024);
    (1121, 1153, 2, 1120); (1163, 1215, 2, 1162); (1218, 1230, 2, 1217); (1231, 1231, 1, 1216);
    (1233, 1327, 2, 1232); (1377, 1414, 1, 1329); (4304, 4346, 1, 7312); (4349, 4351, 1, 7357);
    (5112, 5117, 1, 5104); (7296, 7296, 1, 1042); (7297, 7297, 1, 1044); (7298, 7298, 1, 1054);
    (7299, 7300, 1, 1057); (7301, 7301, 1, 1058); (7302, 7302, 1, 1066); (7303, 7303, 1, 1122);
    (7304, 7304, 1, 42570); (7545, 7545, 1, 42877); (7549, 7549, 1, 11363); (7566, 7566, 1, 42950);
    (7681, 7829, 2, 7680); (7835, 7835, 1, 7776); (7841, 7935, 2, 7840); (7936, 7943, 1, 7944);
    (7952, 7957, 1, 7960); (7968, 7975, 1, 7976); (7984, 7991, 1, 7992); (8000, 8005, 1, 8008);
    (8017, 8023, 2, 8025); (8032, 8039, 1, 8040); (8048, 8049, 1, 8122); (8050, 8053, 1, 8136);
    (8054, 8055, 1, 8154); (8056, 8057, 1, 8184); (8058, 8059, 1, 8170); (8060, 8061, 1, 8186);
    (8112, 8113, 1, 8120); (8126, 8126, 1, 921); (8144, 8145, 1, 8152); (8160, 8161, 1, 8168);
    (8165, 8165, 1, 8172); (8526, 8526, 1, 8498); (8560, 8575, 1, 8544); (8580, 8580, 1, 8579);
    (9424, 9449, 1, 9398); (11312, 11359, 1, 11264); (11361, 11361, 1, 11360); (11365, 11365, 1, 570);
    (11366, 11366, 1, 574); (11368, 11372, 2, 11367); (11379, 11379, 1, 11378); (11382, 11382, 1, 11381);
    (11393, 11491, 2, 11392); (11500, 11502, 2, 11499); (11507, 11507, 1, 11506); (11520, 11557, 1, 4256);
    (11559, 11559, 1, 4295); (11565, 11565, 1, 4301); (42561, 42605, 2, 42560); (42625, 42651, 2, 42624);
    (42787, 42799, 2, 42786); (42803, 42863, 2, 42802); (42874, 42876, 2, 42873); (42879, 42887, 2, 42878);
    (42892, 42892, 1, 42891); (42897, 42899, 2, 42896); (42900, 42900, 1, 42948); (42903, 42921, 2, 42902);
    (42933, 42947, 2, 42932); (42952, 42954, 2, 42951); (42961, 42961, 1, 42960); (42967, 42969, 2, 42966);
    (42998, 42998, 1, 42997); (43859, 43859, 1, 42931); (43888, 43967, 1, 5024); (65345, 65370, 1, 65313)
  ]%N.

Definition upperUnit (c : N) : list N :=
  match find (λ entry, (entry.1 =? c)%N) upperSpecial with
  | Some entry => entry.2
  | None =>
      match find (λ '(first, last, step, _),
                    ((first <=? c) && (c <=? last)
                     && ((c - first) mod step =? 0))%N) upperRuns with
      | Some (first, _, _, image) => [(image + (c - first))%N]
      | None => [c]
      end
  end.

(** [name.charAt(0).toUpperCase() + name.slice(1)] *)
Definition capitalize (name : list N) : list N :=
  match name with
  | [] => []
  | c :: rest => upperUnit c ++ rest
  end.

Definition isCRLF (c : N) : bool := ((c =? 13) || (c =? 10))%N.

(** LineTerminator code units. *)
Definition isLineTerminator (c : N) : bool :=
  ((c =? 10) || (c =? 13) || (c =? 8232) || (c =? 8233))%N.

(** The class [[.*+?^${}()|[\]\\]] *)
Definition isSyntaxChar (c : N) : bool :=
  existsb (N.eqb c) (str ".*+?^${}()|[]\").

(** [s.split(sep)] for a separator string: [skip] units of an occurrence of
    the separator are still to be passed over. *)
Fixpoint splitAux (sep s : list N) (skip : nat) : list (list N) :=
  match s with
  | [] => [[]]
  | c :: s' =>
      match skip with
      | S k => splitAux sep s' k
      | 0 =>
          if bool_decide (sep `prefix_of` s)
          then [] :: splitAux sep s' (length sep - 1)
          else match splitAux sep s' 0 with
               | p :: ps => (c :: p) :: ps
               | [] => [[c]]
               end
      end
  end.

Definition split (s sep : list N) : list (list N) :=
  match sep with
  | [] => (λ c, [c]) <$> s
  | _ => splitAux sep s 0
  end.

(** [s.replace(pattern, replacement)] for a pattern string, the replacement
    taken as it is: the first occurrence is replaced. *)
Definition replace (s pattern replacement : list N) : list N :=
  match JS.indexOf s pattern with
  | Some i => take i s ++ replacement ++ drop (i + length pattern) s
  | None => s
  end.

End Text.

Record SelectionCoords := mkCoords {
  start : nat;
  end_ : nat;
  lineNumber : nat;
  char : nat;
  beforeContext : list N;
  afterContext : list N
}.

(** The part of the application state the rule generator reads and writes:
    the selection, and the string last assigned to the [innerHTML] of the
    rule output element. *)
Record Session := mkSession {
  selectedText : list N;
  selectionCoords : option SelectionCoords;
  ruleOutput : list N
}.

Definition joinWith (sep : list N) (pieces : list (list N)) : list N :=
  match pieces with
  | [] => []
  | p :: ps => p ++ concat ((λ q, sep ++ q) <$> ps)
  end.

Definition getSelectionCoordinates (selectedText : list N)
    (textContent : list N) (startOffset : nat) : SelectionCoords :=
  let lines :=
    JS.splitOn (λ c, (c =? 10)%N) (JS.substring textContent 0 startOffset) in
  let lineNumber := length lines in
  let charPosition := length (default [] (last lines)) + 1 in
  {| start := startOffset;
     end_ := startOffset + length selectedText;
     lineNumber := lineNumber;
     char := charPosition;
     beforeContext := joinWith Text.newline (drop (length lines - 3) lines);
     afterContext :=
       joinWith Text.newline
         (take 3 (JS.splitOn (λ c, (c =? 10)%N)
                    (JS.substring textContent
                       (startOffset + length selectedText)
                       (length textContent)))) |}.

(** [handleTextSelection]: [selection] is the text of the selection
    ([selection.toString()]), [textContent] the value of the content element
    and [selectionStart] its caret offset. *)
Definition handleTextSelection (selection : list N) (textContent : list N)
    (selectionStart : nat) (st : Session) : Session :=
  let selectedText := JS.trim selection in
  match selectedText with
  | [] => {| selectedText := selectedText;
             selectionCoords := selectionCoords st;
             ruleOutput := ruleOutput st |}
  | _ => {| selectedText := selectedText;
            selectionCoords :=
              Some (getSelectionCoordinates selectedText textContent
                      selectionStart);
            ruleOutput := ruleOutput st |}
  end.

Definition resetSelectionInfo (st : Session) : Session :=
  {| selectedText := []; selectionCoords := None; ruleOutput := ruleOutput st |}.

(** [text.replace(/[.*+?^${}()|[\]\\]/g, '\\$&')] *)
Definition escapeRegex (text : list N) : list N :=
  text ≫= λ c, if Text.isSyntaxChar c then [92%N; c] else [c].

(** The generators return the text of a procedure (the [rule] object each
    of them builds first is not used).  All four texts start alike: a
    comment line and the head of the function. *)
Definition extractHeader (kind : string) (name : list N) : list N :=
  str "// " ++ str kind ++ str " Rule: " ++ name ++ Text.newline
  ++ str "static extract" ++ Text.capitalize name ++ str "(content) {"
  ++ Text.newline.

Definition generateRegexRule (name text : list N)
    (coords : option SelectionCoords) : option (list N) :=
  let escaped := escapeRegex text in
  Some (extractHeader "Regex" name
        ++ str "    const match = content.match(/" ++ escaped ++ str "/);"
        ++ Text.newline
        ++ str "    return match ? match[1] || match[0] : '';"
        ++ Text.newline ++ str "}").

(** Reading [coords.start] of a missing [coords] throws: [None]. *)
Definition generateCoordinateRule (name text : list N)
    (coords : option SelectionCoords) : option (list N) :=
  match coords with
  | None => None
  | Some coords =>
      Some (extractHeader "Coordinate" name
            ++ str "    return content.substring("
            ++ Text.decimal (start coords) ++ str ", "
            ++ Text.decimal (end_ coords) ++ str ").trim();"
            ++ Text.newline ++ str "}")
  end.

Definition generateCSSRule (name text : list N)
    (coords : option SelectionCoords) : option (list N) :=
  Some (extractHeader "CSS Selector" name
        ++ str "    // CSS selector simulation" ++ Text.newline
        ++ str "    if (content.includes(" ++ Text.quote ++ text ++ Text.quote
        ++ str ")) {" ++ Text.newline
        ++ str "        const parts = content.split(" ++ Text.quote ++ text
        ++ Text.quote ++ str ");" ++ Text.newline
        ++ str "        return parts[1] ? parts[1].split(/[\r\n]/)[0].trim() : "
        ++ Text.quote ++ text ++ Text.quote ++ str ";" ++ Text.newline
        ++ str "    }" ++ Text.newline
        ++ str "    return '';" ++ Text.newline ++ str "}").

Definition generateXPathRule (name text : list N)
    (coords : option SelectionCoords) : option (list N) :=
  Some (extractHeader "XPath" name
        ++ str "    // XPath simulation - find content containing "
        ++ Text.quote ++ text ++ Text.quote ++ Text.newline
        ++ str "    const lines = content.split(/[\r\n]/);" ++ Text.newline
        ++ str "    const line = lines.find(l => l.includes(" ++ Text.quote
        ++ text ++ Text.quote ++ str "));" ++ Text.newline
        ++ str "    return line ? line.replace(" ++ Text.quote ++ text
        ++ Text.quote ++ str ", '').trim() : '';" ++ Text.newline ++ str "}").

(** [this.ruleGenerators], the object [initializeRuleGenerators] builds. *)
Definition ruleGenerators
  : gmap string (list N → list N → option SelectionCoords → option (list N)) :=
  <["regex" := generateRegexRule]>
  (<["coordinates" := generateCoordinateRule]>
   (<["css" := generateCSSRule]>
    (<["xpath" := generateXPathRule]> ∅))).

(** The names an object literal inherits from [Object.prototype]: a lookup
    of one of them does not give [undefined]. *)
Definition objectPrototypeKeys : list string :=
  [ "constructor"; "__defineGetter__"; "__defineSetter__"; "hasOwnProperty";
    "__lookupGetter__"; "__lookupSetter__"; "isPrototypeOf";
    "propertyIsEnumerable"; "toString"; "valueOf"; "__proto__";
    "toLocaleString" ].

Definition placeholder : list N := str "// Generated rules will appear here...".

Section RuleOutput.

(** What [ruleOutput.innerHTML] reads once a string has been assigned to it.
    The element parses the assigned string as markup and writes its content
    out again on a read, so the string read need not be the string
    assigned: [=>] is read as [=&gt;], and a [<] may open a tag. *)
Variable innerHTML : list N → list N.

Definition addRuleToOutput (ruleCode : list N) (st : Session) : Session :=
  let currentContent := innerHTML (ruleOutput st) in
  let newContent :=
    if bool_decide (currentContent = placeholder) then ruleCode
    else currentContent ++ Text.newline ++ Text.newline ++ ruleCode in
  {| selectedText := selectedText st;
     selectionCoords := selectionCoords st;
     ruleOutput := newContent |}.

(** What a call of [generateRule] does. *)
Inductive Outcome :=
| Alerted (message : string)
| Added (ruleCode : list N)
| Threw
| Returned.

(** [generateRule] with the values of the [ruleType] and [ruleName]
    elements.  A [ruleType] that names a member inherited from
    [Object.prototype] calls that member; this is outside the model
    ([None]). *)
Definition generateRule (ruleType : string) (ruleName : list N) (st : Session)
  : option (Outcome * Session) :=
  if bool_decide (selectedText st = []) then
    Some (Alerted "Please select some text first to generate a rule.", st)
  else if bool_decide (JS.trim ruleName = []) then
    Some (Alerted "Please enter a rule name.", st)
  else
    match ruleGenerators !! ruleType with
    | Some generator =>
        match generator ruleName (selectedText st) (selectionCoords st) with
        | Some rule => Some (Added rule, addRuleToOutput rule st)
        | None => Some (Threw, st)
        end
    | None =>
        if bool_decide (ruleType ∈ objectPrototypeKeys) then None
        else Some (Returned, st)
    end.

End RuleOutput.

(** ** The generated procedures

    What the function in the text of a generated rule computes, read off
    the template of its generator.  The rule name and the selection are
    spliced into the program text as they are, so the program is the
    intended one only when every spliced text is, at its place, a text that
    denotes itself; [None] stands for a program text outside this
    reading. *)

Module Generated.

(** SyntaxCharacter of the grammar of regular expressions:
    [^ $ \ . * + ? ( ) [ ] { } |] *)
Definition isSyntaxCharacter (c : N) : bool :=
  ((c =? 94) || (c =? 36) || (c =? 92) || (c =? 46) || (c =? 42) || (c =? 43)
   || (c =? 63) || (c =? 40) || (c =? 41) || (c =? 91) || (c =? 93)
   || (c =? 123) || (c =? 125) || (c =? 124))%N.

(** The letters, digits, [$] and [_]: the ASCII units that can stand in an
    identifier. *)
Definition isIdentifierPart (c : N) : bool :=
  Regex.isWordChar c || (c =? 36)%N.

(** A text in a line comment: a line terminator would end the comment and
    leave the rest of the text in the program. *)
Definition lineComment (spliced : list N) : bool :=
  forallb (λ c, negb (Text.isLineTerminator c)) spliced.

(** The head of the four rules:
    [// Kind Rule: name] and [static extractName(content) {].
    The rule name stands in a line comment and, with its first unit in
    upper case, in the name of the function. *)
Definition header (name : list N) : bool :=
  lineComment name && forallb isIdentifierPart (Text.capitalize name).

(** The source of a regular expression literal made of literal units and
    escaped syntax characters, as the units it matches. *)
Fixpoint literalPattern (source : list N) : option (list N) :=
  match source with
  | [] => Some []
  | c :: rest =>
      if (c =? 92)%N then
        match rest with
        | d :: rest' =>
            if isSyntaxCharacter d then (d ::.) <$> literalPattern rest'
            else None
        | [] => None
        end
      else if isSyntaxCharacter c || Text.isLineTerminator c || (c =? 47)%N
      then None
      else (c ::.) <$> literalPattern rest
  end.

(** The body of a double-quoted string literal without quote, backslash or
    line terminator denotes itself. *)
Definition stringLiteral (body : list N) : option (list N) :=
  if forallb (λ c, negb ((c =? 34) || (c =? 92) || Text.isLineTerminator c)%N)
       body
  then Some body else None.

(** [const match = content.match(/escaped/);
     return match ? match[1] || match[0] : '';] *)
Definition extractRegex (name escaped : list N) (content : list N)
  : option (list N) :=
  if header name then
    units ← literalPattern escaped;
    Some match Regex.search (RLit units) content with
         | Some (i, e) => JS.substring content i e
         | None => []
         end
  else None.

(** [return content.substring(start, end).trim();] *)
Definition extractCoordinates (name : list N) (start end_ : nat)
    (content : list N) : option (list N) :=
  if header name then Some (JS.trim (JS.substring content start end_))
  else None.

(** [if (content.includes("text")) {
       const parts = content.split("text");
       return parts[1] ? parts[1].split(/[\r\n]/)[0].trim() : "text";
     }
     return '';] *)
Definition extractCSS (name spliced : list N) (content : list N)
  : option (list N) :=
  if header name then
    text ← stringLiteral spliced;
    Some (if JS.includes content text then
            match Text.split content text !! 1 with
            | Some (c :: part) =>
                JS.trim (default []
                           (head (JS.splitOn Text.isCRLF (c :: part))))
            | _ => text
            end
          else [])
  else None.

(** [// XPath simulation - find content containing "text"
     const lines = content.split(/[\r\n]/);
     const line = lines.find(l => l.includes("text"));
     return line ? line.replace("text", '').trim() : '';] *)
Definition extractXPath (name spliced : list N) (content : list N)
  : option (list N) :=
  if header name && lineComment spliced then
    text ← stringLiteral spliced;
    Some match find (λ l, JS.includes l text)
                 (JS.splitOn Text.isCRLF content) with
         | Some (c :: line) => JS.trim (Text.replace (c :: line) text [])
         | _ => []
         end
  else None.

End Generated.

(** ** The platform's text codecs ([TextDecoder], [TextEncoder])

    The decoders of the Encoding Standard for the labels the normalizer
    uses, without the [fatal] flag: malformed input decodes to U+FFFD.  The
    output is a string, so a code point above U+FFFF is a surrogate pair. *)

Module Codec.

Definition replacement : N := 65533.

Definition isLead (u : N) : bool := ((55296 <=? u) && (u <=? 56319))%N.
Definition isTrail (u : N) : bool := ((56320 <=? u) && (u <=? 57343))%N.

(** A code point as UTF-16 code units. *)
Definition units (cp : N) : list N :=
  (if cp <? 65536 then [cp]
   else [55296 + (cp - 65536) / 1024; 56320 + (cp - 65536) mod 1024])%N.

(** A decoder drops a byte order mark at the start of its output. *)
Definition dropMark (s : list N) : list N :=
  match s with
  | c :: s' => if (c =? 65279)%N then s' else s
  | [] => []
  end.

(** The state of the UTF-8 decoder: code point so far, bytes needed, and the
    bounds of the next byte. *)
Definition utf8State : Type := N * nat * N * N.

Definition utf8Start : utf8State := (0%N, 0, 128%N, 191%N).

(** A byte read when no byte is needed: the units it gives and the state
    it leaves. *)
Definition utf8Lead (b : N) : list N * utf8State :=
  (if b <=? 127 then ([b], utf8Start)
   else if (194 <=? b) && (b <=? 223)
   then ([], (N.land b 31, 1%nat, 128, 191))
   else if (224 <=? b) && (b <=? 239)
   then ([], (N.land b 15, 2%nat, if b =? 224 then 160 else 128,
              if b =? 237 then 159 else 191))
   else if (240 <=? b) && (b <=? 244)
   then ([], (N.land b 7, 3%nat, if b =? 240 then 144 else 128,
              if b =? 244 then 143 else 191))
   else ([replacement], utf8Start))%N.

Fixpoint utf8Decode (bytes : list N) (st : utf8State) : list N :=
  match bytes with
  | [] => match st with
          | (_, 0, _, _) => []
          | _ => [replacement]
          end
  | b :: rest =>
      match st with
      | (_, 0, _, _) =>
          let (out, st') := utf8Lead b in out ++ utf8Decode rest st'
      | (cp, S needed, lower, upper) =>
          if ((lower <=? b) && (b <=? upper))%N then
            let cp' := N.lor (N.shiftl cp 6) (N.land b 63) in
            match needed with
            | 0 => units cp' ++ utf8Decode rest utf8Start
            | _ => utf8Decode rest (cp', needed, 128, 191)%N
            end
          else
            let (out, st') := utf8Lead b in
            replacement :: out ++ utf8Decode rest st'
      end
  end.

(** The index of windows-1252 for the bytes 0x80 to 0x9F. *)
Definition windows1252High : list N :=
  [ 8364; 129; 8218; 402; 8222; 8230; 8224; 8225; 710; 8240; 352; 8249; 338;
    141; 381; 143; 144; 8216; 8217; 8220; 8221; 8226; 8211; 8212; 732; 8482;
    353; 8250; 339; 157; 382; 376 ]%N.

Definition windows1252Unit (b : N) : N :=
  if ((128 <=? b) && (b <=? 159))%N
  then default b (windows1252High !! N.to_nat (b - 128))
  else b.

(** Two bytes make a code unit; a byte left over is malformed. *)
Fixpoint utf16Units (bigEndian : bool) (bytes : list N) : list N * bool :=
  match bytes with
  | [] => ([], false)
  | [_] => ([], true)
  | b1 :: b2 :: rest =>
      let (us, odd) := utf16Units bigEndian rest in
      ((if bigEndian then b1 * 256 + b2 else b2 * 256 + b1)%N :: us, odd)
  end.

(** A unit read when no lead surrogate is pending. *)
Definition utf16Fresh (u : N) : list N * option N :=
  if isLead u then ([], Some u)
  else if isTrail u then ([replacement], None)
  else ([u], None).

Fixpoint utf16Pair (us : list N) (pending : option N) (odd : bool) : list N :=
  match us with
  | [] => if bool_decide (is_Some pending) || odd then [replacement] else []
  | u :: rest =>
      match pending with
      | Some lead =>
          if isTrail u then lead :: u :: utf16Pair rest None odd
          else let (out, pending') := utf16Fresh u in
               replacement :: out ++ utf16Pair rest pending' odd
      | None =>
          let (out, pending') := utf16Fresh u in
          out ++ utf16Pair rest pending' odd
      end
  end.

Definition utf16Decode (bigEndian : bool) (bytes : list N) : list N :=
  let (us, odd) := utf16Units bigEndian bytes in utf16Pair us None odd.

(** [new TextDecoder(label, { fatal: false }).decode(buffer)]; [None] when
    the label names no decoder and the constructor throws. *)
Definition decode (label : string) (buffer : list Byte.byte)
  : option (list N) :=
  let bytes := Byte.to_N <$> buffer in
  if bool_decide (label = "utf-8")
  then Some (dropMark (utf8Decode bytes utf8Start))
  else if bool_decide (label = "iso-8859-1") || bool_decide (label = "windows-1252")
  then Some (windows1252Unit <$> bytes)
  else if bool_decide (label = "utf-16le")
  then Some (dropMark (utf16Decode false bytes))
  else if bool_decide (label = "utf-16be")
  then Some (dropMark (utf16Decode true bytes))
  else None.

(** The code points of a string, a lone surrogate read as U+FFFD. *)
Fixpoint codePoints (s : list N) : list N :=
  match s with
  | [] => []
  | u :: rest =>
      if isLead u then
        match rest with
        | t :: rest' =>
            if isTrail t
            then (65536 + (u - 55296) * 1024 + (t - 56320))%N :: codePoints rest'
            else replacement :: codePoints rest
        | [] => [replacement]
        end
      else if isTrail u then replacement :: codePoints rest
      else u :: codePoints rest
  end.

Definition utf8Bytes (cp : N) : list N :=
  (if cp <? 128 then [cp]
   else if cp <? 2048 then [192 + cp / 64; 128 + cp mod 64]
   else if cp <? 65536
   then [224 + cp / 4096; 128 + (cp / 64) mod 64; 128 + cp mod 64]
   else [240 + cp / 262144; 128 + (cp / 4096) mod 64;
         128 + (cp / 64) mod 64; 128 + cp mod 64])%N.

(** [new TextEncoder().encode(s)] *)
Definition encode (s : list N) : list Byte.byte :=
  (λ n, default Byte.x00 (Byte.of_N n)) <$> (codePoints s ≫= utf8Bytes).

End Codec.

(** ** The normalizer ([convertContentToDisplayableText],
    [convertContentToHex]) *)

Inductive Content :=
| TextContent (s : list N)
| BufferContent (buffer : list Byte.byte)
| OtherContent.

Module Normalizer.

(** The class [[\x00-\x1F\x7F]] *)
Definition isControl (c : N) : bool := ((c <=? 31) || (c =? 127))%N.

(** The class [[\x01-\x08\x0B\x0C\x0E-\x1F\x7F]] *)
Definition isStripped (c : N) : bool :=
  ((1 <=? c) && (c <=? 8) || (c =? 11) || (c =? 12)
   || (14 <=? c) && (c <=? 31) || (c =? 127))%N.

(** [.replace(/\x00/g, '').replace(/[\x01-\x08\x0B\x0C\x0E-\x1F\x7F]/g, '')] *)
Definition stripControls (s : list N) : list N :=
  filter (λ c, isStripped c = false) (filter (λ c, c ≠ 0%N) s).

(** [decoded.replace(/[\x00-\x1F\x7F]/g, '').length] *)
Definition printableChars (decoded : list N) : nat :=
  length (filter (λ c, isControl c = false) decoded).

(** [printableChars / decoded.length > 0.3] *)
Definition looksValid (decoded : list N) : bool :=
  PrimFloat.ltb 0.3
    (JS.number (printableChars decoded) / JS.number (length decoded)).

Definition encodings : list string :=
  ["utf-8"; "iso-8859-1"; "windows-1252"; "utf-16le"; "utf-16be"].

(** [n.toString(16).padStart(width, '0')] *)
Definition hex (width : nat) (n : nat) : list N :=
  let digits :=
    str (HexadecimalString.NilZero.string_of_uint (Nat.to_hex_uint n)) in
  replicate (width - length digits) 48%N ++ digits.

Definition space : N := 32.

(** One row of the dump: the offset, sixteen hex columns and the character
    gutter. *)
Definition hexLine (offset : nat) (chunk : list N) : list N :=
  let charsPerLine := 16 in
  let hexRow :=
    ((λ b, hex 2 (N.to_nat b)) <$> chunk)
    ++ replicate (charsPerLine - length chunk) [space; space] in
  let charRow :=
    ((λ b, if (32 <=? b) && (b <=? 126) then b else 46)%N <$> chunk)
    ++ replicate (charsPerLine - length chunk) space in
  hex 8 offset ++ str ": " ++ joinWith [space] hexRow ++ str "  |" ++ charRow
  ++ str "|".

(** The loop over the rows: [rows] of them are left, the next one starts at
    [offset]. *)
Fixpoint hexLines (view : list N) (rows : nat) (offset : nat) : list (list N) :=
  match rows with
  | 0 => []
  | S rows' =>
      hexLine offset (take 16 (drop offset view))
      :: hexLines view rows' (offset + 16)
  end.

Definition hexDump (view : list N) (filename : list N) : list N :=
  str "Hexadecimal dump of " ++ filename ++ str " ("
  ++ Text.decimal (length view) ++ str " bytes):" ++ Text.newline
  ++ Text.newline
  ++ joinWith Text.newline (hexLines view ((length view + 15) / 16) 0).

Section Conversion.

(** The codecs of the platform. *)
Variable decode : string → list Byte.byte → option (list N).
Variable encode : list N → list Byte.byte.

Definition convertContentToHex (content : Content) (filename : list N)
    (asText : bool) : list N :=
  match content with
  | BufferContent buffer => hexDump (Byte.to_N <$> buffer) filename
  | TextContent s => hexDump (Byte.to_N <$> encode s) filename
  | OtherContent => str "Cannot convert content to hexadecimal"
  end.

(** The loop over the encodings: the first decoded text that looks valid,
    stripped. *)
Fixpoint firstValid (encodings : list string) (buffer : list Byte.byte)
  : option (list N) :=
  match encodings with
  | [] => None
  | encoding :: rest =>
      match decode encoding buffer with
      | Some decoded =>
          if looksValid decoded then Some (stripControls decoded)
          else firstValid rest buffer
      | None => firstValid rest buffer
      end
  end.

Definition convertContentToDisplayableText (content : Content)
    (filename : list N) : list N :=
  match content with
  | TextContent s => stripControls s
  | BufferContent buffer =>
      match firstValid encodings buffer with
      | Some text => text
      | None => convertContentToHex content filename true
      end
  | OtherContent => str "Unable to display content as text"
  end.

End Conversion.

(** [normalize]: the conversion with the codecs of the platform. *)
Definition normalize (content : Content) (filename : list N) : list N :=
  convertContentToDisplayableText Codec.decode Codec.encode content filename.

End Normalizer.

(** ** The confidence indicator ([getConfidenceIcon]) *)

(** [getConfidenceIcon(confidence)]: the green, yellow and red circles, as
    their code units. *)
Definition getConfidenceIcon (confidence : float) : list N :=
  if PrimFloat.leb 0.8 confidence then [55357; 57314]%N
  else if PrimFloat.leb 0.6 confidence then [55357; 57313]%N
  else [55357; 56628]%N.

(** ** The preview of a binary file ([convertToHexPreview]) *)

(** A count that may be negative, in a template literal. *)
Definition decimalZ (z : Z) : list N :=
  if (z <? 0)%Z then 45%N :: Text.decimal (Z.to_nat (- z))
  else Text.decimal (Z.to_nat z).

(** The last line of the preview; its leading line feed is the one
    [convertToHexPreview] writes in front of it. *)
Definition previewTrailer (byteLength maxBytes : nat) : list N :=
  str "[... " ++ decimalZ (Z.of_nat byteLength - Z.of_nat maxBytes)
  ++ str " more bytes in file ...]".

(** [convertToHexPreview(arrayBuffer, maxBytes)]: the rows of the dump of
    the first [maxBytes] bytes, then the count of the bytes left out. *)
Definition convertToHexPreview (arrayBuffer : list Byte.byte) (maxBytes : nat)
  : list N :=
  let view :=
    Byte.to_N <$> take (length arrayBuffer `min` maxBytes) arrayBuffer in
  let lines := Normalizer.hexLines view ((length view + 15) / 16) 0 in
  joinWith Text.newline
    (lines ++ [Text.newline ++ previewTrailer (length arrayBuffer) maxBytes]).

(** ** Fields of the message ([extractTroubleType], [extractSubjectLine],
    [decodeQuotedPrintable]) *)

(** [extractTroubleType(description)].  The words looked for hold no [i]
    at their end and no [k], so the two code units above the Latin-1 range
    whose lower case has an ASCII letter (U+0130 and U+212A) cannot make a
    difference to the result. *)
Definition extractTroubleType (description : list N) : list N :=
  let desc := JS.toLowerCase description in
  if JS.includes desc (str "device offline") || JS.includes desc (str "offline")
  then str "DFO"
  else if JS.includes desc (str "line error") || JS.includes desc (str "error")
  then str "line error"
  else if JS.includes desc (str "malfunction") || JS.includes desc (str "fault")
  then str "malfunction"
  else str "other".

(** [line.toLowerCase().startsWith('subject:')] *)
Definition startsWithSubject (line : list N) : bool :=
  bool_decide (str "subject:" `prefix_of` JS.toLowerCase line).

(** [extractSubjectLine()], [content] the value of the content element. *)
Definition extractSubjectLine (content : list N) : list N :=
  match find startsWithSubject (JS.splitOn (λ c, (c =? 10)%N) content) with
  | Some line => JS.trim (JS.substring line 8 (length line))
  | None => []
  end.

(** The class [[0-9A-F]] under the [i] flag. *)
Definition isHexDigit (c : N) : bool :=
  ((48 <=? c) && (c <=? 57) || (65 <=? c) && (c <=? 70)
   || (97 <=? c) && (c <=? 102))%N.

(** The value of a hexadecimal digit. *)
Definition hexValue (c : N) : N :=
  (if c <=? 57 then c - 48 else if c <=? 70 then c - 55 else c - 87)%N.

(** [.replace(/=\r?\n/g, '')] *)
Fixpoint removeSoftBreaks (s : list N) : list N :=
  match s with
  | [] => []
  | c :: rest =>
      if (c =? 61)%N then
        match rest with
        | d :: rest' =>
            if (d =? 10)%N then removeSoftBreaks rest'
            else if (d =? 13)%N then
              match rest' with
              | e :: rest'' =>
                  if (e =? 10)%N then removeSoftBreaks rest''
                  else c :: removeSoftBreaks rest
              | [] => c :: removeSoftBreaks rest
              end
            else c :: removeSoftBreaks rest
        | [] => c :: removeSoftBreaks rest
        end
      else c :: removeSoftBreaks rest
  end.

(** [.replace(/=([0-9A-F]{2})/gi, (match, hex) =>
    String.fromCharCode(parseInt(hex, 16)))] *)
Fixpoint decodeEscapes (s : list N) : list N :=
  match s with
  | [] => []
  | c :: rest =>
      if (c =? 61)%N then
        match rest with
        | h :: l :: rest' =>
            if isHexDigit h && isHexDigit l
            then (16 * hexValue h + hexValue l)%N :: decodeEscapes rest'
            else c :: decodeEscapes rest
        | _ => c :: decodeEscapes rest
        end
      else c :: decodeEscapes rest
  end.

Definition decodeQuotedPrintable (input : list N) : list N :=
  decodeEscapes (removeSoftBreaks input).

(** ** Field extraction ([class EmailParser])

    The patterns of the extractors have the shape [/label\s*(group)/i]: a
    literal, blanks and one group at the end. *)

(** Under the [i] flag a code unit below 128 of the pattern stands for
    itself and, when it is a letter, for its other case. *)
Definition asciiUpper (c : N) : N :=
  if Regex.isLower c then (c - 32)%N else c.

Definition sameLetter (x c : N) : bool := (asciiUpper c =? asciiUpper x)%N.

(** A literal under the [i] flag. *)
Fixpoint RLitI (cs : list N) : regex :=
  match cs with
  | [] => RLit []
  | x :: cs' => RSeq (RClass (sameLetter x)) (RLitI cs')
  end.

Module Capture.

(** A match attempt of [/pre(grp)/] at offset [i]: the offsets of the
    group.  The continuation of [pre] accepts an offset when the group
    matches from it, so [pre] gives back units until it does. *)
Definition groupAt (pre grp : regex) (s : list N) (i : nat)
  : option (nat * nat) :=
  j ← Regex.m pre s i
         (λ j, match Regex.matchAt grp s j with
               | Some _ => Some j
               | None => None
               end);
  e ← Regex.matchAt grp s j;
  Some (j, e).

(** The leftmost offset with a match: [n] offsets are left, the current
    one is [i]. *)
Fixpoint searchFrom (pre grp : regex) (s : list N) (n i : nat)
  : option (nat * nat) :=
  match n with
  | 0 => None
  | S n' =>
      match groupAt pre grp s i with
      | Some g => Some g
      | None => searchFrom pre grp s n' (S i)
      end
  end.

(** [s.match(/pre(grp)/)]: [match[1]], [None] for no match. *)
Definition group1 (pre grp : regex) (s : list N) : option (list N) :=
  (λ g, JS.substring s g.1 g.2) <$> searchFrom pre grp s (S (length s)) 0.

End Capture.

Module EmailParser.

(** The class [[^\r\n]] *)
Definition notLineBreak (c : N) : bool := negb ((c =? 13) || (c =? 10))%N.

(** [label\s*] *)
Definition label (l : string) : regex :=
  RSeq (RLitI (str l)) (RRep JS.isWhiteSpace 0 None).

(** [([^\r\n]+)] *)
Definition restOfLine : regex := RRep notLineBreak 1 None.

(** [([VP]\d+)] *)
Definition ticket : regex :=
  RSeq (RClass (λ c, Patterns.isVP (asciiUpper c))) (RRep Regex.isDigit 1 None).

(** [s.toUpperCase()] *)
Definition toUpperCase (s : list N) : list N := s ≫= Text.upperUnit.

Definition extractAddress (content : list N) : list N :=
  let match_ := Capture.group1 (label "Work Site Address:") restOfLine content in
  let match_ :=
    match match_ with
    | Some _ => match_
    | None => Capture.group1 (label "Site Address:") restOfLine content
    end in
  let match_ :=
    match match_ with
    | Some _ => match_
    | None => Capture.group1 (label "Address:") restOfLine content
    end in
  match match_ with
  | Some group => JS.trim group
  | None => []
  end.

Definition extractBuilding (content : list N) : list N :=
  let match_ := Capture.group1 (label "Work Site:") restOfLine content in
  let match_ :=
    match match_ with
    | Some _ => match_
    | None => Capture.group1 (label "WorkSite:") restOfLine content
    end in
  let match_ :=
    match match_ with
    | Some _ => match_
    | None => Capture.group1 (label "Site:") restOfLine content
    end in
  match match_ with
  | Some group => JS.trim group
  | None => []
  end.

Definition extractJobNumber (content : list N) : list N :=
  match Capture.group1 (label "SIM-T Ticket:") ticket content with
  | Some group => toUpperCase group
  | None => []
  end.

Definition extractDeviceName (content : list N) : list N :=
  match Capture.group1 (label "Device Name:") restOfLine content with
  | Some group => JS.trim group
  | None => []
  end.

End EmailParser.

(** * The statements

    Definitions the properties below are stated with. *)

(** The scorer adds constants to 0.5 and clamps; a reassignment adds 0.2
    and clamps.  In binary64 arithmetic the sums take nine values. *)
Definition confidenceValues : list float :=
  [ 0.5; 0.59999999999999998; 0.69999999999999996; 0.79999999999999993;
    0.80000000000000004; 0.89999999999999991; 0.90000000000000002;
    0.99999999999999989; 1 ]%float.

(** [0.5 <= c && c <= 1.0] *)
Definition inBounds (c : float) : bool :=
  PrimFloat.leb 0.5 c && PrimFloat.leb c 1.0.

(** The target a match of a pattern of [fieldType] gives rise to. *)
Definition candidate (content : list N) (fieldType : string) (mt : nat * nat)
  : ParserTarget :=
  let targetText := JS.trim (JS.substring content mt.1 mt.2) in
  {| text := targetText; startPos := mt.1;
     endPos := mt.1 + length targetText;
     confidence := calculateConfidence fieldType targetText mt.1 content;
     fieldType := Some fieldType;
     context := Some (getTargetContext content mt.1
                        (mt.1 + length targetText)) |}.

(** [l.some(u => u.overlaps(t))] *)
Definition overlapsAny (l : list ParserTarget) (t : ParserTarget) : bool :=
  existsb (λ u, overlaps u t) l.

(** Targets whose spans are pairwise apart. *)
Inductive separated : list ParserTarget → Prop :=
| separated_nil : separated []
| separated_cons t l :
    Forall (λ u, overlaps t u = false) l → separated l → separated (t :: l).

(** Where the targets of a scan come from: each is the candidate of a match
    of a catalog pattern. *)
Definition fromCatalog (rules : list (string * list regex)) (content : list N)
    (t : ParserTarget) : Prop :=
  ∃ fieldType patterns pattern mt,
    (fieldType, patterns) ∈ rules ∧ pattern ∈ patterns
    ∧ mt ∈ Regex.matchAll pattern content
    ∧ t = candidate content fieldType mt.

(** A match that was scanned is in the registry or ran into a target that
    is. *)
Definition settled (l : list ParserTarget) (t : ParserTarget) : Prop :=
  t ∈ l ∨ ∃ u, u ∈ l ∧ overlaps u t = true.

(** The text of scenario 1. *)
Definition scenario1 : list N :=
  str "...Service Call B-802641 - SEA124 - Alarm Active - P3 - Reader - P296563983-13...".

(** What the registry shows of a target. *)
Definition summary (t : ParserTarget)
  : list N * nat * nat * option string * float :=
  (text t, startPos t, endPos t, fieldType t, confidence t).

(** The offset of the next sentence terminator or line break at or after
    [i], the length of the document when there is none. *)
Definition sentenceEnd (content : list N) (i : nat) : nat :=
  i + Regex.spanLen Patterns.notTerminator (drop i content).

(** The keywords of the two job-name patterns. *)
Definition jobNameStarts : list string :=
  Patterns.jobNameKeywords ++ Patterns.jobNameTroubleKeywords.

(** A keyword of the catalog holds no terminator and has no blank at
    either end. *)
Definition solidKeyword (kw : string) : bool :=
  forallb Patterns.notTerminator (str kw)
  && match head (str kw), last (str kw) with
     | Some c, Some d => negb (JS.isWhiteSpace c) && negb (JS.isWhiteSpace d)
     | _, _ => false
     end.

(** A document with a line of the second job-name pattern. *)
Definition offlineNote : list N := str "Device Offline at door 3.".

(** The registry after a scan of the scenario-1 text. *)
Definition scenario1Registry : list ParserTarget :=
  regenerateTargets scenario1 [].

(** Its target for [SEA124]. *)
Definition siteCodeTarget : ParserTarget :=
  candidate scenario1 "building_code" (27, 33).

(** The keys of [ruleGenerators]. *)
Definition knownStrategies : list string :=
  ["regex"; "coordinates"; "css"; "xpath"].

(** An outcome the caller can tell from a silent return. *)
Definition signalsError (o : Outcome) : bool :=
  match o with
  | Alerted _ | Threw => true
  | Added _ | Returned => false
  end.

(** The session after selecting [SEA124] in the scenario-1 text. *)
Definition labelSession : Session :=
  handleTextSelection (str "SEA124") scenario1 27
    {| selectedText := []; selectionCoords := None; ruleOutput := placeholder |}.

(** What can stand in a regular expression literal as it is. *)
Definition plainUnit (c : N) : bool :=
  negb (Text.isLineTerminator c || (c =? 47)%N).

(** A labelled line. *)
Definition labelLine : list N := str "Label: value".

(** The characters the final text is free of: NUL and the control
    characters other than tab, newline and carriage return. *)
Definition dropped (c : N) : Prop :=
  (c = 0 ∨ 1 ≤ c ≤ 8 ∨ c = 11 ∨ c = 12 ∨ 14 ≤ c ≤ 31 ∨ c = 127)%N.

(** The same as a test. *)
Definition isKept (c : N) : bool :=
  negb (c =? 0)%N && negb (Normalizer.isStripped c).

(** The specification's printable class: ASCII 0x20 to 0x7E, newline and
    tab. *)
Definition specPrintable (c : N) : bool :=
  ((32 <=? c) && (c <=? 126) || (c =? 10) || (c =? 9))%N.

(** An encoding is passed over when it has no decoder or its decoded text
    does not look valid. *)
Definition passedOver (decode : string → list Byte.byte → option (list N))
    (buffer : list Byte.byte) (encoding : string) : Prop :=
  ∀ decoded, decode encoding buffer = Some decoded →
             Normalizer.looksValid decoded = false.

(** The bytes of a letter and three newlines. *)
Definition newlineNote : list Byte.byte :=
  [Byte.x61; Byte.x0a; Byte.x0a; Byte.x0a].

(** ** The layout of a registry *)

(** An assertion consumes nothing. *)
Definition isAssertion (r : regex) : bool :=
  match r with
  | RWordB | RBegin | REnd => true
  | _ => false
  end.

(** A class the first unit of every match of [r] belongs to, for the
    expressions whose matches cannot be empty. *)
Fixpoint headClass (r : regex) : option (N → bool) :=
  match r with
  | RLit (c :: _) => Some (N.eqb c)
  | RLit [] => None
  | RClass p => Some p
  | RWordB | RBegin | REnd => None
  | RSeq r1 r2 => if isAssertion r1 then headClass r2 else headClass r1
  | RAlt r1 r2 =>
      match headClass r1, headClass r2 with
      | Some p1, Some p2 => Some (λ c, p1 c || p2 c)
      | _, _ => None
      end
  | RRep p lo _ => match lo with 0 => None | S _ => Some p end
  end.

(** The order [sort] leaves the registry in. *)
Definition byStart (a b : ParserTarget) : Prop := startPos a ≤ startPos b.

(** The registries a scan of [content] followed by reassignments gives. *)
Inductive remapped (content : list N) : list ParserTarget → Prop :=
| remapped_scan : remapped content (autoDetectParserTargets content)
| remapped_step index newFieldType l :
    remapped content l →
    remapped content (updateTargetMapping index newFieldType l).

(** What a reassignment leaves alone. *)
Definition span (t : ParserTarget) : list N * nat * nat :=
  (text t, startPos t, endPos t).

(** A keyword that starts with a word character. *)
Definition wordHead (kw : string) : bool :=
  match str kw with
  | c :: _ => Regex.isWordChar c
  | [] => false
  end.

(** Targets in the order of their start offsets. *)
Inductive ascending : list ParserTarget → Prop :=
| ascending_nil : ascending []
| ascending_cons t l :
    Forall (byStart t) l → ascending l → ascending (t :: l).

(** ** Lines and rows *)

(** The code unit of a line feed. *)
Definition isLF (c : N) : bool := (c =? 10)%N.

(** The number of line feeds of a text. *)
Definition lineFeeds (s : list N) : nat := length (filter (λ c, c = 10%N) s).

(** Printable ASCII. *)
Definition isPrintable (c : N) : bool := ((32 <=? c) && (c <=? 126))%N.

(** A hexadecimal digit, as a capital or as a small letter. *)
Definition hexDigit (capital : bool) (v : N) : N :=
  (if v <? 10 then 48 + v else if capital then 55 + v else 87 + v)%N.

(** Bytes written the quoted-printable way: an equals sign and two
    hexadecimal digits each, every digit in the case given with it. *)
Definition quotedBytes (bytes : list (Byte.byte * (bool * bool))) : list N :=
  bytes ≫= λ '(b, (capital1, capital2)),
    [61; hexDigit capital1 (Byte.to_N b / 16);
     hexDigit capital2 (Byte.to_N b mod 16)]%N.

(** * Properties *)

(** ** Confidence values *)

Ltac pick_value :=
  cbn [In]; repeat first [ left; reflexivity | right ].

Lemma calculateConfidence_values fieldType text position content :
  In (calculateConfidence fieldType text position content) confidenceValues.
Proof.
  unfold calculateConfidence.
  generalize (Regex.test Patterns.siteCode text)
    (Regex.test Patterns.allDigits text)
    (Regex.test Patterns.prefixedDigits text)
    ((5 <=? length text) && (length text <=? 8))
    ((6 <=? length text) && (length text <=? 10)).
  intros strict digits prefixed len58 len610.
  cbv zeta.
  generalize (JS.toLowerCase
    (JS.substring content (position - 100) position ++
     JS.substring content (position + length text)
       (position + length text + 100))).
  intros contextText.
  generalize (JS.includes contextText (str "service call"))
    (JS.includes contextText (str "device offline"))
    (JS.includes contextText (str "alarm active"))
    (JS.includes contextText (str "site"))
    (JS.includes contextText (str "building"))
    (PrimFloat.ltb 0.2 (JS.number position / JS.number (length content))).
  intros call offline active site building late.
  destruct (bool_decide (fieldType = "building_code")),
    (bool_decide (fieldType = "device_id")),
    (bool_decide (fieldType = "job_name")),
    (bool_decide (fieldType = "job_trouble_description"));
    cbn [andb orb];
    repeat match goal with
      | |- context [if ?b then _ else _] => is_var b; destruct b; cbn [andb orb]
      | |- context [orb ?b _] => is_var b; destruct b; cbn [andb orb]
      end;
    pick_value.
Qed.

Lemma confidenceValues_bounds c :
  In c confidenceValues → inBounds c = true.
Proof.
  cbn [confidenceValues In]. intros H.
  repeat (destruct H as [<- | H]; [ reflexivity | ]). destruct H.
Qed.

Lemma confidenceValues_nudge c :
  In c confidenceValues →
  In (JS.Math_min 1.0 (c + 0.2))%float confidenceValues
  ∧ PrimFloat.leb c (JS.Math_min 1.0 (c + 0.2))%float = true.
Proof.
  cbn [confidenceValues In]. intros H.
  repeat (destruct H as [<- | H]; [ split; [ pick_value | reflexivity ] | ]).
  destruct H.
Qed.

(** ** The detection pass *)

#[local] Hint Constructors separated : core.

Lemma calculateConfidence_threshold fieldType text position content :
  PrimFloat.leb 0.5 (calculateConfidence fieldType text position content) = true.
Proof.
  pose proof (confidenceValues_bounds _
    (calculateConfidence_values fieldType text position content)) as H.
  unfold inBounds in H. by apply andb_prop in H as [-> _].
Qed.

Lemma detectMatch_candidate content fieldType l mt :
  detectMatch content fieldType l mt =
    if overlapsAny l (candidate content fieldType mt) then l
    else l ++ [candidate content fieldType mt].
Proof.
  unfold detectMatch, overlapsAny. cbv zeta.
  rewrite calculateConfidence_threshold. reflexivity.
Qed.

Lemma overlaps_sym (a b : ParserTarget) : overlaps a b = overlaps b a.
Proof. unfold overlaps; cbn. by rewrite orb_comm. Qed.

Lemma overlapsAny_false l t :
  overlapsAny l t = false ↔ Forall (λ u, overlaps u t = false) l.
Proof.
  unfold overlapsAny. induction l as [|u l IH]; cbn.
  - split; [constructor | done].
  - rewrite orb_false_iff, IH, Forall_cons. done.
Qed.

Lemma separated_snoc l t :
  separated l → Forall (λ u, overlaps u t = false) l → separated (l ++ [t]).
Proof.
  induction 1 as [|u l Hu Hl IH]; cbn; intros Ht.
  - constructor; [constructor | constructor].
  - apply Forall_cons in Ht as [Hut Ht]. constructor; [ | by apply IH ].
    apply Forall_app. split; [done | by repeat constructor].
Qed.

Lemma separated_perm l l' : l ≡ₚ l' → separated l → separated l'.
Proof.
  induction 1 as [ | t l l' Hp IH | t u l | l1 l2 l3 _ IH1 _ IH2 ]; intros Hs.
  - done.
  - inversion_clear Hs as [ | ? ? Ht Hl ]. constructor; [ | by apply IH ].
    by rewrite <- Hp.
  - inversion_clear Hs as [ | ? ? Hu Hl ].
    inversion_clear Hl as [ | ? ? Ht Hl' ].
    apply Forall_cons in Hu as [Hut Hu].
    constructor; [ | by constructor ].
    constructor; [ by rewrite overlaps_sym | done ].
  - auto.
Qed.

Lemma separated_lookup l i j a b :
  separated l → i ≠ j → l !! i = Some a → l !! j = Some b →
  overlaps a b = false.
Proof.
  intros Hs. revert i j. induction Hs as [ | t l Ht Hl IH ]; intros i j Hij Ha Hb.
  - done.
  - destruct i as [|i], j as [|j]; cbn in *; simplify_eq.
    + eapply Forall_forall in Ht; [ exact Ht | ]. by eapply list_elem_of_lookup_2.
    + rewrite overlaps_sym.
      eapply Forall_forall in Ht; [ exact Ht | ]. by eapply list_elem_of_lookup_2.
    + eapply (IH i j); [ lia | done | done ].
Qed.

Lemma insertByStart_perm t l : insertByStart t l ≡ₚ t :: l.
Proof.
  induction l as [|u l IH]; cbn; [done | ].
  case_match; [done | ]. rewrite IH. apply Permutation_swap.
Qed.

Lemma sortByStart_perm l : sortByStart l ≡ₚ l.
Proof.
  induction l as [|t l IH]; cbn; [done | ].
  by rewrite insertByStart_perm, IH.
Qed.

Lemma detectMatch_separated content fieldType l mt :
  separated l → separated (detectMatch content fieldType l mt).
Proof.
  intros Hs. rewrite detectMatch_candidate.
  destruct (overlapsAny l _) eqn:Ho; [done | ].
  apply separated_snoc; [done | by apply overlapsAny_false].
Qed.

Lemma foldl_preserves {A B} (P : A → Prop) (f : A → B → A) (xs : list B) a :
  (∀ a x, x ∈ xs → P a → P (f a x)) → P a → P (foldl f a xs).
Proof.
  revert a. induction xs as [|x xs IH]; cbn; intros a Hf Ha; [done | ].
  apply IH.
  - intros a' x' Hx'. apply Hf. by right.
  - apply Hf; [ by left | done ].
Qed.

Lemma scanCatalog_separated rules content :
  separated (scanCatalog rules content).
Proof.
  unfold scanCatalog.
  apply foldl_preserves; [ | constructor ].
  intros l [fieldType patterns] _ Hl. unfold detectField; cbn.
  apply foldl_preserves; [ | done ].
  intros l' pattern _ Hl'. unfold detectPattern.
  apply foldl_preserves; [ | done ].
  intros l'' mt _ Hl''. by apply detectMatch_separated.
Qed.

(** C2: after a detection pass no two targets of the registry overlap, and
    a match whose span overlaps a target already accepted leaves the
    registry as it is, whatever its field type and score would be. *)
Theorem detection_non_overlap :
  (∀ content i j a b,
     i ≠ j →
     autoDetectParserTargets content !! i = Some a →
     autoDetectParserTargets content !! j = Some b →
     overlaps a b = false
     ∧ (endPos a ≤ startPos b ∨ endPos b ≤ startPos a))
  ∧ (∀ content fieldType detectedTargets mt,
       (∃ t, t ∈ detectedTargets
             ∧ overlaps t (candidate content fieldType mt) = true) →
       detectMatch content fieldType detectedTargets mt = detectedTargets).
Proof.
  split.
  - intros content i j a b Hij Ha Hb.
    assert (overlaps a b = false) as Hab.
    { eapply separated_lookup; [ | exact Hij | exact Ha | exact Hb ].
      unfold autoDetectParserTargets.
      eapply separated_perm; [ symmetry; apply sortByStart_perm | ].
      apply scanCatalog_separated. }
    split; [done | ].
    unfold overlaps in Hab; cbn in Hab.
    apply negb_false_iff, orb_true_iff in Hab as [H | H];
      apply Nat.leb_le in H; lia.
  - intros content fieldType l mt (t & Ht & Ho).
    rewrite detectMatch_candidate.
    assert (overlapsAny l (candidate content fieldType mt) = true) as ->; [ | done ].
    unfold overlapsAny. apply existsb_exists. exists t. split; [ | done ].
    by apply list_elem_of_In.
Qed.

Lemma detectMatch_provenance (P : ParserTarget → Prop) content fieldType l mt :
  P (candidate content fieldType mt) →
  Forall P l → Forall P (detectMatch content fieldType l mt).
Proof.
  intros Hc Hl. rewrite detectMatch_candidate. case_match; [done | ].
  apply Forall_app. by split; [ | repeat constructor ].
Qed.

Lemma scanCatalog_provenance rules content :
  Forall (fromCatalog rules content) (scanCatalog rules content).
Proof.
  unfold scanCatalog.
  apply foldl_preserves; [ | constructor ].
  intros l [fieldType patterns] Hin Hl. unfold detectField; cbn.
  apply foldl_preserves; [ | done ].
  intros l' pattern Hp Hl'. unfold detectPattern.
  apply foldl_preserves; [ | done ].
  intros l'' mt Hmt Hl''. apply detectMatch_provenance; [ | done ].
  by exists fieldType, patterns, pattern, mt.
Qed.

Lemma autoDetect_provenance content t :
  t ∈ autoDetectParserTargets content →
  fromCatalog Patterns.patternRules content t.
Proof.
  unfold autoDetectParserTargets. rewrite sortByStart_perm. intros Ht.
  pose proof (scanCatalog_provenance Patterns.patternRules content) as H.
  by eapply Forall_forall in H.
Qed.

(** The scan only appends: what a step finds in the registry stays. *)
Lemma detectMatch_grows content fieldType l mt :
  l `prefix_of` detectMatch content fieldType l mt.
Proof.
  rewrite detectMatch_candidate. case_match; [done | ]. by apply prefix_app_r.
Qed.

Lemma foldl_grows {A B} (f : list A → B → list A) (xs : list B) l :
  (∀ l x, l `prefix_of` f l x) → l `prefix_of` foldl f l xs.
Proof.
  intros Hf. revert l. induction xs as [|x xs IH]; cbn; intros l; [done | ].
  etrans; [ apply (Hf l x) | apply IH ].
Qed.

Lemma detectPattern_grows content fieldType l pattern :
  l `prefix_of` detectPattern content fieldType l pattern.
Proof. apply foldl_grows. intros. apply detectMatch_grows. Qed.

Lemma detectField_grows content l entry :
  l `prefix_of` detectField content l entry.
Proof. apply foldl_grows. intros. apply detectPattern_grows. Qed.

Lemma settled_prefix l l' t : l `prefix_of` l' → settled l t → settled l' t.
Proof.
  intros [k ->] [Ht | (u & Hu & Ho)]; [ left | right; exists u ];
    rewrite elem_of_app; auto.
Qed.

Lemma detectMatch_settles content fieldType l mt :
  settled (detectMatch content fieldType l mt) (candidate content fieldType mt).
Proof.
  rewrite detectMatch_candidate.
  destruct (overlapsAny l _) eqn:Ho.
  - right. unfold overlapsAny in Ho. apply existsb_exists in Ho as (u & Hu & Ho).
    exists u. by rewrite list_elem_of_In.
  - left. rewrite elem_of_app, list_elem_of_singleton. by right.
Qed.

Lemma foldl_settles {B} (f : list ParserTarget → B → list ParserTarget)
    (g : B → ParserTarget → Prop) (xs : list B) l x t :
  (∀ l x, l `prefix_of` f l x) →
  (∀ l, g x t → settled (f l x) t) →
  x ∈ xs → g x t → settled (foldl f l xs) t.
Proof.
  intros Hgrow Hf. revert l. induction xs as [|y xs IH]; cbn; intros l Hx Hg.
  - by apply elem_of_nil in Hx.
  - apply elem_of_cons in Hx as [<- | Hx]; [ | by apply IH ].
    eapply settled_prefix; [ by apply foldl_grows | by apply Hf ].
Qed.

Lemma scanCatalog_settles rules content fieldType patterns pattern mt :
  (fieldType, patterns) ∈ rules → pattern ∈ patterns →
  mt ∈ Regex.matchAll pattern content →
  settled (scanCatalog rules content) (candidate content fieldType mt).
Proof.
  intros Hr Hp Hmt. unfold scanCatalog.
  eapply (foldl_settles _
    (λ entry t, ∃ p mt, p ∈ entry.2 ∧ mt ∈ Regex.matchAll p content
                        ∧ t = candidate content entry.1 mt));
    [ intros; apply detectField_grows | | exact Hr | by exists pattern, mt ].
  intros l (p & mt' & Hp' & Hmt' & ->). unfold detectField; cbn in *.
  eapply (foldl_settles _
    (λ p t, ∃ mt, mt ∈ Regex.matchAll p content
                  ∧ t = candidate content fieldType mt));
    [ intros; apply detectPattern_grows | | exact Hp' | by exists mt' ].
  intros l' (mt'' & Hmt'' & ->). unfold detectPattern.
  eapply (foldl_settles _ (λ mt t, t = candidate content fieldType mt));
    [ intros; apply detectMatch_grows | | exact Hmt'' | done ].
  intros l'' _. apply detectMatch_settles.
Qed.

(** C9: the scorer never returns less than 0.5, so the acceptance test of
    the detector rejects nothing: a match that overlaps no accepted target is
    appended to the registry, and after the pass every match of a catalog
    pattern is in the registry or overlaps a target that is. *)
Theorem threshold_never_rejects :
  (∀ fieldType text position content,
     PrimFloat.leb 0.5 (calculateConfidence fieldType text position content)
     = true)
  ∧ (∀ content fieldType detectedTargets mt,
       overlapsAny detectedTargets (candidate content fieldType mt) = false →
       detectMatch content fieldType detectedTargets mt
       = detectedTargets ++ [candidate content fieldType mt])
  ∧ (∀ content fieldType patterns pattern mt,
       (fieldType, patterns) ∈ Patterns.patternRules → pattern ∈ patterns →
       mt ∈ Regex.matchAll pattern content →
       settled (autoDetectParserTargets content)
         (candidate content fieldType mt)).
Proof.
  split; [ apply calculateConfidence_threshold | split ].
  - intros content fieldType l mt Ho. by rewrite detectMatch_candidate, Ho.
  - intros content fieldType patterns pattern mt Hr Hp Hmt.
    destruct (scanCatalog_settles _ content _ _ _ _ Hr Hp Hmt)
      as [Ht | (u & Hu & Ho)]; [ left | right; exists u; split; [ | done ] ];
      unfold autoDetectParserTargets; by rewrite sortByStart_perm.
Qed.

(** ** Confidence of the targets of a registry *)

Lemma autoDetect_confidence content :
  Forall (λ t, In (confidence t) confidenceValues)
    (autoDetectParserTargets content).
Proof.
  apply Forall_forall. intros t Ht.
  destruct (autoDetect_provenance _ _ Ht) as (f & ps & p & mt & _ & _ & _ & ->).
  apply calculateConfidence_values.
Qed.

Lemma confidenceValues_leb_refl c :
  In c confidenceValues → PrimFloat.leb c c = true.
Proof.
  cbn [confidenceValues In]. intros H.
  repeat (destruct H as [<- | H]; [ reflexivity | ]). destruct H.
Qed.

Lemma remap_confidence newFieldType t :
  In (confidence t) confidenceValues →
  In (confidence (remap newFieldType t)) confidenceValues
  ∧ PrimFloat.leb (confidence t) (confidence (remap newFieldType t)) = true.
Proof.
  intros Ht. unfold remap; cbn. case_bool_decide.
  - by apply confidenceValues_nudge.
  - split; [done | by apply confidenceValues_leb_refl].
Qed.

Lemma registry_confidence l :
  registry l → Forall (λ t, In (confidence t) confidenceValues) l.
Proof.
  induction 1 as [ | rawContent l _ _ | l _ _ | index newFieldType l _ IH
                   | index charCount l _ IH ].
  - constructor.
  - apply autoDetect_confidence.
  - constructor.
  - unfold updateTargetMapping.
    destruct (l !! index) as [target|] eqn:Hi; [ | done ].
    apply Forall_insert; [done | ].
    apply remap_confidence. eapply Forall_lookup_1 in IH; [ exact IH | exact Hi ].
  - unfold updateTargetBoundsFromVisual.
    destruct (l !! index) as [target|] eqn:Hi; [ | done ].
    apply Forall_insert; [done | ]. cbn.
    eapply Forall_lookup_1 in IH; [ exact IH | exact Hi ].
Qed.

(** C4: the scorer returns a value between 0.5 and 1.0 on every input, and
    every target of every registry of a session (after scans, clears and
    reassignments, in any order) has its confidence between 0.5 and 1.0. *)
Theorem confidence_bounds :
  (∀ fieldType text position content,
     inBounds (calculateConfidence fieldType text position content) = true)
  ∧ (∀ l t, registry l → t ∈ l →
       PrimFloat.leb 0.5 (confidence t) = true
       ∧ PrimFloat.leb (confidence t) 1.0 = true).
Proof.
  split.
  - intros. apply confidenceValues_bounds, calculateConfidence_values.
  - intros l t Hl Ht. apply registry_confidence in Hl.
    eapply Forall_forall in Hl; [ | exact Ht ].
    apply confidenceValues_bounds in Hl. unfold inBounds in Hl.
    by apply andb_prop in Hl.
Qed.

(** C8: a reassignment changes the field type and the confidence of the
    target at the index and nothing else: text, offsets and context stay,
    the other targets stay, the confidence becomes [min(1.0, confidence +
    0.2)] for a field type other than ["unmapped"] and stays for
    ["unmapped"], and in a registry of a session it never decreases. *)
Theorem reassignment_frame l index newFieldType target :
  registry l → l !! index = Some target →
  ∃ target',
    updateTargetMapping index newFieldType l !! index = Some target'
    ∧ text target' = text target
    ∧ startPos target' = startPos target
    ∧ endPos target' = endPos target
    ∧ context target' = context target
    ∧ fieldType target' = Some newFieldType
    ∧ confidence target'
      = (if bool_decide (newFieldType ≠ "unmapped")
         then JS.Math_min 1.0 (confidence target + 0.2)%float
         else confidence target)
    ∧ PrimFloat.leb (confidence target) (confidence target') = true
    ∧ length (updateTargetMapping index newFieldType l) = length l
    ∧ ∀ j, j ≠ index →
        updateTargetMapping index newFieldType l !! j = l !! j.
Proof.
  intros Hl Hi. exists (remap newFieldType target).
  unfold updateTargetMapping. rewrite Hi.
  split; [ apply list_lookup_insert_eq; by eapply lookup_lt_Some | ].
  do 6 (split; [ reflexivity | ]).
  split; [ | split ].
  - apply remap_confidence. apply registry_confidence in Hl.
    eapply Forall_lookup_1 in Hl; [ exact Hl | exact Hi ].
  - apply length_insert.
  - intros j Hj. by apply list_lookup_insert_ne.
Qed.

(** A reassignment at an index that holds no target changes nothing. *)
Lemma updateTargetMapping_out_of_range l index newFieldType :
  l !! index = None → updateTargetMapping index newFieldType l = l.
Proof. intros H. unfold updateTargetMapping. by rewrite H. Qed.

(** ** [contains] *)

Lemma autoDetect_span content t :
  t ∈ autoDetectParserTargets content →
  endPos t = startPos t + length (text t).
Proof.
  intros Ht.
  by destruct (autoDetect_provenance _ _ Ht) as (f & ps & p & mt & _ & _ & _ & ->).
Qed.

(** C10: [contains] is inclusive at both ends: it holds exactly for the
    positions from [startPos] to [endPos], and in particular at [endPos]
    itself, for every target whose offsets are in order and so for every
    detected target. *)
Theorem contains_inclusive :
  (∀ t p, contains t p = true
          ↔ (Z.of_nat (startPos t) ≤ p ≤ Z.of_nat (endPos t))%Z)
  ∧ (∀ t, startPos t ≤ endPos t → contains t (Z.of_nat (endPos t)) = true)
  ∧ (∀ content t, t ∈ autoDetectParserTargets content →
       contains t (Z.of_nat (endPos t)) = true).
Proof.
  assert (∀ t p, contains t p = true
                 ↔ (Z.of_nat (startPos t) ≤ p ≤ Z.of_nat (endPos t))%Z) as Hc.
  { intros t p. unfold contains.
    rewrite andb_true_iff, !Z.leb_le. done. }
  split; [ exact Hc | split ].
  - intros t Ht. apply Hc. lia.
  - intros content t Ht. apply Hc. apply autoDetect_span in Ht. lia.
Qed.

(** ** Scenario 1 *)

(** The strict site-code test of the scorer holds for [SEA124], and with it
    the score is at least 0.5 + 0.3 + 0.1 wherever the match stands. *)
Lemma site_code_score position content :
  PrimFloat.leb (0.5 + 0.3 + 0.1)
    (calculateConfidence "building_code" (str "SEA124") position content)
  = true.
Proof.
  unfold calculateConfidence.
  assert (Regex.test Patterns.siteCode (str "SEA124") = true) as ->
    by (vm_compute; reflexivity).
  cbv zeta.
  generalize (JS.toLowerCase
    (JS.substring content (position - 100) position ++
     JS.substring content (position + length (str "SEA124"))
       (position + length (str "SEA124") + 100))).
  intros contextText.
  generalize (JS.includes contextText (str "site"))
    (JS.includes contextText (str "building"))
    (PrimFloat.ltb 0.2 (JS.number position / JS.number (length content))).
  intros [] [] []; vm_compute; reflexivity.
Qed.

(** C5, as the code has it: on the scenario-1 text [SEA124] is a match of
    the strict site-code pattern (the first building-code pattern), it is
    the target at offsets 27 to 33 with field type [building_code], the
    strict test of the scorer holds for it, so its score before the context
    and position bonuses is 0.5 + 0.3 + 0.1 = 0.9 (and 1.0 with the position
    bonus it gets here); the match of the generic pattern at the same place
    is discarded as overlapping. *)
Theorem scenario1_site_code :
  Regex.matchAll Patterns.siteCode scenario1 = [(27, 33)]
  ∧ Regex.test Patterns.siteCode (str "SEA124") = true
  ∧ summary <$> autoDetectParserTargets scenario1 !! 1
    = Some (str "SEA124", 27, 33, Some "building_code", 1%float)
  ∧ calculateConfidence "building_code" (str "SEA124") 0 (str "SEA124")
    = 0.9%float
  ∧ (0.5 + 0.3 + 0.1 = 0.9)%float
  ∧ (∀ position content,
       PrimFloat.leb 0.9
         (calculateConfidence "building_code" (str "SEA124") position content)
       = true)
  ∧ Regex.matchAll Patterns.genericSiteCode scenario1 = [(27, 33)]
  ∧ detectPattern scenario1 "building_code"
      (detectPattern scenario1 "building_code" [] Patterns.siteCode)
      Patterns.genericSiteCode
    = detectPattern scenario1 "building_code" [] Patterns.siteCode.
Proof.
  repeat split; try (vm_compute; reflexivity).
  apply site_code_score.
Qed.

(** The claimed score does not come out: the strict test holds for
    [SEA124], its score without context and position bonuses is not 0.6, and
    the target of the scenario has confidence 1.0, above the 0.8 that 0.6
    and both bonuses would give. *)
Lemma scenario1_not_generic_score :
  Regex.test Patterns.siteCode (str "SEA124") = true
  ∧ PrimFloat.eqb
      (calculateConfidence "building_code" (str "SEA124") 0 (str "SEA124"))
      0.6 = false
  ∧ confidence <$> autoDetectParserTargets scenario1 !! 1 = Some 1%float
  ∧ PrimFloat.ltb (0.6 + 0.1 + 0.1) 1 = true.
Proof. repeat split; vm_compute; reflexivity. Qed.

(** ** Matches of the catalog patterns *)

Lemma scan_matchAt r s n i lastIndex mt :
  mt ∈ Regex.scan r s n i lastIndex → Regex.matchAt r s mt.1 = Some mt.2.
Proof.
  revert i lastIndex.
  induction n as [|n IH]; cbn [Regex.scan]; intros i lastIndex Hmt.
  - by apply elem_of_nil in Hmt.
  - destruct (i <? lastIndex); [ by eapply IH | ].
    destruct (Regex.matchAt r s i) as [e|] eqn:He; [ | by eapply IH ].
    apply elem_of_cons in Hmt as [-> | Hmt]; [ done | by eapply IH ].
Qed.

Lemma matchAll_matchAt r s mt :
  mt ∈ Regex.matchAll r s → Regex.matchAt r s mt.1 = Some mt.2.
Proof. apply scan_matchAt. Qed.

Lemma backoff_greedy i lo n :
  Regex.backoff Some i lo n = if n <? lo then None else Some (i + n).
Proof. destruct n; cbn [Regex.backoff]; by case_match. Qed.

Lemma m_keywords ks s i k e :
  Regex.m (Patterns.keywords ks) s i k = Some e →
  ∃ kw, kw ∈ ks ∧ str kw `prefix_of` drop i s ∧ k (i + length (str kw)) = Some e.
Proof.
  induction ks as [|kw ks IH]; [ cbn; by destruct (s !! i) | ].
  destruct ks as [|kw' ks].
  - cbn. case_bool_decide; [ | done ]. intros Hk.
    exists kw. split; [ by left | done ].
  - change (Patterns.keywords (kw :: kw' :: ks))
      with (RAlt (RLit (str kw)) (Patterns.keywords (kw' :: ks))).
    cbn [Regex.m]. case_bool_decide as Hp.
    + destruct (k (i + length (str kw))) eqn:Hk.
      * intros [= <-]. exists kw. split; [ by left | done ].
      * intros H. destruct (IH H) as (kw0 & Hin & Hpre & Hk0).
        exists kw0. split; [ by right | done ].
    + intros H. destruct (IH H) as (kw0 & Hin & Hpre & Hk0).
      exists kw0. split; [ by right | done ].
Qed.

Lemma matchAt_phrase ks s i e :
  Regex.matchAt (Patterns.phrase ks) s i = Some e →
  ∃ kw, kw ∈ ks ∧ str kw `prefix_of` drop i s
        ∧ e = i + length (str kw)
              + Regex.spanLen Patterns.notTerminator (drop (i + length (str kw)) s).
Proof.
  unfold Regex.matchAt, Patterns.phrase. cbn [Regex.m].
  destruct (Regex.atWordBoundary s i); [ | done ].
  intros H. apply m_keywords in H as (kw & Hin & Hpre & Hk).
  exists kw. split; [done | split; [done | ] ].
  destruct (Regex.atWordBoundary s (i + length (str kw))); [ | done ].
  rewrite backoff_greedy in Hk. cbn in Hk. by injection Hk as <-.
Qed.

Lemma spanLen_le p s : Regex.spanLen p s ≤ length s.
Proof. induction s as [|c s IH]; cbn; [ lia | case_match; lia ]. Qed.

Lemma spanLen_app p a b :
  Forall (λ c, p c = true) a →
  Regex.spanLen p (a ++ b) = length a + Regex.spanLen p b.
Proof.
  induction 1 as [|c a Hc _ IH]; cbn; [done | ]. by rewrite Hc, IH.
Qed.

Lemma spanLen_inside p s x c :
  x < Regex.spanLen p s → s !! x = Some c → p c = true.
Proof.
  revert x. induction s as [|d s IH]; cbn; intros x Hx Hc; [ lia | ].
  destruct (p d) eqn:Hd; [ | lia ].
  destruct x as [|x]; cbn in Hc; [ by simplify_eq | ].
  eapply IH; [ | done ]. lia.
Qed.

Lemma spanLen_stop p s c :
  s !! Regex.spanLen p s = Some c → p c = false.
Proof.
  induction s as [|d s IH]; cbn; [done | ].
  destruct (p d) eqn:Hd; cbn; [ done | by intros [= <-] ].
Qed.

(** ** Trimming *)

Lemma trimStart_keep a c b :
  JS.isWhiteSpace c = false →
  ∃ a', JS.trimStart (a ++ c :: b) = a' ++ c :: b.
Proof.
  intros Hc. induction a as [|d a IH]; cbn.
  - exists []. by rewrite Hc.
  - destruct (JS.isWhiteSpace d); [ done | by exists (d :: a) ].
Qed.

Lemma trim_keeps_prefix kw rest c d :
  head kw = Some c → JS.isWhiteSpace c = false →
  last kw = Some d → JS.isWhiteSpace d = false →
  kw `prefix_of` JS.trim (kw ++ rest).
Proof.
  intros Hhead Hc Hlast Hd. unfold JS.trim, JS.trimEnd.
  assert (JS.trimStart (kw ++ rest) = kw ++ rest) as ->.
  { destruct kw as [|c' kw]; cbn in *; simplify_eq. by rewrite Hc. }
  apply last_Some in Hlast as [init ->].
  rewrite reverse_app, reverse_app. cbn.
  destruct (trimStart_keep (reverse rest) d (reverse init) Hd) as [a' ->].
  rewrite reverse_app, reverse_cons, reverse_involutive.
  by apply prefix_app_r.
Qed.

Lemma substring_ordered s a b :
  a ≤ b → b ≤ length s → JS.substring s a b = take (b - a) (drop a s).
Proof.
  intros Hab Hb. unfold JS.substring.
  by replace (a `min` length s) with a by lia;
     replace (b `min` length s) with b by lia;
     replace (a `max` b) with b by lia;
     replace (a `min` b) with a by lia.
Qed.

(** ** Job-name targets *)

Lemma sentenceEnd_spec content i :
  i ≤ length content →
  i ≤ sentenceEnd content i ≤ length content
  ∧ (∀ x c, i ≤ x < sentenceEnd content i → content !! x = Some c →
            Patterns.notTerminator c = true)
  ∧ (∀ c, content !! sentenceEnd content i = Some c →
          Patterns.notTerminator c = false).
Proof.
  intros Hi. unfold sentenceEnd.
  pose proof (spanLen_le Patterns.notTerminator (drop i content)) as Hle.
  rewrite length_drop in Hle.
  split; [ lia | split ].
  - intros x c Hx Hc.
    apply (spanLen_inside Patterns.notTerminator (drop i content) (x - i)); [ lia | ].
    rewrite lookup_drop. by replace (i + (x - i)) with x by lia.
  - intros c Hc. apply (spanLen_stop _ (drop i content)).
    by rewrite lookup_drop.
Qed.

Lemma phrase_candidate ks content mt :
  Forall (λ kw, solidKeyword kw = true) ks →
  Regex.matchAt (Patterns.phrase ks) content mt.1 = Some mt.2 →
  ∃ kw, kw ∈ ks
    ∧ str kw `prefix_of` drop mt.1 content
    ∧ mt.2 = sentenceEnd content mt.1
    ∧ str kw `prefix_of` JS.trim (JS.substring content mt.1 mt.2).
Proof.
  intros Hks Hm. destruct mt as [i e]; cbn [fst snd] in *.
  apply matchAt_phrase in Hm as (kw & Hin & Hpre & ->).
  exists kw. split; [done | split; [done | ] ].
  eapply Forall_forall in Hks; [ | exact Hin ].
  unfold solidKeyword in Hks. apply andb_prop in Hks as [Hterm Hends].
  destruct (head (str kw)) as [c|] eqn:Hhead; [ | done ].
  destruct (last (str kw)) as [d|] eqn:Hlast; [ | done ].
  apply andb_prop in Hends as [Hc Hd].
  apply negb_true_iff in Hc, Hd.
  assert (Forall (λ c, Patterns.notTerminator c = true) (str kw)) as Hall.
  { apply Forall_forall. intros x Hx.
    rewrite forallb_forall in Hterm. apply Hterm. by apply list_elem_of_In. }
  destruct Hpre as [rest Hrest].
  assert (drop (i + length (str kw)) content = rest) as Hdrop.
  { rewrite <- drop_drop, Hrest. by rewrite drop_app_length. }
  assert (i + length (str kw) + length rest = length content) as Hlen.
  { apply (f_equal length) in Hrest.
    rewrite length_drop, length_app in Hrest.
    assert (length (str kw) > 0) by (destruct (str kw); cbn in *; [done | lia]).
    lia. }
  rewrite Hdrop.
  pose proof (spanLen_le Patterns.notTerminator rest) as Hspan.
  split.
  - unfold sentenceEnd. rewrite Hrest, spanLen_app by done. lia.
  - rewrite substring_ordered by lia. rewrite Hrest.
    replace (i + length (str kw) + Regex.spanLen Patterns.notTerminator rest - i)
      with (length (str kw) + Regex.spanLen Patterns.notTerminator rest) by lia.
    rewrite take_app_add'; [ | done ].
    by eapply trim_keeps_prefix.
Qed.

Lemma jobNameStarts_solid : Forall (λ kw, solidKeyword kw = true) jobNameStarts.
Proof. repeat constructor. Qed.

(** C6, as the code has it: a target detected with field type [job_name]
    begins with one of the keywords of the two job-name patterns (Service
    Call, Alarm, Device Offline, Line Error, Alarm Active), the keyword
    stands at its start offset in the document, and its text is the trimmed
    run from there to the next sentence terminator or line break (the end of
    the document when there is none). *)
Theorem job_name_targets content t :
  t ∈ autoDetectParserTargets content → fieldType t = Some "job_name" →
  (∃ kw, kw ∈ jobNameStarts
         ∧ str kw `prefix_of` text t
         ∧ str kw `prefix_of` drop (startPos t) content)
  ∧ text t = JS.trim (JS.substring content (startPos t)
                        (sentenceEnd content (startPos t)))
  ∧ startPos t ≤ sentenceEnd content (startPos t) ≤ length content
  ∧ (∀ x c, startPos t ≤ x < sentenceEnd content (startPos t) →
            content !! x = Some c → Patterns.notTerminator c = true)
  ∧ (∀ c, content !! sentenceEnd content (startPos t) = Some c →
          Patterns.notTerminator c = false).
Proof.
  intros Ht Hf.
  destruct (autoDetect_provenance _ _ Ht)
    as (f & ps & p & mt & Hrule & Hp & Hmt & ->).
  cbn in Hf. injection Hf as ->.
  assert (ps = [Patterns.phrase Patterns.jobNameKeywords;
                Patterns.phrase Patterns.jobNameTroubleKeywords]) as ->.
  { unfold Patterns.patternRules in Hrule.
    repeat (apply elem_of_cons in Hrule as [Hrule | Hrule]; [ by simplify_eq | ]).
    by apply elem_of_nil in Hrule. }
  apply matchAll_matchAt in Hmt.
  assert (∃ ks, p = Patterns.phrase ks
                ∧ (∀ kw, kw ∈ ks → kw ∈ jobNameStarts)
                ∧ Forall (λ kw, solidKeyword kw = true) ks) as (ks & -> & Hsub & Hsolid).
  { apply elem_of_cons in Hp as [-> | Hp];
      [ | apply elem_of_cons in Hp as [-> | Hp];
          [ | by apply elem_of_nil in Hp ] ].
    - exists Patterns.jobNameKeywords.
      split; [done | split; [ | repeat constructor ] ].
      intros kw Hkw. unfold jobNameStarts. apply elem_of_app. by left.
    - exists Patterns.jobNameTroubleKeywords.
      split; [done | split; [ | repeat constructor ] ].
      intros kw Hkw. unfold jobNameStarts. apply elem_of_app. by right. }
  destruct (phrase_candidate _ _ _ Hsolid Hmt) as (kw & Hkw & Hdoc & He & Hpre).
  cbn [candidate text startPos]. rewrite He in *.
  split; [ exists kw; auto | split; [done | ] ].
  apply sentenceEnd_spec.
  destruct Hdoc as [rest Hrest]. apply (f_equal length) in Hrest.
  rewrite length_drop, length_app in Hrest.
  assert (length (str kw) > 0); [ | lia ].
  eapply Forall_forall in Hsolid; [ | exact Hkw ].
  unfold solidKeyword in Hsolid. destruct (str kw); [ | cbn; lia ].
  cbn in Hsolid. done.
Qed.

(** A document whose job-name target begins with neither Service Call nor
    Alarm. *)
Lemma job_name_other_keyword :
  ∃ t, autoDetectParserTargets (str "Device Offline at door 3.") !! 0 = Some t
       ∧ fieldType t = Some "job_name"
       ∧ text t = str "Device Offline at door 3"
       ∧ bool_decide (str "Service Call" `prefix_of` text t) = false
       ∧ bool_decide (str "Alarm" `prefix_of` text t) = false.
Proof.
  eexists. split; [ vm_compute; reflexivity | ].
  repeat split; vm_compute; reflexivity.
Qed.

(** ** The properties at concrete inputs *)

Lemma scenario1Registry_session : registry scenario1Registry.
Proof. apply registry_scan, registry_reset. Defined.

Lemma scenario1Registry_site_code : scenario1Registry !! 1 = Some siteCodeTarget.
Proof. vm_compute. reflexivity. Defined.

Lemma detection_non_overlap_witness :
  ∃ a b, autoDetectParserTargets scenario1 !! 0 = Some a
         ∧ autoDetectParserTargets scenario1 !! 1 = Some b
         ∧ overlaps a b = false
         ∧ (endPos a ≤ startPos b ∨ endPos b ≤ startPos a).
Proof.
  exists (candidate scenario1 "device_id" (18, 24)), siteCodeTarget.
  assert (autoDetectParserTargets scenario1 !! 0
          = Some (candidate scenario1 "device_id" (18, 24))) as H0
    by (vm_compute; reflexivity).
  assert (autoDetectParserTargets scenario1 !! 1 = Some siteCodeTarget) as H1
    by (vm_compute; reflexivity).
  split; [ exact H0 | split; [ exact H1 | ] ].
  apply (proj1 detection_non_overlap scenario1 0 1); [ lia | exact H0 | exact H1 ].
Defined.

Lemma threshold_never_rejects_witness :
  detectMatch scenario1 "building_code" [] (27, 33) = [] ++ [siteCodeTarget].
Proof.
  apply (proj1 (proj2 threshold_never_rejects) scenario1 "building_code" [] (27, 33)).
  reflexivity.
Defined.

Lemma confidence_bounds_witness :
  PrimFloat.leb 0.5 (confidence (remap "job_number" siteCodeTarget)) = true
  ∧ PrimFloat.leb (confidence (remap "job_number" siteCodeTarget)) 1.0 = true.
Proof.
  apply (proj2 confidence_bounds
           (updateTargetMapping 1 "job_number" scenario1Registry)).
  - apply registry_remap, scenario1Registry_session.
  - apply (list_elem_of_lookup_2 _ 1). vm_compute. reflexivity.
Defined.

Lemma reassignment_frame_witness :
  ∃ target',
    updateTargetMapping 1 "job_number" scenario1Registry !! 1 = Some target'
    ∧ text target' = text siteCodeTarget
    ∧ startPos target' = startPos siteCodeTarget
    ∧ endPos target' = endPos siteCodeTarget
    ∧ context target' = context siteCodeTarget
    ∧ fieldType target' = Some "job_number"
    ∧ confidence target'
      = (if bool_decide ("job_number" ≠ "unmapped")
         then JS.Math_min 1.0 (confidence siteCodeTarget + 0.2)%float
         else confidence siteCodeTarget)
    ∧ PrimFloat.leb (confidence siteCodeTarget) (confidence target') = true
    ∧ length (updateTargetMapping 1 "job_number" scenario1Registry)
      = length scenario1Registry
    ∧ ∀ j, j ≠ 1 →
        updateTargetMapping 1 "job_number" scenario1Registry !! j
        = scenario1Registry !! j.
Proof.
  exact (reassignment_frame scenario1Registry 1 "job_number" siteCodeTarget
           scenario1Registry_session scenario1Registry_site_code).
Defined.

Lemma contains_inclusive_witness :
  contains siteCodeTarget 33 = true.
Proof.
  apply (proj2 (proj2 contains_inclusive) scenario1 siteCodeTarget).
  apply (list_elem_of_lookup_2 _ 1). vm_compute. reflexivity.
Defined.

Lemma job_name_targets_witness :
  text (candidate offlineNote "job_name" (0, 24))
  = JS.trim (JS.substring offlineNote 0 (sentenceEnd offlineNote 0)).
Proof.
  refine (proj1 (proj2 (job_name_targets offlineNote
                          (candidate offlineNote "job_name" (0, 24)) _ _))).
  - apply (list_elem_of_lookup_2 _ 0). vm_compute. reflexivity.
  - reflexivity.
Defined.

(** ** Rule generation *)

Lemma ruleGenerators_unknown ruleType :
  ruleType ∉ knownStrategies → ruleGenerators !! ruleType = None.
Proof.
  unfold knownStrategies, ruleGenerators. intros H.
  rewrite !not_elem_of_cons in H. destruct H as (? & ? & ? & ? & _).
  rewrite !lookup_insert_ne by done. apply lookup_empty.
Qed.

(** C3, as the code has it: for a strategy name that is none of the four
    (and no name inherited from [Object.prototype]) no generator is found
    and [generateRule] returns without a rule and without a signal: the
    output and the selection stay as they are, no other strategy is used in
    its place, and the only alerts are the ones for a missing selection or
    rule name. *)
Theorem unknown_strategy_returns innerHTML ruleType ruleName st :
  ruleType ∉ knownStrategies → ruleType ∉ objectPrototypeKeys →
  ruleGenerators !! ruleType = None
  ∧ generateRule innerHTML ruleType ruleName st
    = Some (if bool_decide (selectedText st = []) then
              Alerted "Please select some text first to generate a rule."
            else if bool_decide (JS.trim ruleName = []) then
              Alerted "Please enter a rule name."
            else Returned, st)
  ∧ (selectedText st ≠ [] → JS.trim ruleName ≠ [] →
     generateRule innerHTML ruleType ruleName st = Some (Returned, st)).
Proof.
  intros Hknown Hproto.
  pose proof (ruleGenerators_unknown _ Hknown) as Hnone.
  split; [done | ].
  unfold generateRule. rewrite Hnone.
  rewrite (bool_decide_eq_false_2 _ Hproto).
  split.
  - by repeat case_bool_decide.
  - intros Hsel Hname.
    by rewrite (bool_decide_eq_false_2 _ Hsel), (bool_decide_eq_false_2 _ Hname).
Qed.

(** The strategy name [sql] raises nothing: the call returns silently. *)
Lemma sql_strategy_no_error :
  generateRule (λ assigned, assigned) "sql" (str "buildingCode") labelSession
  = Some (Returned, labelSession)
  ∧ signalsError Returned = false.
Proof. split; [ vm_compute; reflexivity | reflexivity ]. Qed.

Lemma unknown_strategy_returns_witness :
  generateRule (λ assigned, assigned) "sql" (str "buildingCode") labelSession
  = Some (Returned, labelSession).
Proof.
  apply (unknown_strategy_returns (λ assigned, assigned) "sql"
           (str "buildingCode") labelSession).
  - unfold knownStrategies. rewrite !not_elem_of_cons.
    repeat split; [ done.. | apply not_elem_of_nil ].
  - unfold objectPrototypeKeys. rewrite !not_elem_of_cons.
    repeat split; [ done.. | apply not_elem_of_nil ].
  - vm_compute. discriminate.
  - vm_compute. discriminate.
Defined.

(** ** The pattern strategy *)

Lemma isSyntaxChar_backslash c :
  Text.isSyntaxChar c = false → (c =? 92)%N = false.
Proof.
  intros H. destruct (c =? 92)%N eqn:Hc; [ | done ].
  apply N.eqb_eq in Hc as ->. by vm_compute in H.
Qed.

(** The class of the escaper is the class of the syntax characters of the
    grammar: every unit the grammar reads as syntax is escaped, and every
    escape the escaper writes is one the grammar reads as that unit. *)
Lemma escaped_class_is_syntax c :
  Text.isSyntaxChar c = Generated.isSyntaxCharacter c.
Proof.
  unfold Generated.isSyntaxCharacter.
  change (Text.isSyntaxChar c)
    with (existsb (N.eqb c) [46; 42; 43; 63; 94; 36; 123; 125; 40; 41; 124;
                             91; 93; 92]%N).
  cbn [existsb]. rewrite orb_false_r.
  repeat match goal with
         | |- context [(c =? ?k)%N] =>
             destruct (N.eqb_spec c k) as [-> | ?]; [ reflexivity | ]
         end.
  reflexivity.
Qed.

Lemma literalPattern_escapeRegex text :
  forallb plainUnit text = true →
  Generated.literalPattern (escapeRegex text) = Some text.
Proof.
  unfold escapeRegex.
  induction text as [|c text IH]; [done | ].
  cbn [forallb]. intros [Hc Ht]%andb_prop. specialize (IH Ht).
  rewrite bind_cons. unfold plainUnit in Hc. apply negb_true_iff in Hc.
  destruct (Text.isSyntaxChar c) eqn:Hs.
  - cbn [app Generated.literalPattern].
    rewrite N.eqb_refl, <- escaped_class_is_syntax, Hs, IH. done.
  - cbn [app Generated.literalPattern].
    apply orb_false_iff in Hc as [Hlt Hslash].
    rewrite (isSyntaxChar_backslash _ Hs), <- escaped_class_is_syntax, Hs, Hlt,
      Hslash.
    cbn [orb]. by rewrite IH.
Qed.

Lemma includes_drop s text i :
  JS.includes (drop i s) text = true →
  text `prefix_of` drop i s ∨ (i < length s ∧ JS.includes (drop (S i) s) text = true).
Proof.
  destruct (drop i s) as [|c rest] eqn:Hd.
  - cbn. rewrite orb_false_r. intros H%bool_decide_eq_true. by left.
  - cbn [JS.includes]. intros [H%bool_decide_eq_true | H]%orb_prop; [ by left | ].
    right. split.
    + destruct (decide (i < length s)); [ done | ].
      rewrite drop_ge in Hd by lia. done.
    + replace (drop (S i) s) with rest; [ done | ].
      by rewrite <- Nat.add_1_r, <- drop_drop, Hd.
Qed.

Lemma searchFrom_literal text s n i :
  JS.includes (drop i s) text = true → length s - i < n →
  ∃ j, Regex.searchFrom (RLit text) s n i = Some (j, j + length text)
       ∧ i ≤ j ∧ text `prefix_of` drop j s
       ∧ (∀ x, i ≤ x < j → ¬ text `prefix_of` drop x s).
Proof.
  revert i. induction n as [|n IH]; intros i Hinc Hn; [ lia | ].
  cbn [Regex.searchFrom]. unfold Regex.matchAt. cbn [Regex.m].
  case_bool_decide as Hp.
  - exists i. repeat split; [ lia | done | intros; lia ].
  - apply includes_drop in Hinc as [Hinc | [Hi Hinc] ]; [ done | ].
    destruct (IH (S i) Hinc) as (j & Hs & Hij & Hpre & Hfirst); [ lia | ].
    exists j. repeat split; [ done | lia | done | ].
    intros x Hx. destruct (decide (x = i)) as [-> | ]; [ done | ].
    apply Hfirst. lia.
Qed.

Lemma substring_prefix s j text :
  text `prefix_of` drop j s → JS.substring s j (j + length text) = text.
Proof.
  intros [rest Hrest].
  destruct (decide (j ≤ length s)) as [Hj | Hj].
  - assert (j + length text ≤ length s).
    { apply (f_equal length) in Hrest.
      rewrite length_drop, length_app in Hrest. lia. }
    rewrite substring_ordered by lia.
    replace (j + length text - j) with (length text) by lia.
    by rewrite Hrest, take_app_length.
  - rewrite drop_ge in Hrest by lia. destruct text; [ | done ].
    unfold JS.substring. cbn [length].
    by rewrite Nat.add_0_r, Nat.max_id, Nat.min_id, Nat.sub_diag.
Qed.

Lemma pattern_round_trip name text content :
  Generated.header name = true →
  forallb plainUnit text = true → JS.includes content text = true →
  Generated.extractRegex name (escapeRegex text) content = Some text.
Proof.
  intros Hname Hplain Hinc. unfold Generated.extractRegex. rewrite Hname.
  rewrite literalPattern_escapeRegex by done. cbn [mbind option_bind].
  unfold Regex.search.
  destruct (searchFrom_literal text content (S (length content)) 0)
    as (j & -> & _ & Hpre & _); [ done | lia | ].
  by rewrite substring_prefix.
Qed.

(** ** The coordinate strategy *)

Lemma trimStart_suffix s : JS.trimStart s `suffix_of` s.
Proof.
  induction s as [|c s IH]; cbn; [done | ].
  destruct (JS.isWhiteSpace c); [ by apply suffix_cons_r | done ].
Qed.

Lemma trimStart_idem s : JS.trimStart (JS.trimStart s) = JS.trimStart s.
Proof.
  induction s as [|c s IH]; cbn; [done | ].
  destruct (JS.isWhiteSpace c) eqn:Hc; [ done | cbn; by rewrite Hc ].
Qed.

Lemma trimEnd_prefix s : JS.trimEnd s `prefix_of` s.
Proof.
  unfold JS.trimEnd.
  destruct (trimStart_suffix (reverse s)) as [k Hk].
  exists (reverse k).
  by rewrite <- reverse_app, <- Hk, reverse_involutive.
Qed.

Lemma trimEnd_idem s : JS.trimEnd (JS.trimEnd s) = JS.trimEnd s.
Proof. unfold JS.trimEnd. by rewrite reverse_involutive, trimStart_idem. Qed.

Lemma trimStart_prefix_fixed s p :
  JS.trimStart s = s → p `prefix_of` s → p ≠ [] → JS.trimStart p = p.
Proof.
  intros Hs [k ->] Hp. destruct p as [|c p]; [done | ].
  cbn in *. destruct (JS.isWhiteSpace c); [ | done ].
  pose proof (trimStart_suffix (p ++ k)) as Hsuf. rewrite Hs in Hsuf.
  apply suffix_length in Hsuf. cbn in Hsuf. lia.
Qed.

Lemma coordinate_round_trip name selection textContent selectionStart st :
  Generated.header name = true →
  JS.substring textContent selectionStart (selectionStart + length selection)
  = selection →
  JS.trimStart selection = selection → JS.trim selection ≠ [] →
  ∃ coords,
    selectionCoords (handleTextSelection selection textContent selectionStart st)
    = Some coords
    ∧ start coords = selectionStart
    ∧ end_ coords = selectionStart + length (JS.trim selection)
    ∧ Generated.extractCoordinates name (start coords) (end_ coords) textContent
      = Some (selectedText
                (handleTextSelection selection textContent selectionStart st)).
Proof.
  intros Hname Hsub Hstart Hne. unfold handleTextSelection.
  destruct (JS.trim selection) as [|c sel] eqn:Htrim; [ done | ].
  rewrite <- Htrim. cbn [selectionCoords selectedText].
  eexists. split; [ reflexivity | ].
  cbn [getSelectionCoordinates start end_].
  split; [ done | split; [ done | ] ].
  unfold Generated.extractCoordinates. rewrite Hname. f_equal.
  assert (JS.trim selection = JS.trimEnd selection) as Ht
    by (unfold JS.trim; by rewrite Hstart).
  pose proof (trimEnd_prefix selection) as Hpre. rewrite <- Ht in Hpre.
  assert (selectionStart + length selection ≤ length textContent) as Hlen.
  { apply (f_equal length) in Hsub. unfold JS.substring in Hsub.
    rewrite length_take, length_drop in Hsub.
    assert (length selection > 0); [ | lia ].
    destruct selection; [ by vm_compute in Htrim | cbn; lia ]. }
  assert (JS.substring textContent selectionStart
            (selectionStart + length (JS.trim selection)) = JS.trim selection)
    as ->.
  { apply substring_prefix.
    rewrite substring_ordered in Hsub by lia.
    replace (selectionStart + length selection - selectionStart)
      with (length selection) in Hsub by lia.
    destruct Hpre as [k Hk].
    exists (k ++ drop (length selection) (drop selectionStart textContent)).
    rewrite <- (take_drop (length selection) (drop selectionStart textContent)) at 1.
    rewrite Hsub. rewrite Hk at 1. by rewrite <- app_assoc. }
  assert (JS.trimStart (JS.trim selection) = JS.trim selection) as Hfix.
  { apply (trimStart_prefix_fixed selection); [ done | done | by rewrite Htrim ]. }
  unfold JS.trim at 1. rewrite Hfix, Ht. apply trimEnd_idem.
Qed.

(** ** The structural and the anchored strategy *)

Lemma includes_indexOf s text :
  JS.includes s text = true →
  ∃ i, JS.indexOf s text = Some i ∧ text `prefix_of` drop i s.
Proof.
  induction s as [|c s IH]; cbn [JS.includes JS.indexOf].
  - rewrite orb_false_r. intros H. rewrite H.
    exists 0. split; [ done | by apply bool_decide_eq_true in H ].
  - case_bool_decide as Hp; cbn [orb].
    + intros _. by exists 0.
    + intros H. destruct (IH H) as (i & -> & Hi). by exists (S i).
Qed.

Lemma prefix_includes s text : text `prefix_of` s → JS.includes s text = true.
Proof.
  intros H. destruct s; cbn [JS.includes]; by rewrite bool_decide_eq_true_2.
Qed.

Lemma splitAux_skip sep s k :
  k ≤ length s → Text.splitAux sep s k = Text.splitAux sep (drop k s) 0.
Proof.
  revert k. induction s as [|c s IH]; intros k Hk.
  - by destruct k; [ | cbn in Hk; lia ].
  - destruct k as [|k]; [ done | ]. cbn in *. apply IH. lia.
Qed.

Lemma splitAux_head sep s :
  ∃ p ps, Text.splitAux sep s 0 = p :: ps ∧ p `prefix_of` s.
Proof.
  induction s as [|c s (p & ps & IH & Hp)]; cbn [Text.splitAux].
  - by exists [], [].
  - case_bool_decide.
    + eexists [], _. split; [ done | apply prefix_nil ].
    + rewrite IH. exists (c :: p), ps. split; [ done | by apply prefix_cons ].
Qed.

Lemma splitAux_first sep s i :
  sep ≠ [] → JS.indexOf s sep = Some i →
  Text.splitAux sep s 0
  = take i s :: Text.splitAux sep (drop (i + length sep) s) 0.
Proof.
  intros Hsep. revert i.
  induction s as [|c s IH]; intros i; cbn [JS.indexOf Text.splitAux].
  - case_bool_decide as Hp; [ | done ].
    apply prefix_nil_inv in Hp. done.
  - case_bool_decide as Hp.
    + intros [= <-]. cbn [take]. f_equal.
      rewrite splitAux_skip.
      * destruct sep as [|d sep]; [ done | ]. cbn.
        by rewrite Nat.sub_0_r.
      * apply prefix_length in Hp. cbn in Hp. lia.
    + destruct (JS.indexOf s sep) as [j|] eqn:Hj; [ | done ].
      intros [= <-]. by rewrite (IH j).
Qed.

Lemma stringLiteral_plain spliced text :
  Generated.stringLiteral spliced = Some text →
  text = spliced ∧ Forall (λ c, Text.isCRLF c = false) text
  ∧ Generated.lineComment text = true.
Proof.
  unfold Generated.stringLiteral.
  destruct (forallb _ spliced) eqn:H; [ | done ].
  intros [= <-]. rewrite forallb_forall in H.
  assert (∀ c, c ∈ spliced → Text.isLineTerminator c = false) as Hlt.
  { intros c Hc. apply list_elem_of_In, H in Hc.
    apply negb_true_iff in Hc. by apply orb_false_iff in Hc as [_ Hc]. }
  split; [ done | split ].
  - apply Forall_forall. intros c Hc. apply Hlt in Hc.
    unfold Text.isLineTerminator in Hc. unfold Text.isCRLF.
    apply orb_false_iff in Hc as [[[H10 H13]%orb_false_iff _]%orb_false_iff _].
    by rewrite H10, H13.
  - unfold Generated.lineComment. apply forallb_forall.
    intros c Hc. apply list_elem_of_In, Hlt in Hc. by rewrite Hc.
Qed.

Lemma splitAux_whole sep s :
  JS.indexOf s sep = None → Text.splitAux sep s 0 = [s].
Proof.
  induction s as [|c s IH]; cbn [JS.indexOf Text.splitAux]; [ done | ].
  case_bool_decide; [ done | ].
  destruct (JS.indexOf s sep); [ done | ]. intros _. by rewrite IH.
Qed.

(** The piece after the first occurrence of the separator: it runs to the
    next occurrence, or to the end when there is none. *)
Lemma split_second s sep i :
  sep ≠ [] → JS.indexOf s sep = Some i →
  Text.split s sep !! 1
  = Some match JS.indexOf (drop (i + length sep) s) sep with
         | Some k => take k (drop (i + length sep) s)
         | None => drop (i + length sep) s
         end.
Proof.
  intros Hsep Hi. unfold Text.split.
  assert (match sep with
          | [] => (λ c, [c]) <$> s
          | _ :: _ => Text.splitAux sep s 0
          end = Text.splitAux sep s 0) as -> by (by destruct sep).
  rewrite (splitAux_first _ _ i) by done.
  destruct (JS.indexOf (drop (i + length sep) s) sep) as [k|] eqn:Hk.
  - by rewrite (splitAux_first _ (drop (i + length sep) s) k).
  - by rewrite splitAux_whole.
Qed.

Lemma structural_search name text content :
  Generated.header name = true →
  text ≠ [] → Generated.stringLiteral text = Some text →
  JS.includes content text = true →
  ∃ i,
    JS.indexOf content text = Some i
    ∧ let rest := drop (i + length text) content in
      let part := match JS.indexOf rest text with
                  | Some k => take k rest
                  | None => rest
                  end in
      Text.split content text !! 1 = Some part
      ∧ Generated.extractCSS name text content
        = Some match part with
               | [] => text
               | _ => JS.trim (default [] (head (JS.splitOn Text.isCRLF part)))
               end.
Proof.
  intros Hname Hne Hlit Hinc.
  destruct (includes_indexOf _ _ Hinc) as (i & Hi & _).
  exists i. split; [ done | ]. cbv zeta.
  pose proof (split_second content text i Hne Hi) as Hsecond.
  split; [ done | ].
  unfold Generated.extractCSS. rewrite Hname, Hlit. cbn [mbind option_bind].
  rewrite Hinc, Hsecond.
  by destruct (match JS.indexOf (drop (i + length text) content) text with
               | Some k => take k (drop (i + length text) content)
               | None => drop (i + length text) content
               end).
Qed.

Lemma splitOn_line sep s text :
  Forall (λ c, sep c = false) text → text `prefix_of` s →
  ∃ p ps, JS.splitOn sep s = p :: ps ∧ text `prefix_of` p.
Proof.
  intros Htext. revert s.
  induction Htext as [|c text Hc _ IH]; intros s Hpre.
  - destruct s as [|d s]; cbn [JS.splitOn].
    + eexists _, _. split; [ done | apply prefix_nil ].
    + destruct (sep d); [ eexists _, _; split; [ done | apply prefix_nil ] | ].
      destruct (JS.splitOn sep s); eexists _, _; (split; [ done | apply prefix_nil ]).
  - destruct Hpre as [k ->]. cbn [app JS.splitOn]. rewrite Hc.
    destruct (IH (text ++ k)) as (p & ps & -> & Hp); [ by apply prefix_app_r | ].
    exists (c :: p), ps. split; [ done | by apply prefix_cons ].
Qed.

Lemma splitOn_finds sep s text :
  Forall (λ c, sep c = false) text → JS.includes s text = true →
  ∃ l, l ∈ JS.splitOn sep s ∧ JS.includes l text = true.
Proof.
  intros Htext. induction s as [|c s IH].
  - intros H. exists []. split; [ by left | done ].
  - cbn [JS.includes]. case_bool_decide as Hp; cbn [orb].
    + intros _. destruct (splitOn_line sep (c :: s) text Htext Hp)
        as (p & ps & Hsplit & Hpre).
      exists p. split; [ rewrite Hsplit; by left | by apply prefix_includes ].
    + intros Hinc. destruct (IH Hinc) as (l & Hl & Hlt).
      cbn [JS.splitOn]. destruct (sep c).
      * exists l. split; [ by right | done ].
      * destruct (JS.splitOn sep s) as [|p ps]; [ by apply elem_of_nil in Hl | ].
        apply elem_of_cons in Hl as [-> | Hl].
        -- exists (c :: p). split; [ by left | ].
           cbn [JS.includes]. by rewrite Hlt, orb_true_r.
        -- exists l. split; [ by right | done ].
Qed.

Lemma anchored_search name text content :
  Generated.header name = true →
  text ≠ [] → Generated.stringLiteral text = Some text →
  JS.includes content text = true →
  ∃ line,
    find (λ l, JS.includes l text) (JS.splitOn Text.isCRLF content) = Some line
    ∧ JS.includes line text = true
    ∧ Generated.extractXPath name text content
      = Some (JS.trim (Text.replace line text [])).
Proof.
  intros Hname Hne Hlit Hinc.
  destruct (stringLiteral_plain _ _ Hlit) as (_ & Hplain & Hcomment).
  destruct (splitOn_finds Text.isCRLF content text Hplain Hinc) as (l & Hl & Hlt).
  destruct (find (λ l, JS.includes l text) (JS.splitOn Text.isCRLF content))
    as [line|] eqn:Hfind.
  - exists line. apply find_some in Hfind as Hline. destruct Hline as [_ Hline].
    split; [ done | split; [ done | ] ].
    unfold Generated.extractXPath. rewrite Hname, Hcomment, Hlit.
    cbn [andb mbind option_bind].
    rewrite Hfind. destruct line as [|c line]; [ | done ].
    destruct text; [ done | by vm_compute in Hline ].
  - apply list_elem_of_In in Hl.
    pose proof (find_none _ _ Hfind l Hl) as Hno. cbn in Hno. congruence.
Qed.

(** ** Round trips of the four strategies *)

(** C1, as the code has it: for a rule name that gives the name of a
    function and a selection that occurs in the document, the procedure of
    the pattern strategy returns the selection (when it holds no slash and
    no line terminator, which would end the regular expression literal) and
    the procedure of the position strategy returns it when the document
    holds the selection at the caret and the selection starts with no
    blank.  The procedures of the structural and the anchored strategy, for
    a selection without quote, backslash and line terminator, find the
    selection but return what stands next to it: the structural one the
    first line, trimmed, of the text between the first occurrence of the
    selection and its next occurrence (the end of the document when there
    is none), or the selection itself when that text is empty; the anchored
    one the first line that contains the selection, with its first
    occurrence removed, trimmed. *)
Theorem strategy_self_tests :
  (∀ name text content,
     Generated.header name = true →
     text ≠ [] → forallb plainUnit text = true →
     JS.includes content text = true →
     Generated.extractRegex name (escapeRegex text) content = Some text)
  ∧ (∀ name selection textContent selectionStart st,
       Generated.header name = true →
       JS.substring textContent selectionStart
         (selectionStart + length selection) = selection →
       JS.trimStart selection = selection → JS.trim selection ≠ [] →
       ∃ coords,
         selectionCoords
           (handleTextSelection selection textContent selectionStart st)
         = Some coords
         ∧ start coords = selectionStart
         ∧ end_ coords = selectionStart + length (JS.trim selection)
         ∧ Generated.extractCoordinates name (start coords) (end_ coords)
             textContent
           = Some (selectedText
                     (handleTextSelection selection textContent selectionStart
                        st)))
  ∧ (∀ name text content,
       Generated.header name = true →
       text ≠ [] → Generated.stringLiteral text = Some text →
       JS.includes content text = true →
       ∃ i,
         JS.indexOf content text = Some i
         ∧ let rest := drop (i + length text) content in
           let part := match JS.indexOf rest text with
                       | Some k => take k rest
                       | None => rest
                       end in
           Text.split content text !! 1 = Some part
           ∧ Generated.extractCSS name text content
             = Some match part with
                    | [] => text
                    | _ => JS.trim (default []
                                      (head (JS.splitOn Text.isCRLF part)))
                    end)
  ∧ (∀ name text content,
       Generated.header name = true →
       text ≠ [] → Generated.stringLiteral text = Some text →
       JS.includes content text = true →
       ∃ line,
         find (λ l, JS.includes l text) (JS.splitOn Text.isCRLF content)
         = Some line
         ∧ JS.includes line text = true
         ∧ Generated.extractXPath name text content
           = Some (JS.trim (Text.replace line text []))).
Proof.
  split; [ | split; [ | split ] ].
  - intros name text content Hname _. by apply pattern_round_trip.
  - apply coordinate_round_trip.
  - apply structural_search.
  - apply anchored_search.
Qed.

(** A selection the structural and the anchored procedure do not return:
    for the label of a labelled line both return the value after it. *)
Lemma label_not_returned :
  JS.includes labelLine (str "Label:") = true
  ∧ Generated.extractCSS (str "label") (str "Label:") labelLine
    = Some (str "value")
  ∧ Generated.extractXPath (str "label") (str "Label:") labelLine
    = Some (str "value")
  ∧ bool_decide (str "value" = str "Label:") = false
  ∧ bool_decide (str "value" = []) = false.
Proof. repeat split; vm_compute; reflexivity. Qed.

(** A selection that occurs twice on a line: the structural procedure
    returns the text between the two occurrences, not the rest of the
    line. *)
Lemma repeated_selection :
  Generated.extractCSS (str "label") (str "a:") (str "a: x a: y")
  = Some (str "x")
  ∧ Generated.extractXPath (str "label") (str "a:") (str "a: x a: y")
    = Some (str "x a: y").
Proof. split; vm_compute; reflexivity. Qed.

(** Rule texts that are no programs: a rule name with a blank gives no
    name of a function, and a line separator in the selection ends the
    comment the anchored rule starts with. *)
Lemma spliced_text_breaks_rule :
  Generated.extractRegex (str "site code") (escapeRegex (str "SEA124"))
    scenario1 = None
  ∧ Generated.extractXPath (str "site") [83; 8232; 69]%N
      [83; 8232; 69]%N = None.
Proof. split; vm_compute; reflexivity. Qed.

(** A selection that starts with a blank: the selected text is trimmed, the
    coordinates are not, and the position procedure returns a shifted
    text. *)
Lemma leading_blank_shifts_coordinates :
  selectedText (handleTextSelection (str " SEA124") scenario1 26 labelSession)
  = str "SEA124"
  ∧ (λ c, (start c, end_ c))
      <$> selectionCoords
            (handleTextSelection (str " SEA124") scenario1 26 labelSession)
    = Some (26, 32)
  ∧ JS.substring scenario1 26 33 = str " SEA124"
  ∧ Generated.extractCoordinates (str "site") 26 32 scenario1
    = Some (str "SEA12").
Proof. repeat split; vm_compute; reflexivity. Qed.

(** Scenario 2: the pattern rule for [SEA124] finds it in the scenario-1
    text. *)
Lemma strategy_self_tests_witness :
  Generated.extractRegex (str "siteCode") (escapeRegex (str "SEA124"))
    scenario1
  = Some (str "SEA124").
Proof.
  apply (proj1 strategy_self_tests (str "siteCode") (str "SEA124") scenario1).
  - vm_compute. reflexivity.
  - discriminate.
  - vm_compute. reflexivity.
  - vm_compute. reflexivity.
Defined.

(** ** The normalizer *)

Lemma isKept_dropped c : isKept c = true ↔ ¬ dropped c.
Proof.
  unfold isKept, dropped, Normalizer.isStripped.
  rewrite andb_true_iff, !negb_true_iff, !orb_false_iff, !andb_false_iff.
  rewrite !N.eqb_neq, !N.leb_gt. lia.
Qed.

Lemma stripControls_filter s :
  Normalizer.stripControls s = filter (λ c, isKept c = true) s.
Proof.
  unfold Normalizer.stripControls. rewrite list_filter_filter.
  apply list_filter_iff. intros c. unfold isKept.
  rewrite andb_true_iff, !negb_true_iff, N.eqb_neq. tauto.
Qed.

Lemma stripControls_kept s : Forall (λ c, isKept c = true) (Normalizer.stripControls s).
Proof.
  rewrite stripControls_filter. apply Forall_forall.
  intros c Hc. by apply list_elem_of_filter in Hc as [Hc _].
Qed.

Lemma firstValid_spec decode encodings buffer :
  match Normalizer.firstValid decode encodings buffer with
  | Some text =>
      ∃ before encoding later decoded,
        encodings = before ++ encoding :: later
        ∧ Forall (passedOver decode buffer) before
        ∧ decode encoding buffer = Some decoded
        ∧ Normalizer.looksValid decoded = true
        ∧ text = Normalizer.stripControls decoded
  | None => Forall (passedOver decode buffer) encodings
  end.
Proof.
  induction encodings as [|encoding rest IH]; cbn [Normalizer.firstValid].
  - constructor.
  - assert (∀ P : Prop, P → P) as Hid by done.
    destruct (decode encoding buffer) as [decoded|] eqn:Hd.
    + destruct (Normalizer.looksValid decoded) eqn:Hv.
      * exists [], encoding, rest, decoded. by repeat split.
      * destruct (Normalizer.firstValid decode rest buffer) as [text|].
        -- destruct IH as (before & enc & later & dec & -> & Hb & He & Hl & ->).
           exists (encoding :: before), enc, later, dec.
           repeat split; [ | done.. ].
           constructor; [ | done ]. intros d Hd'. congruence.
        -- constructor; [ | done ]. intros d Hd'. congruence.
    + destruct (Normalizer.firstValid decode rest buffer) as [text|].
      * destruct IH as (before & enc & later & dec & -> & Hb & He & Hl & ->).
        exists (encoding :: before), enc, later, dec.
        repeat split; [ | done.. ].
        constructor; [ | done ]. intros d Hd'. congruence.
      * constructor; [ | done ]. intros d Hd'. congruence.
Qed.

(** The rows of the dump. *)
Lemma hexLines_lookup view rows offset i :
  i < rows →
  Normalizer.hexLines view rows offset !! i
  = Some (Normalizer.hexLine (offset + 16 * i)
            (take 16 (drop (offset + 16 * i) view))).
Proof.
  revert offset i. induction rows as [|rows IH]; intros offset i Hi; [ lia | ].
  cbn [Normalizer.hexLines]. destruct i as [|i].
  - cbn. by rewrite Nat.add_0_r.
  - cbn [lookup list_lookup]. rewrite IH by lia.
    by replace (offset + 16 + 16 * i) with (offset + 16 * S i) by lia.
Qed.

Lemma hexLines_length view rows offset :
  length (Normalizer.hexLines view rows offset) = rows.
Proof.
  revert offset. induction rows as [|rows IH]; intros offset; cbn; [ done | ].
  by rewrite IH.
Qed.

(** The dump holds no character the normalizer strips, the file name
    apart. *)
Lemma kept_bool l : forallb isKept l = true → Forall (λ c, isKept c = true) l.
Proof.
  rewrite forallb_forall. intros H. apply Forall_forall.
  intros c Hc. by apply H, list_elem_of_In.
Qed.

Lemma decimal_kept n : Forall (λ c, isKept c = true) (Text.decimal n).
Proof.
  unfold Text.decimal. generalize (Nat.to_uint n). intros d.
  assert (Forall (λ c, isKept c = true)
            (str (DecimalString.NilEmpty.string_of_uint d))) as H.
  { induction d; cbn; constructor; done. }
  destruct d; first [ exact H | by apply kept_bool ].
Qed.

Lemma hex_kept width n : Forall (λ c, isKept c = true) (Normalizer.hex width n).
Proof.
  unfold Normalizer.hex. cbv zeta. generalize (Nat.to_hex_uint n). intros d.
  apply Forall_app. split; [ by apply Forall_replicate | ].
  assert (Forall (λ c, isKept c = true)
            (str (HexadecimalString.NilEmpty.string_of_uint d))) as H.
  { induction d; cbn; constructor; done. }
  destruct d; first [ exact H | by apply kept_bool ].
Qed.

Lemma joinWith_kept sep pieces :
  Forall (λ c, isKept c = true) sep →
  Forall (Forall (λ c, isKept c = true)) pieces →
  Forall (λ c, isKept c = true) (joinWith sep pieces).
Proof.
  intros Hsep Hp. destruct Hp as [|p ps Hp Hps]; cbn; [ constructor | ].
  apply Forall_app. split; [ done | ].
  induction Hps as [|q qs Hq _ IH]; cbn; [ constructor | ].
  rewrite !Forall_app. done.
Qed.

Lemma hexLine_kept offset chunk :
  Forall (λ c, isKept c = true) (Normalizer.hexLine offset chunk).
Proof.
  unfold Normalizer.hexLine. cbv zeta.
  rewrite !Forall_app. repeat split.
  - apply hex_kept.
  - by apply kept_bool.
  - apply joinWith_kept; [ by apply kept_bool | ].
    apply Forall_app. split.
    + apply Forall_fmap, Forall_forall. intros b _. apply hex_kept.
    + apply Forall_replicate. by apply kept_bool.
  - by apply kept_bool.
  - apply Forall_fmap, Forall_forall. intros b _. cbn.
    destruct ((32 <=? b)%N && (b <=? 126)%N) eqn:Hb; [ | done ].
    apply isKept_dropped. unfold dropped.
    apply andb_prop in Hb as [H1%N.leb_le H2%N.leb_le]. lia.
  - by apply Forall_replicate.
  - by apply kept_bool.
Qed.

Lemma hexLines_kept view rows offset :
  Forall (Forall (λ c, isKept c = true)) (Normalizer.hexLines view rows offset).
Proof.
  revert offset. induction rows as [|rows IH]; intros offset; cbn; constructor.
  - apply hexLine_kept.
  - apply IH.
Qed.

Lemma hexDump_kept view filename :
  Forall (λ c, isKept c = true) filename →
  Forall (λ c, isKept c = true) (Normalizer.hexDump view filename).
Proof.
  intros Hf. unfold Normalizer.hexDump.
  rewrite !Forall_app.
  repeat split; try done; try (by apply kept_bool); try apply decimal_kept.
  apply joinWith_kept; [ by apply kept_bool | apply hexLines_kept ].
Qed.

(** C7, as the code has it: for a byte buffer the encodings utf-8,
    iso-8859-1, windows-1252, utf-16le and utf-16be are tried in that order
    and the first decoded text that passes the validity test is returned
    with NUL and the control characters other than tab, newline and carriage
    return removed; the test compares with 0.3 the share of code units
    outside 0x00-0x1F and 0x7F, so newline and tab do not count as printable
    and code units above 0x7F do.  When no decoded text passes, the result
    is the dump with sixteen bytes per row.  In every case the result holds
    none of the stripped characters unless the file name does. *)
Theorem normalizer_selection decode encode buffer filename :
  Normalizer.encodings
  = ["utf-8"; "iso-8859-1"; "windows-1252"; "utf-16le"; "utf-16be"]
  ∧ ((∃ before encoding later decoded,
        Normalizer.encodings = before ++ encoding :: later
        ∧ Forall (passedOver decode buffer) before
        ∧ decode encoding buffer = Some decoded
        ∧ Normalizer.looksValid decoded = true
        ∧ Normalizer.convertContentToDisplayableText decode encode
            (BufferContent buffer) filename
          = Normalizer.stripControls decoded)
     ∨ (Forall (passedOver decode buffer) Normalizer.encodings
        ∧ Normalizer.convertContentToDisplayableText decode encode
            (BufferContent buffer) filename
          = Normalizer.hexDump (Byte.to_N <$> buffer) filename))
  ∧ (∀ decoded,
       Normalizer.printableChars decoded
       = length (filter (λ c, (31 < c)%N ∧ c ≠ 127%N) decoded))
  ∧ (∀ s, Normalizer.stripControls s = filter (λ c, isKept c = true) s)
  ∧ (∀ c, isKept c = true ↔ ¬ dropped c)
  ∧ (∀ view i,
       i < (length view + 15) / 16 →
       Normalizer.hexLines view ((length view + 15) / 16) 0 !! i
       = Some (Normalizer.hexLine (16 * i) (take 16 (drop (16 * i) view))))
  ∧ (∀ content,
       Forall (λ c, ¬ dropped c) filename →
       Forall (λ c, ¬ dropped c)
         (Normalizer.convertContentToDisplayableText decode encode content
            filename)).
Proof.
  split; [ done | ]. split; [ | split; [ | split; [ | split; [ | split ] ] ] ].
  - unfold Normalizer.convertContentToDisplayableText.
    pose proof (firstValid_spec decode Normalizer.encodings buffer) as H.
    destruct (Normalizer.firstValid decode Normalizer.encodings buffer) as [text|].
    + left. destruct H as (before & enc & later & dec & H1 & H2 & H3 & H4 & ->).
      by exists before, enc, later, dec.
    + right. done.
  - intros decoded. unfold Normalizer.printableChars. f_equal.
    apply list_filter_iff. intros c. unfold Normalizer.isControl.
    rewrite orb_false_iff, N.leb_gt, N.eqb_neq. done.
  - apply stripControls_filter.
  - apply isKept_dropped.
  - intros view i Hi. by rewrite hexLines_lookup.
  - intros content Hf.
    assert (Forall (λ c, isKept c = true) filename) as Hf'.
    { eapply Forall_impl; [ exact Hf | ]. intros c. apply isKept_dropped. }
    eapply Forall_impl; [ | intros c; apply isKept_dropped ].
    unfold Normalizer.convertContentToDisplayableText.
    destruct content as [s | buf | ].
    + apply stripControls_kept.
    + pose proof (firstValid_spec decode Normalizer.encodings buf) as H.
      destruct (Normalizer.firstValid decode Normalizer.encodings buf) as [text|].
      * destruct H as (_ & _ & _ & dec & _ & _ & _ & _ & ->).
        apply stripControls_kept.
      * by apply hexDump_kept.
    + by apply kept_bool.
Qed.

(** A buffer whose utf-8 text is printable throughout in the sense of the
    specification and is passed over all the same: three of its four
    characters are newlines, which the test of the code counts as control
    characters, and the utf-16le reading is returned instead. *)
Lemma newlines_count_as_control :
  Codec.decode "utf-8" newlineNote = Some [97; 10; 10; 10]%N
  ∧ forallb specPrintable [97; 10; 10; 10]%N = true
  ∧ Normalizer.looksValid [97; 10; 10; 10]%N = false
  ∧ Normalizer.normalize (BufferContent newlineNote) (str "note.eml")
    = [2657; 2570]%N
  ∧ Normalizer.stripControls [97; 10; 10; 10]%N = [97; 10; 10; 10]%N
  ∧ bool_decide
      (Normalizer.normalize (BufferContent newlineNote) (str "note.eml")
       = Normalizer.stripControls [97; 10; 10; 10]%N) = false.
Proof. repeat split; vm_compute; reflexivity. Qed.

(** The test at the boundary: three printable characters of ten are not
    enough. *)
Lemma thirty_percent_boundary :
  Normalizer.looksValid ([65; 65; 65] ++ replicate 7 0)%N = false
  ∧ Normalizer.looksValid ([65; 65; 65; 65] ++ replicate 6 0)%N = true.
Proof. split; vm_compute; reflexivity. Qed.

Lemma normalizer_selection_witness :
  Forall (λ c, ¬ dropped c)
    (Normalizer.normalize (BufferContent newlineNote) (str "note.eml")).
Proof.
  apply (normalizer_selection Codec.decode Codec.encode newlineNote
           (str "note.eml")).
  apply Forall_forall. intros c Hc. apply isKept_dropped.
  revert c Hc. apply Forall_forall, kept_bool. reflexivity.
Defined.

(** ** The layout of a registry *)

Lemma backoff_some k i lo n e :
  Regex.backoff k i lo n = Some e → ∃ n', lo ≤ n' ≤ n ∧ k (i + n') = Some e.
Proof.
  induction n as [|n IH]; cbn [Regex.backoff].
  - destruct (0 <? lo) eqn:Hlo; [ done | ]. apply Nat.ltb_ge in Hlo.
    destruct (k (i + 0)) eqn:Hk; [ | done ].
    intros [= <-]. exists 0. split; [ lia | done ].
  - destruct (S n <? lo) eqn:Hlo; [ done | ]. apply Nat.ltb_ge in Hlo.
    destruct (k (i + S n)) eqn:Hk.
    + intros [= <-]. exists (S n). split; [ lia | done ].
    + intros H. destruct (IH H) as (n' & Hn' & Hk').
      exists n'. split; [ lia | done ].
Qed.

Lemma spanLen_head p s n :
  0 < n → n ≤ Regex.spanLen p s → ∃ c, s !! 0 = Some c ∧ p c = true.
Proof.
  destruct s as [|c s]; cbn; [ lia | ].
  destruct (p c) eqn:Hc; [ | lia ]. intros _ _. by exists c.
Qed.

(** A match hands on an offset inside the text: the same offset for an
    assertion, a later one when the expression has a head class, and then
    the unit at the start is in that class. *)
Lemma m_run r s i k e :
  i ≤ length s → Regex.m r s i k = Some e →
  ∃ j, i ≤ j ≤ length s ∧ k j = Some e
       ∧ (isAssertion r = true → j = i)
       ∧ ∀ p, headClass r = Some p →
              i < j ∧ ∃ c, s !! i = Some c ∧ p c = true.
Proof.
  revert i k. induction r as [cs|p| | | |r1 IH1 r2 IH2|r1 IH1 r2 IH2|p lo hi];
    intros i k Hi; cbn [Regex.m headClass isAssertion].
  - case_bool_decide as Hp; [ | done ]. intros Hk.
    destruct Hp as [rest Hrest].
    assert (i + length cs ≤ length s) as Hlen.
    { apply (f_equal length) in Hrest.
      rewrite length_drop, length_app in Hrest. lia. }
    exists (i + length cs).
    split; [ lia | split; [ done | split; [ done | ] ] ].
    intros p Hp. destruct cs as [|c cs]; [ done | ]. injection Hp as <-.
    split; [ cbn; lia | ]. exists c. split; [ | apply N.eqb_refl ].
    rewrite <- (Nat.add_0_r i), <- lookup_drop, Hrest. done.
  - destruct (s !! i) as [c|] eqn:Hc; [ | done ].
    destruct (p c) eqn:Hpc; [ | done ]. intros Hk.
    apply lookup_lt_Some in Hc as Hlt.
    exists (S i). split; [ lia | split; [ done | split; [ done | ] ] ].
    intros q [= <-]. split; [ lia | by exists c ].
  - destruct (Regex.atWordBoundary s i); [ | done ]. intros Hk.
    exists i. split; [ lia | done ].
  - destruct (i =? 0); [ | done ]. intros Hk.
    exists i. split; [ lia | done ].
  - destruct (i =? length s); [ | done ]. intros Hk.
    exists i. split; [ lia | done ].
  - intros H. destruct (IH1 _ _ Hi H) as (j1 & Hj1 & Hk1 & Ha1 & Hh1).
    destruct (IH2 j1 k) as (j2 & Hj2 & Hk2 & _ & Hh2); [ lia | done | ].
    exists j2. split; [ lia | split; [ done | split; [ done | ] ] ].
    intros p Hp. destruct (isAssertion r1) eqn:Ha.
    + rewrite (Ha1 eq_refl) in *. by apply Hh2.
    + destruct (Hh1 p Hp) as [Hlt Hc]. split; [ lia | done ].
  - destruct (Regex.m r1 s i k) eqn:H1.
    + intros [= <-]. destruct (IH1 _ _ Hi H1) as (j & Hj & Hk & _ & Hh).
      exists j. split; [ done | split; [ done | split; [ done | ] ] ].
      intros p Hp. destruct (headClass r1) as [p1|]; [ | done ].
      destruct (headClass r2) as [p2|]; [ | done ]. injection Hp as <-.
      destruct (Hh p1 eq_refl) as (Hlt & c & Hc & Hpc).
      split; [ done | ]. exists c. by rewrite Hpc.
    + intros H2. destruct (IH2 _ _ Hi H2) as (j & Hj & Hk & _ & Hh).
      exists j. split; [ done | split; [ done | split; [ done | ] ] ].
      intros p Hp. destruct (headClass r1) as [p1|]; [ | done ].
      destruct (headClass r2) as [p2|]; [ | done ]. injection Hp as <-.
      destruct (Hh p2 eq_refl) as (Hlt & c & Hc & Hpc).
      split; [ done | ]. exists c. by rewrite Hpc, orb_true_r.
  - cbv zeta. intros H. apply backoff_some in H as (n & Hn & Hk).
    pose proof (spanLen_le p (drop i s)) as Hle. rewrite length_drop in Hle.
    assert (n ≤ Regex.spanLen p (drop i s)) as Hn'.
    { destruct hi; lia. }
    exists (i + n). split; [ lia | split; [ done | split; [ done | ] ] ].
    intros q Hq. destruct lo as [|lo]; [ done | ]. injection Hq as <-.
    split; [ lia | ].
    destruct (spanLen_head p (drop i s) n) as (c & Hc & Hpc); [ lia | done | ].
    exists c. rewrite lookup_drop, Nat.add_0_r in Hc. done.
Qed.

Lemma scan_in_range r s n i lastIndex mt :
  mt ∈ Regex.scan r s n i lastIndex → i ≤ mt.1 < i + n.
Proof.
  revert i lastIndex.
  induction n as [|n IH]; cbn [Regex.scan]; intros i lastIndex Hmt.
  - by apply elem_of_nil in Hmt.
  - destruct (i <? lastIndex); [ apply IH in Hmt; lia | ].
    destruct (Regex.matchAt r s i) as [e|]; [ | apply IH in Hmt; lia ].
    apply elem_of_cons in Hmt as [-> | Hmt]; [ cbn; lia | apply IH in Hmt; lia ].
Qed.

Lemma word_not_space c : Regex.isWordChar c = true → JS.isWhiteSpace c = false.
Proof.
  unfold Regex.isWordChar, Regex.isDigit, Regex.isUpper, Regex.isLower,
    JS.isWhiteSpace.
  rewrite !orb_true_iff, !andb_true_iff, !orb_false_iff, !andb_false_iff.
  rewrite !N.leb_le, !N.leb_gt, !N.eqb_eq, !N.eqb_neq. lia.
Qed.

Lemma keywords_head ks :
  ks ≠ [] → Forall (λ kw, wordHead kw = true) ks →
  ∃ q, headClass (Patterns.keywords ks) = Some q
       ∧ ∀ c, q c = true → Regex.isWordChar c = true.
Proof.
  intros Hne Hks. induction Hks as [|kw ks Hkw Hks IH]; [ done | ].
  assert (∃ q, headClass (RLit (str kw)) = Some q
               ∧ ∀ c, q c = true → Regex.isWordChar c = true) as (q1 & H1 & Hq1).
  { unfold wordHead in Hkw. cbn [headClass].
    destruct (str kw) as [|c cs]; [ done | ].
    exists (N.eqb c). split; [ done | ]. by intros d ->%N.eqb_eq. }
  destruct ks as [|kw' ks]; [ by exists q1 | ].
  destruct IH as (q2 & H2 & Hq2); [ done | ].
  change (Patterns.keywords (kw :: kw' :: ks))
    with (RAlt (RLit (str kw)) (Patterns.keywords (kw' :: ks))).
  cbn [headClass]. cbn [headClass] in H1. rewrite H1, H2.
  eexists. split; [ done | ].
  intros c [H | H]%orb_prop; auto.
Qed.

Lemma phrase_head ks :
  ks ≠ [] → Forall (λ kw, wordHead kw = true) ks →
  ∃ q, headClass (Patterns.phrase ks) = Some q
       ∧ ∀ c, q c = true → Regex.isWordChar c = true.
Proof.
  intros Hne Hks. destruct (keywords_head ks Hne Hks) as (q & Hq & Hw).
  exists q. split; [ | done ].
  unfold Patterns.phrase. cbn [headClass isAssertion].
  destruct ks as [|kw [|kw' ks]]; [ done | done | done ].
Qed.

(** Every pattern of the catalog opens with [\b] and a word character. *)
Lemma catalog_pattern_shape fieldType patterns pattern :
  (fieldType, patterns) ∈ Patterns.patternRules → pattern ∈ patterns →
  (∃ r, pattern = RSeq RWordB r)
  ∧ ∃ q, headClass pattern = Some q
         ∧ ∀ c, q c = true → Regex.isWordChar c = true.
Proof.
  unfold Patterns.patternRules. intros Hr Hp.
  assert (∀ p c, (p = Regex.isUpper ∨ p = Regex.isDigit) → p c = true →
                 Regex.isWordChar c = true) as Hclass.
  { intros p c [-> | ->] H; unfold Regex.isWordChar; rewrite H;
      by rewrite ?orb_true_r. }
  repeat (apply elem_of_cons in Hr as [Hr | Hr];
          [ injection Hr as -> -> | ]); [ .. | by apply elem_of_nil in Hr ];
    repeat (apply elem_of_cons in Hp as [-> | Hp]);
    try (by apply elem_of_nil in Hp);
    (split; [ by eexists | ]);
    try (apply phrase_head; [ done | by repeat constructor ]).
  - exists (N.eqb 83). split; [ done | ]. by intros c <-%N.eqb_eq.
  - exists Regex.isUpper. split; [ done | ]. intros c. apply Hclass. by left.
  - exists Regex.isDigit. split; [ done | ]. intros c. apply Hclass. by right.
  - exists (N.eqb 86). split; [ done | ]. by intros c <-%N.eqb_eq.
  - exists (N.eqb 80). split; [ done | ]. by intros c <-%N.eqb_eq.
Qed.

Lemma candidate_in_document content fieldType patterns pattern mt :
  (fieldType, patterns) ∈ Patterns.patternRules → pattern ∈ patterns →
  mt ∈ Regex.matchAll pattern content →
  ∃ c, head (text (candidate content fieldType mt)) = Some c
       ∧ Regex.isWordChar c = true
       ∧ mt.1 + length (text (candidate content fieldType mt)) ≤ mt.2
       ∧ mt.2 ≤ length content
       ∧ text (candidate content fieldType mt) `prefix_of` drop mt.1 content.
Proof.
  intros Hr Hp Hmt.
  destruct (catalog_pattern_shape _ _ _ Hr Hp) as (_ & q & Hq & Hword).
  apply scan_in_range in Hmt as Hrange.
  apply matchAll_matchAt in Hmt. destruct mt as [i e]. cbn [fst snd] in *.
  unfold Regex.matchAt in Hmt.
  assert (i ≤ length content) as Hi by lia.
  destruct (m_run _ _ _ _ _ Hi Hmt) as (j & Hj & [= ->] & _ & Hh).
  destruct (Hh q Hq) as (Hlt & c & Hc & Hqc).
  apply Hword in Hqc as Hw. apply word_not_space in Hw as Hs.
  cbn [candidate text fst snd].
  rewrite substring_ordered by lia.
  assert (take (e - i) (drop i content)
          = [c] ++ drop 1 (take (e - i) (drop i content))) as Hsplit.
  { destruct (take (e - i) (drop i content)) as [|d rest] eqn:Ht.
    - apply (f_equal length) in Ht. rewrite length_take, length_drop in Ht.
      cbn in Ht. lia.
    - assert ((take (e - i) (drop i content)) !! 0 = Some c) as H0.
      { rewrite lookup_take_lt by lia. by rewrite lookup_drop, Nat.add_0_r. }
      rewrite Ht in H0. by injection H0 as ->. }
  exists c.
  pose proof (trim_keeps_prefix [c] (drop 1 (take (e - i) (drop i content)))
                c c eq_refl Hs eq_refl Hs) as Hpre.
  rewrite <- Hsplit in Hpre.
  assert (JS.trim (take (e - i) (drop i content))
          `prefix_of` take (e - i) (drop i content)) as Hsub.
  { unfold JS.trim.
    assert (JS.trimStart (take (e - i) (drop i content))
            = take (e - i) (drop i content)) as ->.
    { rewrite Hsplit. cbn. by rewrite Hs. }
    apply trimEnd_prefix. }
  split; [ | split; [ done | split; [ | split; [ lia | ] ] ] ].
  - destruct Hpre as [k ->]. done.
  - apply prefix_length in Hsub. rewrite length_take, length_drop in Hsub. lia.
  - etrans; [ exact Hsub | apply prefix_take ].
Qed.

Lemma autoDetect_inside content t :
  t ∈ autoDetectParserTargets content →
  startPos t < endPos t
  ∧ endPos t ≤ length content
  ∧ JS.substring content (startPos t) (endPos t) = text t.
Proof.
  intros Ht.
  destruct (autoDetect_provenance _ _ Ht)
    as (f & ps & p & mt & Hr & Hp & Hmt & ->).
  destruct (candidate_in_document _ _ _ _ _ Hr Hp Hmt)
    as (c & Hhead & Hw & Hlen & He & Hpre).
  cbn [candidate startPos endPos] in *.
  set (txt := JS.trim (JS.substring content mt.1 mt.2)) in *.
  change (text (candidate content f mt)) with txt in *.
  split; [ destruct txt; [ done | cbn; lia ] | ].
  split; [ lia | by apply substring_prefix ].
Qed.

(** X2: a detected target is a piece of the document: its text is not
    empty and starts with a word character, its offsets lie inside the
    document, and the document holds its text at those offsets. *)
Theorem detected_text_in_document content t :
  t ∈ autoDetectParserTargets content →
  text t ≠ []
  ∧ (∃ c, head (text t) = Some c ∧ Regex.isWordChar c = true)
  ∧ startPos t < endPos t
  ∧ endPos t ≤ length content
  ∧ JS.substring content (startPos t) (endPos t) = text t.
Proof.
  intros Ht. pose proof (autoDetect_inside _ _ Ht) as Hspan.
  destruct (autoDetect_provenance _ _ Ht)
    as (f & ps & p & mt & Hr & Hp & Hmt & ->).
  destruct (candidate_in_document _ _ _ _ _ Hr Hp Hmt)
    as (c & Hhead & Hw & _).
  split; [ | split; [ by exists c | done ] ].
  intros Hnil. by rewrite Hnil in Hhead.
Qed.

Lemma insertByStart_ascending t l :
  ascending l → ascending (insertByStart t l).
Proof.
  induction 1 as [|u l Hu Hl IH]; cbn [insertByStart].
  - by repeat constructor.
  - destruct (startPos t <=? startPos u) eqn:Htu.
    + apply Nat.leb_le in Htu. constructor; [ | by constructor ].
      constructor; [ done | ].
      eapply Forall_impl; [ exact Hu | ]. unfold byStart. intros; lia.
    + apply Nat.leb_gt in Htu. constructor; [ | done ].
      rewrite insertByStart_perm. constructor; [ unfold byStart; lia | done ].
Qed.

Lemma sortByStart_ascending l : ascending (sortByStart l).
Proof.
  induction l as [|t l IH]; cbn; [ constructor | ].
  by apply insertByStart_ascending.
Qed.

Lemma ascending_lookup l i j a b :
  ascending l → i < j → l !! i = Some a → l !! j = Some b → byStart a b.
Proof.
  intros Hl. revert i j. induction Hl as [|t l Ht Hl IH]; intros i j Hij Ha Hb.
  - done.
  - destruct j as [|j]; [ lia | ]. destruct i as [|i]; cbn in *.
    + injection Ha as ->. eapply Forall_forall in Ht; [ exact Ht | ].
      by eapply list_elem_of_lookup_2.
    + eapply (IH i j); [ lia | done | done ].
Qed.

Lemma autoDetect_layout content i j a b :
  i < j →
  autoDetectParserTargets content !! i = Some a →
  autoDetectParserTargets content !! j = Some b →
  startPos a ≤ startPos b ∧ endPos a ≤ startPos b.
Proof.
  intros Hij Ha Hb.
  assert (byStart a b) as Hs.
  { eapply ascending_lookup; [ | exact Hij | exact Ha | exact Hb ].
    apply sortByStart_ascending. }
  split; [ done | ]. unfold byStart in Hs.
  assert (separated (autoDetectParserTargets content)) as Hsep.
  { unfold autoDetectParserTargets.
    eapply separated_perm; [ symmetry; apply sortByStart_perm | ].
    apply scanCatalog_separated. }
  assert (overlaps a b = false) as Ho.
  { eapply separated_lookup; [ exact Hsep | | exact Ha | exact Hb ]. lia. }
  apply list_elem_of_lookup_2 in Hb.
  apply autoDetect_inside in Hb as (Hb & _).
  unfold overlaps in Ho; cbn in Ho.
  apply negb_false_iff, orb_true_iff in Ho as [H | H]; apply Nat.leb_le in H; lia.
Qed.

(** X1: the registry of a detection pass lists its targets from left to
    right: the start offsets ascend strictly along the registry, and an
    entry ends where the next one starts or before. *)
Theorem detected_targets_in_order content i j a b :
  i < j →
  autoDetectParserTargets content !! i = Some a →
  autoDetectParserTargets content !! j = Some b →
  startPos a < startPos b ∧ endPos a ≤ startPos b.
Proof.
  intros Hij Ha Hb.
  destruct (autoDetect_layout _ _ _ _ _ Hij Ha Hb) as [_ He].
  split; [ | done ].
  apply list_elem_of_lookup_2, autoDetect_inside in Ha as (Ha & _). lia.
Qed.

(** ** Documents without word characters *)

Lemma no_word_no_boundary s i :
  Forall (λ c, Regex.isWordChar c = false) s → Regex.atWordBoundary s i = false.
Proof.
  intros Hs.
  assert (∀ j, Regex.wordAt s j = false) as Hw.
  { intros j. unfold Regex.wordAt. destruct (s !! j) as [c|] eqn:Hc; [ | done ].
    eapply Forall_lookup_1 in Hs; [ exact Hs | exact Hc ]. }
  unfold Regex.atWordBoundary. rewrite Hw. by destruct i; rewrite ?Hw.
Qed.

Lemma scan_no_match r s n i lastIndex :
  (∀ j, Regex.matchAt r s j = None) → Regex.scan r s n i lastIndex = [].
Proof.
  intros Hr. revert i lastIndex.
  induction n as [|n IH]; intros i lastIndex; cbn [Regex.scan]; [ done | ].
  rewrite Hr. by destruct (i <? lastIndex).
Qed.

Lemma foldl_fixed {A B} (f : A → B → A) (xs : list B) a :
  (∀ x, x ∈ xs → f a x = a) → foldl f a xs = a.
Proof.
  induction xs as [|x xs IH]; cbn; intros Hf; [ done | ].
  rewrite Hf by (by left). apply IH. intros y Hy. apply Hf. by right.
Qed.

(** X3: a document without letters, digits and underscores, the empty
    document among them, gives an empty registry. *)
Theorem no_word_characters_no_targets content :
  Forall (λ c, Regex.isWordChar c = false) content →
  autoDetectParserTargets content = [].
Proof.
  intros Hc. unfold autoDetectParserTargets, scanCatalog.
  rewrite foldl_fixed; [ done | ].
  intros [fieldType patterns] Hr. unfold detectField. cbn [fst snd].
  apply foldl_fixed. intros pattern Hp. unfold detectPattern.
  destruct (catalog_pattern_shape _ _ _ Hr Hp) as ((r & ->) & _).
  unfold Regex.matchAll. rewrite scan_no_match; [ done | ].
  intros j. unfold Regex.matchAt. cbn [Regex.m].
  by rewrite no_word_no_boundary.
Qed.

(** ** Reassignments *)

Lemma updateTargetMapping_spans index newFieldType l :
  span <$> updateTargetMapping index newFieldType l = span <$> l.
Proof.
  unfold updateTargetMapping.
  destruct (l !! index) as [target|] eqn:Hi; [ | done ].
  rewrite list_fmap_insert. apply list_insert_id.
  by rewrite list_lookup_fmap, Hi.
Qed.

Lemma remapped_spans content l :
  remapped content l → span <$> l = span <$> autoDetectParserTargets content.
Proof.
  induction 1 as [|index newFieldType l _ IH]; [ done | ].
  by rewrite updateTargetMapping_spans.
Qed.

(** X4: reassignments do not disturb the layout of the registry: after a
    scan and any number of reassignments the targets still carry the text
    and the offsets of the scan, in the same order, so they still lie in the
    document from left to right without overlap. *)
Theorem reassignments_keep_layout content l :
  remapped content l →
  span <$> l = span <$> autoDetectParserTargets content
  ∧ (∀ i a, l !! i = Some a →
       startPos a < endPos a ∧ endPos a ≤ length content
       ∧ JS.substring content (startPos a) (endPos a) = text a)
  ∧ (∀ i j a b, i < j → l !! i = Some a → l !! j = Some b →
       endPos a ≤ startPos b ∧ overlaps a b = false).
Proof.
  intros Hl. pose proof (remapped_spans _ _ Hl) as Hs.
  assert (∀ i a, l !! i = Some a →
            ∃ a', autoDetectParserTargets content !! i = Some a'
                  ∧ span a' = span a) as Hsame.
  { intros i a Ha.
    apply (f_equal (λ k, k !! i)) in Hs.
    rewrite !list_lookup_fmap, Ha in Hs.
    destruct (autoDetectParserTargets content !! i) as [a'|];
      [ | discriminate Hs ].
    exists a'. split; [ done | ]. cbn in Hs. congruence. }
  split; [ done | split ].
  - intros i a Ha. destruct (Hsame i a Ha) as (a' & Ha' & Heq).
    apply list_elem_of_lookup_2, autoDetect_inside in Ha'
      as (Hne & Hlen & Hsub).
    unfold span in Heq. injection Heq as <- <- <-. done.
  - intros i j a b Hij Ha Hb.
    destruct (Hsame i a Ha) as (a' & Ha' & Heqa).
    destruct (Hsame j b Hb) as (b' & Hb' & Heqb).
    destruct (autoDetect_layout content i j a' b' Hij Ha' Hb') as [_ H].
    unfold span in Heqa, Heqb.
    injection Heqa as _ Hsa Hea. injection Heqb as _ Hsb Heb.
    split; [ lia | ].
    unfold overlaps; cbn. apply negb_false_iff, orb_true_iff. left.
    apply Nat.leb_le. lia.
Qed.

Lemma confidenceValues_saturate c :
  In c confidenceValues →
  JS.Math_min 1.0
    (JS.Math_min 1.0 (JS.Math_min 1.0 (c + 0.2) + 0.2) + 0.2)%float
  = 1%float
  ∧ PrimFloat.leb 0.6 (JS.Math_min 1.0 (c + 0.2))%float = true
  ∧ PrimFloat.leb 0.8
      (JS.Math_min 1.0 (JS.Math_min 1.0 (c + 0.2) + 0.2))%float = true.
Proof.
  cbn [confidenceValues In]. intros H.
  repeat (destruct H as [<- | H]; [ repeat split; reflexivity | ]).
  destruct H.
Qed.

Lemma updateTargetMapping_lookup index newFieldType l target :
  l !! index = Some target →
  updateTargetMapping index newFieldType l !! index
  = Some (remap newFieldType target).
Proof.
  intros Hi. unfold updateTargetMapping. rewrite Hi.
  apply list_lookup_insert_eq. by eapply lookup_lt_Some.
Qed.

(** X5: the nudge of a reassignment saturates: three reassignments of a
    target to field types other than "unmapped" bring its confidence to
    exactly 1.0, whatever it was, and a further one leaves it there. *)
Theorem three_reassignments_saturate l index target f1 f2 f3 f4 :
  registry l → l !! index = Some target →
  f1 ≠ "unmapped" → f2 ≠ "unmapped" → f3 ≠ "unmapped" → f4 ≠ "unmapped" →
  confidence
    <$> updateTargetMapping index f3
          (updateTargetMapping index f2 (updateTargetMapping index f1 l))
        !! index
  = Some 1%float
  ∧ confidence
      <$> updateTargetMapping index f4
            (updateTargetMapping index f3
               (updateTargetMapping index f2 (updateTargetMapping index f1 l)))
          !! index
    = Some 1%float.
Proof.
  intros Hl Hi H1 H2 H3 H4.
  apply registry_confidence in Hl.
  eapply Forall_lookup_1 in Hl; [ | exact Hi ].
  destruct (confidenceValues_saturate _ Hl) as (Hsat & _ & _).
  rewrite !(updateTargetMapping_lookup _ _ _ _
              (updateTargetMapping_lookup _ _ _ _
                 (updateTargetMapping_lookup _ _ _ _ Hi))).
  rewrite !(updateTargetMapping_lookup _ _ _ _
              (updateTargetMapping_lookup _ _ _ _
                 (updateTargetMapping_lookup _ _ _ _
                    (updateTargetMapping_lookup _ _ _ _ Hi)))).
  cbn. rewrite !bool_decide_eq_true_2 by done. rewrite Hsat.
  split; reflexivity.
Qed.

(** X6: what the indicator shows after a reassignment: one reassignment
    to a field type other than "unmapped" takes any target out of the low
    (red) class, a second one puts it in the high (green) class. *)
Theorem reassignment_raises_icon l index target f1 f2 :
  registry l → l !! index = Some target →
  f1 ≠ "unmapped" → f2 ≠ "unmapped" →
  (∃ t1, updateTargetMapping index f1 l !! index = Some t1
         ∧ getConfidenceIcon (confidence t1) ≠ [55357; 56628]%N)
  ∧ (∃ t2, updateTargetMapping index f2 (updateTargetMapping index f1 l)
             !! index = Some t2
           ∧ getConfidenceIcon (confidence t2) = [55357; 57314]%N).
Proof.
  intros Hl Hi H1 H2.
  apply registry_confidence in Hl.
  eapply Forall_lookup_1 in Hl; [ | exact Hi ].
  destruct (confidenceValues_saturate _ Hl) as (_ & Hone & Htwo).
  split.
  - eexists. split; [ by apply updateTargetMapping_lookup | ].
    cbn. rewrite bool_decide_eq_true_2 by done.
    unfold getConfidenceIcon. rewrite Hone. by case_match.
  - eexists.
    split; [ by apply updateTargetMapping_lookup, updateTargetMapping_lookup | ].
    cbn. rewrite !bool_decide_eq_true_2 by done.
    unfold getConfidenceIcon. by rewrite Htwo.
Qed.

(** ** Splitting and joining *)

Lemma substring_take s n : JS.substring s 0 n = take n s.
Proof.
  unfold JS.substring. cbv zeta.
  rewrite Nat.min_0_l, Nat.max_0_l, Nat.min_0_l, Nat.sub_0_r, drop_0.
  destruct (decide (n ≤ length s)) as [Hn | Hn].
  - by rewrite Nat.min_l by done.
  - rewrite Nat.min_r by lia.
    rewrite (take_ge s n) by lia. apply take_ge. lia.
Qed.

Lemma substring_drop s n : JS.substring s n (length s) = drop n s.
Proof.
  unfold JS.substring. cbv zeta. rewrite Nat.min_id.
  destruct (decide (n ≤ length s)).
  - rewrite (Nat.min_l n) by done. rewrite Nat.max_r, Nat.min_l by lia.
    apply take_ge. rewrite length_drop. lia.
  - rewrite (Nat.min_r n) by lia. rewrite Nat.max_id, Nat.min_id, Nat.sub_diag.
    by rewrite (drop_ge s n) by lia.
Qed.

Lemma splitOn_cons sep s : ∃ p ps, JS.splitOn sep s = p :: ps.
Proof.
  destruct s as [|c s]; cbn; [ by eexists _, _ | ].
  destruct (sep c); [ by eexists _, _ | ].
  destruct (JS.splitOn sep s); by eexists _, _.
Qed.

Lemma joinWith_cons sep p q ps :
  joinWith sep (p :: q :: ps) = p ++ sep ++ joinWith sep (q :: ps).
Proof. cbn. by rewrite <- !(assoc_L (++)). Qed.

Lemma joinWith_splitOn n s : joinWith [n] (JS.splitOn (λ c, (c =? n)%N) s) = s.
Proof.
  induction s as [|c s IH]; [ done | ]. cbn [JS.splitOn].
  destruct (splitOn_cons (λ c, (c =? n)%N) s) as (p & ps & Hs). rewrite Hs in *.
  destruct (N.eqb_spec c n) as [-> | Hc].
  - rewrite joinWith_cons. cbn [app]. by rewrite IH.
  - cbn in *. by rewrite IH.
Qed.

Lemma splitOn_pieces sep s :
  Forall (Forall (λ c, sep c = false)) (JS.splitOn sep s).
Proof.
  induction s as [|c s IH]; cbn [JS.splitOn]; [ by repeat constructor | ].
  destruct (sep c) eqn:Hc; [ by constructor | ].
  destruct IH as [|p ps Hp Hps]; repeat constructor; done.
Qed.

Lemma splitOn_length sep s :
  length (JS.splitOn sep s) = S (length (filter (λ c, sep c = true) s)).
Proof.
  induction s as [|c s IH]; [ done | ]. cbn [JS.splitOn].
  rewrite filter_cons. destruct (sep c) eqn:Hc.
  - rewrite decide_True by done. cbn. by rewrite IH.
  - rewrite decide_False by done.
    destruct (JS.splitOn sep s); cbn in *; [ done | by rewrite <- IH ].
Qed.

Lemma filter_none {A} (P : A → Prop) `{∀ x, Decision (P x)} (l : list A) :
  Forall (λ x, ¬ P x) l → filter P l = [].
Proof.
  induction 1 as [|x l Hx _ IH]; [ done | ].
  by rewrite filter_cons, decide_False.
Qed.

Lemma splitOn_last sep s :
  ∃ p l, last (JS.splitOn sep s) = Some l ∧ s = p ++ l
         ∧ Forall (λ c, sep c = false) l
         ∧ (p = [] ∨ ∃ c, last p = Some c ∧ sep c = true).
Proof.
  induction s as [|c s (p & l & Hlast & Hs & Hl & Hp)].
  - exists [], []. by repeat split; [ | left ].
  - cbn [JS.splitOn]. destruct (sep c) eqn:Hc.
    + exists (c :: p), l. rewrite last_cons, Hlast. split; [ done | ].
      split; [ by rewrite Hs | ]. split; [ done | ]. right.
      destruct Hp as [-> | (d & Hd & Hsep)]; [ by exists c | ].
      exists d. by rewrite last_cons, Hd.
    + destruct (JS.splitOn sep s) as [|q [|q' qs]] eqn:Hq; [ done | | ].
      * cbn in Hlast. injection Hlast as ->.
        destruct Hp as [-> | (d & Hd & Hsep)].
        -- exists [], (c :: l). cbn in Hs. subst s.
           repeat split; [ by constructor | by left ].
        -- destruct (splitOn_length sep s) as [].
           pose proof (splitOn_length sep s) as Hn. rewrite Hq in Hn. cbn in Hn.
           assert (filter (λ c, sep c = true) s = []) as Hf
             by (apply nil_length_inv; lia).
           assert (d ∈ filter (λ c, sep c = true) s) as Hin.
           { apply list_elem_of_filter. split; [ done | ].
             rewrite Hs. apply elem_of_app. left.
             destruct p as [|x p _] using rev_ind; [ done | ].
             rewrite last_snoc in Hd. injection Hd as ->.
             apply elem_of_app. right. by left. }
           rewrite Hf in Hin. by apply elem_of_nil in Hin.
      * exists (c :: p), l. split; [ exact Hlast | ].
        split; [ by rewrite Hs | ]. split; [ done | ]. right.
        destruct Hp as [-> | (d & Hd & Hsep)].
        -- exfalso. cbn in Hs. subst s.
           pose proof (splitOn_length sep l) as Hn. rewrite Hq in Hn. cbn in Hn.
           assert (filter (λ c, sep c = true) l = []) as Hf.
           { apply filter_none. eapply Forall_impl; [ exact Hl | ].
             cbn. intros x Hx. by rewrite Hx. }
           rewrite Hf in Hn. cbn in Hn. lia.
        -- exists d. by rewrite last_cons, Hd.
Qed.

Lemma joinWith_drop sep k ls :
  joinWith sep (drop k ls) `suffix_of` joinWith sep ls.
Proof.
  revert ls. induction k as [|k IH]; intros ls; [ by rewrite drop_0 | ].
  destruct ls as [|p ls]; [ done | ].
  cbn [drop]. etrans; [ apply IH | ].
  destruct ls as [|q ls]; [ apply suffix_nil | ].
  rewrite joinWith_cons. apply suffix_app_r, suffix_app_r. done.
Qed.

Lemma joinWith_take sep k ls :
  joinWith sep (take k ls) `prefix_of` joinWith sep ls.
Proof.
  revert k. induction ls as [|p ls IH]; intros k; [ by rewrite take_nil | ].
  destruct k as [|k]; [ apply prefix_nil | ]. cbn [take].
  destruct ls as [|q ls]; [ by rewrite take_nil | ].
  destruct k as [|k].
  - cbn. rewrite app_nil_r. by apply prefix_app_r.
  - specialize (IH (S k)). cbn [take] in *.
    rewrite !joinWith_cons. by apply prefix_app, prefix_app.
Qed.

Lemma lineFeeds_app s t : lineFeeds (s ++ t) = lineFeeds s + lineFeeds t.
Proof. unfold lineFeeds. by rewrite filter_app, length_app. Qed.

Lemma lineFeeds_none s : Forall (λ c, isLF c = false) s → lineFeeds s = 0.
Proof.
  intros Hs. unfold lineFeeds. rewrite filter_none; [ done | ].
  eapply Forall_impl; [ exact Hs | ].
  cbn. intros c Hc ->. done.
Qed.

Lemma lineFeeds_joinWith ls :
  Forall (Forall (λ c, isLF c = false)) ls →
  lineFeeds (joinWith Text.newline ls) = length ls - 1.
Proof.
  induction 1 as [|p ls Hp Hls IH]; [ done | ].
  destruct Hls as [|q ls Hq Hls].
  - unfold joinWith. cbn [fmap list_fmap concat].
    by rewrite app_nil_r, lineFeeds_none by done.
  - rewrite joinWith_cons, !lineFeeds_app, IH, lineFeeds_none by done.
    change (lineFeeds Text.newline) with 1. cbn [length]. lia.
Qed.

Lemma splitOn_lines s :
  length (JS.splitOn isLF s) = S (lineFeeds s).
Proof.
  rewrite splitOn_length. unfold lineFeeds. do 2 f_equal.
  apply list_filter_iff. intros c. unfold isLF. by rewrite N.eqb_eq.
Qed.

Lemma trim_length s : length (JS.trim s) ≤ length s.
Proof.
  unfold JS.trim. etrans.
  - apply prefix_length, trimEnd_prefix.
  - apply suffix_length, trimStart_suffix.
Qed.

Lemma substring_length s a b :
  length (JS.substring s a b)
  ≤ (a `min` length s) `max` (b `min` length s)
    - (a `min` length s) `min` (b `min` length s).
Proof. unfold JS.substring. cbv zeta. rewrite length_take. lia. Qed.

(** X7: the context of a target: the text kept before and after it is at
    most fifty code units long, and the line number is one more than the
    number of line feeds before the start offset. *)
Theorem context_window content startPos endPos :
  length (before (getTargetContext content startPos endPos)) ≤ 50
  ∧ length (after (getTargetContext content startPos endPos)) ≤ 50
  ∧ line (getTargetContext content startPos endPos)
    = S (lineFeeds (take startPos content)).
Proof.
  unfold getTargetContext. cbn [before after line].
  split; [ | split ].
  - etrans; [ apply trim_length | ].
    etrans; [ apply substring_length | lia ].
  - etrans; [ apply trim_length | ].
    etrans; [ apply substring_length | lia ].
  - rewrite substring_take. apply splitOn_lines.
Qed.

(** X8: the coordinates of a selection: the line number is one more than
    the number of line feeds before the caret; the column is one more than
    the length of the piece of text between the last line feed before the
    caret and the caret; the context before is an end piece of the text
    before the caret and the context after a beginning of the text behind
    the selection, each with at most two line feeds. *)
Theorem selection_coordinates selectedText textContent startOffset :
  let c := getSelectionCoordinates selectedText textContent startOffset in
  lineNumber c = S (lineFeeds (take startOffset textContent))
  ∧ (∃ p l, take startOffset textContent = p ++ l
            ∧ char c = length l + 1
            ∧ lineFeeds l = 0
            ∧ (p = [] ∨ last p = Some 10%N))
  ∧ beforeContext c `suffix_of` take startOffset textContent
  ∧ afterContext c
    `prefix_of` drop (startOffset + length selectedText) textContent
  ∧ lineFeeds (beforeContext c) ≤ 2
  ∧ lineFeeds (afterContext c) ≤ 2.
Proof.
  unfold getSelectionCoordinates.
  cbn [lineNumber char beforeContext afterContext].
  rewrite substring_take, substring_drop.
  change (λ c : N, (c =? 10)%N) with isLF.
  set (before := take startOffset textContent).
  set (behind := drop (startOffset + length selectedText) textContent).
  split; [ apply splitOn_lines | ].
  split.
  { destruct (splitOn_last isLF before) as (p & l & Hlast & Hs & Hl & Hp).
    exists p, l. rewrite Hlast. cbn [default].
    split; [ done | split; [ done | split; [ by apply lineFeeds_none | ] ] ].
    destruct Hp as [-> | (d & Hd & Hsep)]; [ by left | right ].
    unfold isLF in Hsep. apply N.eqb_eq in Hsep. by subst d. }
  split.
  { etrans; [ apply joinWith_drop | ].
    unfold Text.newline. change isLF with (λ c, (c =? 10)%N).
    by rewrite joinWith_splitOn. }
  split.
  { etrans; [ apply joinWith_take | ].
    unfold Text.newline. change isLF with (λ c, (c =? 10)%N).
    by rewrite joinWith_splitOn. }
  split.
  - rewrite lineFeeds_joinWith.
    + rewrite length_drop. lia.
    + apply Forall_drop, splitOn_pieces.
  - rewrite lineFeeds_joinWith.
    + rewrite length_take. lia.
    + apply Forall_take, splitOn_pieces.
Qed.

(** ** The rows of the dump *)

Lemma printable_bool l :
  forallb isPrintable l = true → Forall (λ c, isPrintable c = true) l.
Proof.
  rewrite forallb_forall. intros H. apply Forall_forall.
  intros c Hc. by apply H, list_elem_of_In.
Qed.

Lemma decimal_printable n : Forall (λ c, isPrintable c = true) (Text.decimal n).
Proof.
  unfold Text.decimal. generalize (Nat.to_uint n). intros d.
  assert (Forall (λ c, isPrintable c = true)
            (str (DecimalString.NilEmpty.string_of_uint d))) as H.
  { induction d; cbn; constructor; done. }
  destruct d; first [ exact H | by apply printable_bool ].
Qed.

Lemma hex_printable width n :
  Forall (λ c, isPrintable c = true) (Normalizer.hex width n).
Proof.
  unfold Normalizer.hex. cbv zeta. generalize (Nat.to_hex_uint n). intros d.
  apply Forall_app. split; [ by apply Forall_replicate | ].
  assert (Forall (λ c, isPrintable c = true)
            (str (HexadecimalString.NilEmpty.string_of_uint d))) as H.
  { induction d; cbn; constructor; done. }
  destruct d; first [ exact H | by apply printable_bool ].
Qed.

Lemma joinWith_printable sep pieces :
  Forall (λ c, isPrintable c = true) sep →
  Forall (Forall (λ c, isPrintable c = true)) pieces →
  Forall (λ c, isPrintable c = true) (joinWith sep pieces).
Proof.
  intros Hsep Hp. destruct Hp as [|p ps Hp Hps]; cbn; [ constructor | ].
  apply Forall_app. split; [ done | ].
  induction Hps as [|q qs Hq _ IH]; cbn; [ constructor | ].
  rewrite !Forall_app. done.
Qed.

Lemma hexLine_printable offset chunk :
  Forall (λ c, isPrintable c = true) (Normalizer.hexLine offset chunk).
Proof.
  unfold Normalizer.hexLine. cbv zeta.
  rewrite !Forall_app. repeat split.
  - apply hex_printable.
  - by apply printable_bool.
  - apply joinWith_printable; [ by apply printable_bool | ].
    apply Forall_app. split.
    + apply Forall_fmap, Forall_forall. intros b _. apply hex_printable.
    + apply Forall_replicate. by apply printable_bool.
  - by apply printable_bool.
  - apply Forall_fmap, Forall_forall. intros b _. cbn.
    unfold isPrintable.
    by destruct ((32 <=? b)%N && (b <=? 126)%N) eqn:Hb.
  - by apply Forall_replicate.
  - by apply printable_bool.
Qed.

Lemma hexLines_printable view rows offset :
  Forall (Forall (λ c, isPrintable c = true))
    (Normalizer.hexLines view rows offset).
Proof.
  revert offset. induction rows as [|rows IH]; intros offset; cbn; constructor.
  - apply hexLine_printable.
  - apply IH.
Qed.

Lemma printable_no_line_feed l :
  Forall (λ c, isPrintable c = true) l → Forall (λ c, isLF c = false) l.
Proof.
  intros Hl. eapply Forall_impl; [ exact Hl | ].
  intros c. unfold isPrintable, isLF.
  intros [H1%N.leb_le _]%andb_prop. apply N.eqb_neq. lia.
Qed.

Lemma hex_byte_length b : length (Normalizer.hex 2 (N.to_nat (Byte.to_N b))) = 2.
Proof. destruct b; reflexivity. Qed.

Lemma joinWith_length sep k pieces :
  Forall (λ p, length p = k) pieces →
  length (joinWith sep pieces)
  = length pieces * k + (length pieces - 1) * length sep.
Proof.
  induction 1 as [|p ps Hp Hps IH]; [ done | ].
  destruct Hps as [|q ps Hq Hps].
  - cbn. rewrite app_nil_r. lia.
  - rewrite joinWith_cons, !length_app, IH. cbn [length].
    replace (S (S (length ps)) - 1) with (S (S (length ps) - 1)) by lia.
    rewrite Hp. cbn [Nat.mul]. lia.
Qed.

(** X9: the rows of the dump are aligned and printable: a row of up to
    sixteen bytes consists of printable ASCII characters only, and it is 69
    characters longer than its offset column, which has eight digits or
    more. *)
Theorem hex_row_shape offset (bytes : list Byte.byte) :
  length bytes ≤ 16 →
  Forall (λ c, isPrintable c = true)
    (Normalizer.hexLine offset (Byte.to_N <$> bytes))
  ∧ length (Normalizer.hexLine offset (Byte.to_N <$> bytes))
    = length (Normalizer.hex 8 offset) + 69
  ∧ 8 ≤ length (Normalizer.hex 8 offset).
Proof.
  intros Hlen. split; [ apply hexLine_printable | ]. split.
  - unfold Normalizer.hexLine. cbv zeta.
    rewrite !length_app.
    rewrite (joinWith_length _ 2).
    + rewrite !length_app, !length_fmap, !length_replicate.
      change (length (str ": ")) with 2. change (length (str "  |")) with 3.
      change (length (str "|")) with 1. change (length [Normalizer.space]) with 1.
      lia.
    + apply Forall_app. split.
      * rewrite <- list_fmap_compose. apply Forall_fmap, Forall_forall.
        intros b _. apply hex_byte_length.
      * by apply Forall_replicate.
  - unfold Normalizer.hex. cbv zeta. rewrite length_app, length_replicate. lia.
Qed.

(** ** The preview *)

Lemma splitOn_joinWith ls :
  ls ≠ [] → Forall (Forall (λ c, isLF c = false)) ls →
  JS.splitOn isLF (joinWith Text.newline ls) = ls.
Proof.
  intros Hne Hls. induction Hls as [|p ls Hp Hls IH]; [ done | clear Hne ].
  destruct Hls as [|q ls Hq Hls].
  - cbn. rewrite app_nil_r. clear IH.
    induction Hp as [|c p Hc _ IH]; [ done | ].
    cbn [JS.splitOn]. by rewrite Hc, IH.
  - rewrite joinWith_cons. specialize (IH ltac:(done)).
    induction Hp as [|c p Hc _ IHp].
    + cbn [app Text.newline JS.splitOn]. change (isLF 10) with true.
      cbn iota. by rewrite IH.
    + cbn [app JS.splitOn]. by rewrite Hc, IHp.
Qed.

Lemma joinWith_snoc_newline ls t :
  joinWith Text.newline (ls ++ [Text.newline ++ t])
  = joinWith Text.newline (ls ++ [[]; t]).
Proof.
  induction ls as [|p ls IH]; [ cbn; by rewrite app_nil_r | ].
  destruct ls as [|q ls]; [ cbn; by rewrite !app_nil_r | ].
  cbn [app] in *. by rewrite !joinWith_cons, IH.
Qed.

Lemma decimalZ_printable z : Forall (λ c, isPrintable c = true) (decimalZ z).
Proof.
  unfold decimalZ. destruct (z <? 0)%Z.
  - constructor; [ done | apply decimal_printable ].
  - apply decimal_printable.
Qed.

Lemma previewTrailer_printable n m :
  Forall (λ c, isPrintable c = true) (previewTrailer n m).
Proof.
  unfold previewTrailer. rewrite !Forall_app.
  split; [ by apply printable_bool | ].
  split; [ apply decimalZ_printable | by apply printable_bool ].
Qed.

Lemma preview_lines arrayBuffer maxBytes :
  JS.splitOn isLF (convertToHexPreview arrayBuffer maxBytes)
  = Normalizer.hexLines
      (Byte.to_N <$> take (length arrayBuffer `min` maxBytes) arrayBuffer)
      ((length arrayBuffer `min` maxBytes + 15) / 16) 0
    ++ [[]; previewTrailer (length arrayBuffer) maxBytes].
Proof.
  unfold convertToHexPreview. cbv zeta.
  rewrite joinWith_snoc_newline, splitOn_joinWith.
  - rewrite length_fmap, length_take. do 3 f_equal. lia.
  - by destruct (Normalizer.hexLines _ _ _).
  - apply Forall_app. split.
    + eapply Forall_impl; [ apply hexLines_printable | ].
      apply printable_no_line_feed.
    + constructor; [ constructor | ].
      constructor; [ | constructor ].
      apply printable_no_line_feed, previewTrailer_printable.
Qed.

(** X10: the preview and the dump: the preview of a buffer has one line
    for every sixteen bytes shown, an empty line and a last line with the
    difference of the length of the buffer and [maxBytes], which starts with
    a minus sign when the buffer is shorter than [maxBytes]; a row that lies
    within the bytes shown, or any row when the buffer is shown whole, is
    the row the dump of the whole buffer has at that place. *)
Theorem preview_rows arrayBuffer maxBytes :
  let shown := length arrayBuffer `min` maxBytes in
  let lines := JS.splitOn isLF (convertToHexPreview arrayBuffer maxBytes) in
  length lines = (shown + 15) / 16 + 2
  ∧ lines !! ((shown + 15) / 16) = Some []
  ∧ last lines = Some (previewTrailer (length arrayBuffer) maxBytes)
  ∧ (length arrayBuffer < maxBytes →
     str "[... -" `prefix_of` previewTrailer (length arrayBuffer) maxBytes)
  ∧ (∀ i, 16 * i + 16 ≤ shown ∨ (16 * i < shown ∧ shown = length arrayBuffer) →
       lines !! i
       = Normalizer.hexLines (Byte.to_N <$> arrayBuffer)
           ((length (Byte.to_N <$> arrayBuffer) + 15) / 16) 0 !! i).
Proof.
  cbv zeta. rewrite preview_lines.
  set (shown := length arrayBuffer `min` maxBytes).
  split; [ rewrite length_app, hexLines_length; cbn; lia | ].
  split.
  { rewrite lookup_app_r by (by rewrite hexLines_length).
    by rewrite hexLines_length, Nat.sub_diag. }
  split; [ by rewrite last_app | ].
  split.
  { intros Hlt. unfold previewTrailer, decimalZ.
    assert ((Z.of_nat (length arrayBuffer) - Z.of_nat maxBytes <? 0)%Z = true)
      as -> by (apply Z.ltb_lt; lia).
    by eexists. }
  intros i Hi.
  assert (i < (shown + 15) / 16) as Hrow.
  { apply Nat.div_le_lower_bound; lia. }
  assert (i < (length (Byte.to_N <$> arrayBuffer) + 15) / 16) as Hrow'.
  { rewrite length_fmap. apply Nat.div_le_lower_bound; lia. }
  rewrite lookup_app_l by (by rewrite hexLines_length).
  rewrite !hexLines_lookup by done. cbn [Nat.add]. do 2 f_equal.
  rewrite <- !fmap_drop, <- !fmap_take. f_equal.
  destruct Hi as [Hi | [Hi Hall]].
  - rewrite skipn_firstn_comm, take_take. f_equal. lia.
  - subst shown. rewrite Hall. by rewrite firstn_all.
Qed.

(** ** Escaping *)

Lemma backslash_is_syntax : Text.isSyntaxChar 92 = true.
Proof. reflexivity. Qed.

Lemma escapeRegex_cons c text :
  escapeRegex (c :: text)
  = (if Text.isSyntaxChar c then [92%N; c] else [c]) ++ escapeRegex text.
Proof. done. Qed.

Lemma escapeRegex_inj a b : escapeRegex a = escapeRegex b → a = b.
Proof.
  revert b. induction a as [|c a IH]; intros [|d b].
  - done.
  - rewrite escapeRegex_cons. by destruct (Text.isSyntaxChar d).
  - rewrite escapeRegex_cons. by destruct (Text.isSyntaxChar c).
  - rewrite !escapeRegex_cons.
    destruct (Text.isSyntaxChar c) eqn:Hc, (Text.isSyntaxChar d) eqn:Hd;
      cbn [app]; intros H.
    + injection H as -> H. f_equal. by apply IH.
    + injection H as <- _. by rewrite backslash_is_syntax in Hd.
    + injection H as -> _. by rewrite backslash_is_syntax in Hc.
    + injection H as -> H. f_equal. by apply IH.
Qed.

(** X11: escaping loses nothing: different selections have different
    escaped texts; a selection without syntax characters is its own escaped
    text; and an escaped text is at most twice as long as the selection. *)
Theorem escapeRegex_faithful :
  (∀ a b, escapeRegex a = escapeRegex b → a = b)
  ∧ (∀ text, Forall (λ c, Text.isSyntaxChar c = false) text →
       escapeRegex text = text)
  ∧ (∀ text, length text ≤ length (escapeRegex text) ≤ 2 * length text).
Proof.
  split; [ apply escapeRegex_inj | split ].
  - induction 1 as [|c text Hc _ IH]; [ done | ].
    rewrite escapeRegex_cons, Hc, IH. done.
  - intros selection. induction selection as [|c selection IH]; [ cbn; lia | ].
    rewrite escapeRegex_cons, length_app.
    destruct (Text.isSyntaxChar c); cbn [length]; lia.
Qed.

(** ** Normalising a text twice *)

(** X12: for a text the normalizer is a projection: the result is the
    text with some characters left out and the rest in their order, a text
    without stripped characters is returned as it is, and normalising the
    result again changes nothing. *)
Theorem text_normalisation_idempotent decode encode s filename filename' :
  let shown :=
    Normalizer.convertContentToDisplayableText decode encode (TextContent s)
      filename in
  shown `sublist_of` s
  ∧ (Forall (λ c, ¬ dropped c) s → shown = s)
  ∧ Normalizer.convertContentToDisplayableText decode encode
      (TextContent shown) filename'
    = shown.
Proof.
  cbv zeta. cbn [Normalizer.convertContentToDisplayableText].
  rewrite !stripControls_filter. split; [ apply sublist_filter | split ].
  - induction 1 as [|c l Hc _ IH]; [ done | ].
    apply isKept_dropped in Hc.
    by rewrite filter_cons, decide_True, IH.
  - by apply list_filter_filter_r.
Qed.

(** ** The trouble type *)

Lemma includes_at s text j :
  text `prefix_of` drop j s → JS.includes s text = true.
Proof.
  revert s. induction j as [|j IH]; intros s.
  - rewrite drop_0. apply prefix_includes.
  - destruct s as [|c s]; [ rewrite drop_nil; apply prefix_includes | ].
    cbn [drop JS.includes]. intros H%IH. rewrite H. apply orb_true_r.
Qed.

Lemma includes_tail s a b :
  JS.includes s (a ++ b) = true → JS.includes s b = true.
Proof.
  intros (i & _ & [k Hk])%includes_indexOf.
  apply (includes_at _ _ (i + length a)).
  rewrite <- drop_drop, Hk, <- !(assoc_L (++)), drop_app_length. by eexists.
Qed.

Lemma lowerUnit_idem c : JS.lowerUnit (JS.lowerUnit c) = JS.lowerUnit c.
Proof.
  unfold JS.lowerUnit.
  destruct ((65 <=? c) && (c <=? 90))%N eqn:H1.
  { apply andb_prop in H1 as [H0%N.leb_le H1%N.leb_le].
    assert (((65 <=? c + 32) && (c + 32 <=? 90))%N = false) as ->.
    { apply andb_false_iff. right. apply N.leb_gt. lia. }
    assert (((192 <=? c + 32) && (c + 32 <=? 222) && negb (c + 32 =? 215))%N
            = false) as ->; [ | done ].
    apply andb_false_iff. left. apply andb_false_iff. left.
    apply N.leb_gt. lia. }
  destruct ((192 <=? c) && (c <=? 222) && negb (c =? 215))%N eqn:H2.
  { apply andb_prop in H2 as [[H2%N.leb_le _]%andb_prop _].
    assert (((65 <=? c + 32) && (c + 32 <=? 90))%N = false) as ->.
    { apply andb_false_iff. right. apply N.leb_gt. lia. }
    assert (((192 <=? c + 32) && (c + 32 <=? 222) && negb (c + 32 =? 215))%N
            = false) as ->; [ | done ].
    apply andb_false_iff. left. apply andb_false_iff. right.
    apply N.leb_gt. lia. }
  by rewrite H1, H2.
Qed.

Lemma toLowerCase_idem s : JS.toLowerCase (JS.toLowerCase s) = JS.toLowerCase s.
Proof.
  unfold JS.toLowerCase. rewrite <- list_fmap_compose.
  apply list_fmap_ext. intros _ c _. apply lowerUnit_idem.
Qed.

(** X14: the trouble type is decided by four words: the type is DFO when
    the description has [offline] in it, in whatever case; else line error
    when it has [error]; else malfunction when it has [malfunction] or
    [fault]; else other.  The phrases [device offline] and [line error] the
    code looks for first never decide, and the case of the description does
    not matter. *)
Theorem trouble_type_words description :
  extractTroubleType description
  = (let desc := JS.toLowerCase description in
     if JS.includes desc (str "offline") then str "DFO"
     else if JS.includes desc (str "error") then str "line error"
     else if JS.includes desc (str "malfunction")
             || JS.includes desc (str "fault")
     then str "malfunction"
     else str "other")
  ∧ extractTroubleType (JS.toLowerCase description)
    = extractTroubleType description.
Proof.
  split.
  - unfold extractTroubleType. cbv zeta.
    set (desc := JS.toLowerCase description).
    assert (JS.includes desc (str "device offline") = true →
            JS.includes desc (str "offline") = true) as H1
      by apply (includes_tail desc (str "device ") (str "offline")).
    assert (JS.includes desc (str "line error") = true →
            JS.includes desc (str "error") = true) as H2
      by apply (includes_tail desc (str "line ") (str "error")).
    destruct (JS.includes desc (str "offline")).
    { by rewrite orb_true_r. }
    destruct (JS.includes desc (str "device offline")); [ by discriminate H1 | ].
    cbn [orb].
    destruct (JS.includes desc (str "error")).
    { by rewrite orb_true_r. }
    destruct (JS.includes desc (str "line error")); [ by discriminate H2 | ].
    done.
  - unfold extractTroubleType. by rewrite toLowerCase_idem.
Qed.

(** ** The subject line *)

Lemma trim_idem s : JS.trim (JS.trim s) = JS.trim s.
Proof.
  unfold JS.trim. set (t := JS.trimStart s).
  assert (JS.trimStart t = t) as Ht by apply trimStart_idem.
  assert (JS.trimStart (JS.trimEnd t) = JS.trimEnd t) as ->.
  { destruct (JS.trimEnd t) as [|c u] eqn:Hu; [ done | ]. rewrite <- Hu.
    apply (trimStart_prefix_fixed t); [ done | apply trimEnd_prefix | ].
    by rewrite Hu. }
  apply trimEnd_idem.
Qed.

Lemma trim_Forall (P : N → Prop) s : Forall P s → Forall P (JS.trim s).
Proof.
  intros Hs. unfold JS.trim.
  destruct (trimStart_suffix s) as [k Hk].
  destruct (trimEnd_prefix (JS.trimStart s)) as [k' Hk'].
  rewrite Hk, Hk' in Hs.
  by apply Forall_app in Hs as [_ [Hs _]%Forall_app].
Qed.

Lemma find_app_skip {A} (f : A → bool) (l1 l2 : list A) :
  Forall (λ x, f x = false) l1 → find f (l1 ++ l2) = find f l2.
Proof. induction 1 as [|x l1 Hx _ IH]; [ done | ]. cbn. by rewrite Hx. Qed.

Lemma find_none_all {A} (f : A → bool) (l : list A) :
  Forall (λ x, f x = false) l → find f l = None.
Proof.
  intros Hl. rewrite <- (app_nil_r l). by rewrite find_app_skip.
Qed.

Lemma find_elem_of {A} (f : A → bool) (l : list A) x :
  find f l = Some x → x ∈ l.
Proof.
  induction l as [|y l IH]; [ done | ]. cbn.
  destruct (f y); [ intros [= ->]; by left | intros H; right; by apply IH ].
Qed.

(** X15: the subject line: the subject is taken from the first line of
    the content that starts with [subject:] in whatever case, as the rest
    of that line without the blanks around it; it is empty when no line
    starts so.  It holds no line feed and has no blanks around it. *)
Theorem subject_line content :
  JS.trim (extractSubjectLine content) = extractSubjectLine content
  ∧ lineFeeds (extractSubjectLine content) = 0
  ∧ (∀ earlier h s later,
       JS.splitOn isLF content = earlier ++ (h ++ s) :: later →
       Forall (λ l, startsWithSubject l = false) earlier →
       JS.toLowerCase h = str "subject:" →
       extractSubjectLine content = JS.trim s)
  ∧ (Forall (λ l, startsWithSubject l = false) (JS.splitOn isLF content) →
     extractSubjectLine content = []).
Proof.
  unfold extractSubjectLine. change (λ c : N, (c =? 10)%N) with isLF.
  split; [ | split; [ | split ] ].
  - destruct (find _ _); [ apply trim_idem | done ].
  - destruct (find _ _) as [line|] eqn:Hfind; [ | done ].
    apply lineFeeds_none, trim_Forall. rewrite substring_drop.
    apply Forall_drop.
    pose proof (splitOn_pieces isLF content) as Hp.
    eapply Forall_forall in Hp; [ exact Hp | ].
    by eapply find_elem_of.
  - intros earlier h s later Hsplit Hearlier Hh.
    rewrite Hsplit, find_app_skip by done. cbn [find].
    assert (startsWithSubject (h ++ s) = true) as ->.
    { unfold startsWithSubject. apply bool_decide_eq_true.
      unfold JS.toLowerCase. rewrite fmap_app.
      fold (JS.toLowerCase h). rewrite Hh. by eexists. }
    rewrite substring_drop.
    assert (length h = 8) as Hlen.
    { apply (f_equal length) in Hh. unfold JS.toLowerCase in Hh.
      by rewrite length_fmap in Hh. }
    by rewrite <- Hlen, drop_app_length.
  - intros Hnone. by rewrite find_none_all.
Qed.

(** ** Quoted-printable text *)

Lemma removeSoftBreaks_plain s :
  Forall (λ c, c ≠ 61%N) s → removeSoftBreaks s = s.
Proof.
  induction 1 as [|c s Hc _ IH]; [ done | ].
  cbn [removeSoftBreaks]. apply N.eqb_neq in Hc. by rewrite Hc, IH.
Qed.

Lemma decodeEscapes_plain s :
  Forall (λ c, c ≠ 61%N) s → decodeEscapes s = s.
Proof.
  induction 1 as [|c s Hc _ IH]; [ done | ].
  cbn [decodeEscapes]. apply N.eqb_neq in Hc. by rewrite Hc, IH.
Qed.

Lemma removeSoftBreaks_length s : length (removeSoftBreaks s) ≤ length s.
Proof.
  assert (∀ n s, length s ≤ n → length (removeSoftBreaks s) ≤ length s) as H;
    [ | by apply (H (length s)) ].
  clear s. induction n as [|n IH]; intros s Hn.
  - destruct s; [ done | cbn in Hn; lia ].
  - destruct s as [|c rest]; [ done | ]. cbn [removeSoftBreaks].
    cbn [length] in Hn.
    assert (length (c :: removeSoftBreaks rest) ≤ length (c :: rest)) as Hkeep.
    { cbn [length]. specialize (IH rest). lia. }
    destruct (c =? 61)%N; [ | done ].
    destruct rest as [|d rest']; [ done | ]. cbn [length] in Hn.
    destruct (d =? 10)%N.
    { cbn [length]. specialize (IH rest'). lia. }
    destruct (d =? 13)%N; [ | done ].
    destruct rest' as [|e rest'']; [ done | ]. cbn [length] in Hn.
    destruct (e =? 10)%N; [ | done ].
    cbn [length]. specialize (IH rest''). lia.
Qed.

Lemma decodeEscapes_length s : length (decodeEscapes s) ≤ length s.
Proof.
  assert (∀ n s, length s ≤ n → length (decodeEscapes s) ≤ length s) as H;
    [ | by apply (H (length s)) ].
  clear s. induction n as [|n IH]; intros s Hn.
  - destruct s; [ done | cbn in Hn; lia ].
  - destruct s as [|c rest]; [ done | ]. cbn [decodeEscapes].
    cbn [length] in Hn.
    assert (length (c :: decodeEscapes rest) ≤ length (c :: rest)) as Hkeep.
    { cbn [length]. specialize (IH rest). lia. }
    destruct (c =? 61)%N; [ | done ].
    destruct rest as [|h [|l rest']]; [ done | done | ].
    cbn [length] in Hn.
    destruct (isHexDigit h && isHexDigit l); [ | done ].
    cbn [length]. specialize (IH rest'). lia.
Qed.

Lemma hexDigit_value capital v :
  (v < 16)%N →
  isHexDigit (hexDigit capital v) = true
  ∧ hexValue (hexDigit capital v) = v
  ∧ (hexDigit capital v =? 61)%N = false
  ∧ (hexDigit capital v =? 10)%N = false
  ∧ (hexDigit capital v =? 13)%N = false.
Proof.
  intros Hv.
  assert (v ∈ [0; 1; 2; 3; 4; 5; 6; 7; 8; 9; 10; 11; 12; 13; 14; 15]%N) as Hin.
  { rewrite !elem_of_cons. lia. }
  rewrite !elem_of_cons, elem_of_nil in Hin.
  destruct capital;
    repeat (destruct Hin as [-> | Hin]; [ by repeat split | ]); done.
Qed.

Lemma removeSoftBreaks_escape h l rest :
  (h =? 10)%N = false → (h =? 13)%N = false → (h =? 61)%N = false →
  (l =? 61)%N = false →
  removeSoftBreaks (61%N :: h :: l :: rest)
  = 61%N :: h :: l :: removeSoftBreaks rest.
Proof.
  intros H10 H13 Hh Hl. cbn [removeSoftBreaks].
  by rewrite N.eqb_refl, H10, H13, Hh, Hl.
Qed.

Lemma decodeEscapes_escape h l rest :
  isHexDigit h = true → isHexDigit l = true →
  decodeEscapes (61%N :: h :: l :: rest)
  = (16 * hexValue h + hexValue l)%N :: decodeEscapes rest.
Proof.
  intros Hh Hl. cbn [decodeEscapes]. by rewrite N.eqb_refl, Hh, Hl.
Qed.

(** X16: decoding quoted-printable text: a text without an equals sign
    is returned as it is; the decoded text is never longer than the input;
    and bytes written as an equals sign and two hexadecimal digits each,
    capitals or small letters in any mix, are decoded to those bytes. *)
Theorem quoted_printable_decoding :
  (∀ input, Forall (λ c, c ≠ 61%N) input → decodeQuotedPrintable input = input)
  ∧ (∀ input, length (decodeQuotedPrintable input) ≤ length input)
  ∧ (∀ bytes,
       decodeQuotedPrintable (quotedBytes bytes)
       = (λ written, Byte.to_N written.1) <$> bytes).
Proof.
  unfold decodeQuotedPrintable. split; [ | split ].
  - intros input Hin. by rewrite removeSoftBreaks_plain, decodeEscapes_plain.
  - intros input. etrans; [ apply decodeEscapes_length | ].
    apply removeSoftBreaks_length.
  - induction bytes as [|[b [capital1 capital2]] bytes IH]; [ done | ].
    change (quotedBytes ((b, (capital1, capital2)) :: bytes))
      with (61%N :: hexDigit capital1 (Byte.to_N b / 16)
            :: hexDigit capital2 (Byte.to_N b mod 16) :: quotedBytes bytes).
    pose proof (Byte.to_N_bounded b) as Hb.
    destruct (hexDigit_value capital1 (Byte.to_N b / 16))
      as (Hd1 & Hv1 & H61 & H10 & H13).
    { apply N.Div0.div_lt_upper_bound. lia. }
    destruct (hexDigit_value capital2 (Byte.to_N b mod 16))
      as (Hd2 & Hv2 & H61' & _ & _).
    { apply N.mod_lt. lia. }
    rewrite removeSoftBreaks_escape, decodeEscapes_escape by done.
    rewrite IH, Hv1, Hv2. cbn [fmap list_fmap fst]. f_equal.
    pose proof (N.div_mod (Byte.to_N b) 16). lia.
Qed.

(** ** Field extraction *)

Lemma groupAt_spec pre grp s i j e :
  i ≤ length s → Capture.groupAt pre grp s i = Some (j, e) →
  i ≤ j ≤ length s ∧ Regex.matchAt grp s j = Some e.
Proof.
  intros Hi. unfold Capture.groupAt.
  destruct (Regex.m pre s i _) as [j'|] eqn:Hpre; [ | done ].
  cbn [mbind option_bind].
  destruct (Regex.matchAt grp s j') as [e'|] eqn:Hgrp; [ | done ].
  cbn [mbind option_bind]. intros [= <- <-].
  destruct (m_run _ _ _ _ _ Hi Hpre) as (x & Hx & Hk & _).
  destruct (Regex.matchAt grp s x); [ | done ].
  injection Hk as ->. done.
Qed.

Lemma searchFrom_groupAt pre grp s n i g :
  Capture.searchFrom pre grp s n i = Some g → i + n ≤ S (length s) →
  ∃ i', i' ≤ length s ∧ Capture.groupAt pre grp s i' = Some g.
Proof.
  revert i. induction n as [|n IH]; intros i; cbn [Capture.searchFrom]; [ done | ].
  destruct (Capture.groupAt pre grp s i) as [g'|] eqn:Hg.
  - intros [= <-] Hi. exists i. split; [ lia | done ].
  - intros Hs Hi. apply (IH (S i)); [ done | lia ].
Qed.

Lemma group1_spec pre grp s group :
  Capture.group1 pre grp s = Some group →
  ∃ j e, j ≤ length s ∧ Regex.matchAt grp s j = Some e
         ∧ group = JS.substring s j e.
Proof.
  unfold Capture.group1.
  destruct (Capture.searchFrom _ _ _ _ _) as [[j e]|] eqn:Hs; [ | done ].
  cbn. intros [= <-].
  destruct (searchFrom_groupAt _ _ _ _ _ _ Hs) as (i & Hi & Hg); [ lia | ].
  destruct (groupAt_spec _ _ _ _ _ _ Hi Hg) as [Hj He].
  exists j, e. split; [ lia | done ].
Qed.

Lemma spanLen_take p s :
  Forall (λ c, p c = true) (take (Regex.spanLen p s) s).
Proof.
  induction s as [|c s IH]; cbn; [ constructor | ].
  destruct (p c) eqn:Hc; cbn; by constructor.
Qed.

Lemma run_match p s j e :
  j ≤ length s → Regex.matchAt (RRep p 1 None) s j = Some e →
  JS.substring s j e = take (Regex.spanLen p (drop j s)) (drop j s)
  ∧ 0 < Regex.spanLen p (drop j s)
  ∧ e = j + Regex.spanLen p (drop j s).
Proof.
  intros Hj. unfold Regex.matchAt. cbn [Regex.m]. rewrite backoff_greedy.
  destruct (_ <? 1) eqn:Hn; [ done | ]. apply Nat.ltb_ge in Hn.
  intros [= <-]. split; [ | split; [ lia | done ] ].
  pose proof (spanLen_le p (drop j s)) as Hle. rewrite length_drop in Hle.
  rewrite substring_ordered by lia. f_equal. lia.
Qed.

Lemma restOfLine_group pre s group :
  Capture.group1 pre EmailParser.restOfLine s = Some group →
  group ≠ [] ∧ Forall (λ c, EmailParser.notLineBreak c = true) group.
Proof.
  intros (j & e & Hj & He & ->)%group1_spec.
  destruct (run_match _ _ _ _ Hj He) as (-> & Hpos & _).
  split; [ | apply spanLen_take ].
  intros Hnil. apply (f_equal length) in Hnil.
  pose proof (spanLen_le EmailParser.notLineBreak (drop j s)).
  rewrite length_take in Hnil. cbn in Hnil. lia.
Qed.

Lemma trimmed_value (match_ : option (list N)) :
  (∀ group, match_ = Some group →
            Forall (λ c, EmailParser.notLineBreak c = true) group) →
  let result := match match_ with Some group => JS.trim group | None => [] end in
  JS.trim result = result
  ∧ Forall (λ c, EmailParser.notLineBreak c = true) result.
Proof.
  intros H. destruct match_ as [group|]; cbn; [ | done ].
  split; [ apply trim_idem | by apply trim_Forall, H ].
Qed.

(** X17: the values of the labelled fields: the device name, the address
    and the building are returned without blanks around them, and none of
    them holds a carriage return or a line feed. *)
Theorem labelled_values_one_line content :
  Forall (λ value,
            JS.trim value = value
            ∧ Forall (λ c, EmailParser.notLineBreak c = true) value)
    [ EmailParser.extractDeviceName content;
      EmailParser.extractAddress content;
      EmailParser.extractBuilding content ].
Proof.
  assert (∀ m1 m2 m3 : option (list N),
            (∀ g, m1 = Some g ∨ m2 = Some g ∨ m3 = Some g →
                  Forall (λ c, EmailParser.notLineBreak c = true) g) →
            ∀ g, match match m1 with Some _ => m1 | None => m2 end with
                 | Some _ => match m1 with Some _ => m1 | None => m2 end
                 | None => m3
                 end = Some g →
                 Forall (λ c, EmailParser.notLineBreak c = true) g) as Hthree.
  { intros [g1|] [g2|] [g3|] H g Hg; simplify_eq; apply H; tauto. }
  assert (∀ pre g, Capture.group1 pre EmailParser.restOfLine content = Some g →
                   Forall (λ c, EmailParser.notLineBreak c = true) g) as Hone.
  { intros pre g Hg. by apply restOfLine_group in Hg as [_ ?]. }
  apply Forall_cons. split; [ | apply Forall_cons; split;
                                [ | apply Forall_cons; split; [ | constructor ] ] ].
  - unfold EmailParser.extractDeviceName. apply trimmed_value, Hone.
  - unfold EmailParser.extractAddress. cbv zeta. apply trimmed_value.
    intros g Hg. eapply Hthree; [ | exact Hg ].
    intros g' [H | [H | H]]; by eapply Hone.
  - unfold EmailParser.extractBuilding. cbv zeta. apply trimmed_value.
    intros g Hg. eapply Hthree; [ | exact Hg ].
    intros g' [H | [H | H]]; by eapply Hone.
Qed.

Lemma upperUnit_digit d : Regex.isDigit d = true → Text.upperUnit d = [d].
Proof.
  unfold Regex.isDigit. intros [H1%N.leb_le H2%N.leb_le]%andb_prop.
  assert (d ∈ [48; 49; 50; 51; 52; 53; 54; 55; 56; 57]%N) as Hin.
  { rewrite !elem_of_cons. lia. }
  rewrite !elem_of_cons, elem_of_nil in Hin.
  repeat (destruct Hin as [-> | Hin]; [ by vm_compute | ]). done.
Qed.

Lemma upperUnit_ticket c :
  Patterns.isVP (asciiUpper c) = true →
  Text.upperUnit c = [asciiUpper c].
Proof.
  unfold asciiUpper, Regex.isLower, Patterns.isVP.
  destruct ((97 <=? c) && (c <=? 122))%N eqn:Hl.
  - apply andb_prop in Hl as [H1%N.leb_le H2%N.leb_le].
    intros [H%N.eqb_eq | H%N.eqb_eq]%orb_prop.
    + assert (c = 118%N) as -> by lia. by vm_compute.
    + assert (c = 112%N) as -> by lia. by vm_compute.
  - intros [->%N.eqb_eq | ->%N.eqb_eq]%orb_prop; by vm_compute.
Qed.

Lemma toUpperCase_digits ds :
  Forall (λ d, Regex.isDigit d = true) ds → EmailParser.toUpperCase ds = ds.
Proof.
  unfold EmailParser.toUpperCase.
  induction 1 as [|d ds Hd _ IH]; [ done | ].
  cbn [mbind list_bind] in *. by rewrite upperUnit_digit, IH.
Qed.

Lemma ticket_group pre s group :
  Capture.group1 pre EmailParser.ticket s = Some group →
  ∃ c digits,
    group = c :: digits ∧ Patterns.isVP (asciiUpper c) = true
    ∧ digits ≠ [] ∧ Forall (λ d, Regex.isDigit d = true) digits.
Proof.
  intros (j & e & Hj & He & ->)%group1_spec.
  unfold Regex.matchAt, EmailParser.ticket in He. cbn [Regex.m] in He.
  destruct (s !! j) as [c|] eqn:Hc; [ | done ].
  destruct (Patterns.isVP (asciiUpper c)) eqn:Hvp; [ | done ].
  assert (S j ≤ length s) as Hj' by (by eapply lookup_lt_Some).
  destruct (run_match Regex.isDigit s (S j) e Hj' He) as (_ & Hpos & ->).
  set (n := Regex.spanLen Regex.isDigit (drop (S j) s)) in *.
  pose proof (spanLen_le Regex.isDigit (drop (S j) s)) as Hle.
  rewrite length_drop in Hle. fold n in Hle.
  exists c, (take n (drop (S j) s)).
  split; [ | split; [ done | split ] ].
  - rewrite substring_ordered by lia.
    rewrite (drop_S _ _ _ Hc).
    by replace (S j + n - j) with (S n) by lia.
  - intros Hnil. apply (f_equal length) in Hnil.
    rewrite length_take, length_drop in Hnil. cbn in Hnil. lia.
  - apply spanLen_take.
Qed.

(** X18: the job number is empty or a ticket number: the letter V or P,
    as a capital, and one digit or more behind it. *)
Theorem job_number_shape content :
  EmailParser.extractJobNumber content = []
  ∨ ∃ c digits,
      EmailParser.extractJobNumber content = c :: digits
      ∧ Patterns.isVP c = true
      ∧ digits ≠ []
      ∧ Forall (λ d, Regex.isDigit d = true) digits.
Proof.
  unfold EmailParser.extractJobNumber.
  destruct (Capture.group1 _ _ _) as [group|] eqn:Hg; [ right | by left ].
  apply ticket_group in Hg as (c & digits & -> & Hvp & Hne & Hd).
  exists (asciiUpper c), digits. split; [ | done ].
  change (EmailParser.toUpperCase (c :: digits))
    with (Text.upperUnit c ++ EmailParser.toUpperCase digits).
  by rewrite upperUnit_ticket, toUpperCase_digits.
Qed.

(** *** A labelled line *)

Lemma m_RLitI cs lbl s i k :
  lbl `prefix_of` drop i s → asciiUpper <$> lbl = asciiUpper <$> cs →
  Regex.m (RLitI cs) s i k = k (i + length cs).
Proof.
  revert lbl i. induction cs as [|x cs IH]; intros lbl i Hpre Heq.
  - cbn. rewrite bool_decide_eq_true_2 by apply prefix_nil. done.
  - destruct lbl as [|c lbl]; [ done | ]. cbn in Heq. injection Heq as Hc Heq.
    cbn [RLitI Regex.m].
    destruct Hpre as [rest Hrest].
    assert (s !! i = Some c) as ->.
    { rewrite <- (Nat.add_0_r i), <- lookup_drop, Hrest. done. }
    unfold sameLetter. rewrite Hc, N.eqb_refl.
    rewrite (IH lbl (S i)); [ f_equal; cbn; lia | | done ].
    exists rest. rewrite <- Nat.add_1_r, <- drop_drop, Hrest. done.
Qed.

Lemma m_RLitI_other x cs s i k c :
  s !! i = Some c → sameLetter x c = false →
  Regex.m (RLitI (x :: cs)) s i k = None.
Proof. intros Hc Hx. cbn [RLitI Regex.m]. by rewrite Hc, Hx. Qed.

Lemma backoff_first k i lo n e :
  lo ≤ n → k (i + n) = Some e → Regex.backoff k i lo n = Some e.
Proof.
  intros Hlo Hk. destruct n; cbn [Regex.backoff];
    (destruct (_ <? lo) eqn:Hn; [ apply Nat.ltb_lt in Hn; lia | ]);
    by rewrite Hk.
Qed.

Lemma spanLen_run p a b :
  Forall (λ c, p c = true) a → (∀ d, head b = Some d → p d = false) →
  Regex.spanLen p (a ++ b) = length a.
Proof.
  intros Ha Hb. rewrite spanLen_app by done.
  destruct b as [|d b]; cbn; [ lia | ]. rewrite (Hb d) by done. lia.
Qed.

Lemma searchFrom_skip pre grp s n i p g :
  (∀ x, i ≤ x < p → Capture.groupAt pre grp s x = None) →
  Capture.groupAt pre grp s p = Some g → i ≤ p → p - i < n →
  Capture.searchFrom pre grp s n i = Some g.
Proof.
  revert i. induction n as [|n IH]; intros i Hnone Hp Hi Hn; [ lia | ].
  cbn [Capture.searchFrom].
  destruct (decide (i = p)) as [-> | Hne]; [ by rewrite Hp | ].
  rewrite Hnone by lia. apply IH; [ | done | lia | lia ].
  intros x Hx. apply Hnone. lia.
Qed.

Lemma labelled_value l x cs lead lbl blanks v rest :
  str l = x :: cs →
  Forall (λ c, sameLetter x c = false) lead →
  asciiUpper <$> lbl = asciiUpper <$> str l →
  Forall (λ c, JS.isWhiteSpace c = true) blanks →
  (∃ c, head v = Some c ∧ JS.isWhiteSpace c = false) →
  Forall (λ c, EmailParser.notLineBreak c = true) v →
  (∀ d, head rest = Some d → EmailParser.notLineBreak d = false) →
  Capture.group1 (EmailParser.label l) EmailParser.restOfLine
    (lead ++ lbl ++ blanks ++ v ++ rest)
  = Some v.
Proof.
  intros Hl Hlead Hlbl Hblanks (c & Hc & Hcw) Hv Hrest.
  set (s := lead ++ lbl ++ blanks ++ v ++ rest).
  set (p := length lead). set (j := p + length (str l) + length blanks).
  assert (length lbl = length (str l)) as Hlen.
  { apply (f_equal length) in Hlbl. by rewrite !length_fmap in Hlbl. }
  assert (drop p s = lbl ++ blanks ++ v ++ rest) as Hp
    by apply drop_app_length.
  assert (drop (p + length (str l)) s = blanks ++ v ++ rest) as Hb.
  { rewrite <- drop_drop, Hp, <- Hlen. apply drop_app_length. }
  assert (drop j s = v ++ rest) as Hj.
  { unfold j. rewrite <- drop_drop, Hb. apply drop_app_length. }
  assert (Regex.matchAt EmailParser.restOfLine s j = Some (j + length v)) as Hgrp.
  { unfold Regex.matchAt, EmailParser.restOfLine. cbn [Regex.m].
    rewrite backoff_greedy, Hj, spanLen_run by done.
    destruct v; [ done | done ]. }
  assert (Capture.groupAt (EmailParser.label l) EmailParser.restOfLine s p
          = Some (j, j + length v)) as Hat.
  { unfold Capture.groupAt, EmailParser.label. cbn [Regex.m].
    rewrite (m_RLitI _ lbl) by (by rewrite ?Hp; try eexists).
    rewrite Hb.
    assert (Regex.spanLen JS.isWhiteSpace (blanks ++ v ++ rest)
            = length blanks) as ->.
    { apply spanLen_run; [ done | ].
      destruct v as [|c' v]; [ done | ]. cbn in Hc. injection Hc as ->.
      cbn. by intros d [= <-]. }
    rewrite (backoff_first _ _ _ _ j); [ | lia | by fold j; rewrite Hgrp ].
    cbn [mbind option_bind]. by rewrite Hgrp. }
  unfold Capture.group1.
  rewrite (searchFrom_skip _ _ _ _ _ p (j, j + length v)).
  - cbn [fmap option_fmap option_map fst snd]. f_equal.
    apply substring_prefix. rewrite Hj. by eexists.
  - intros i Hi. unfold Capture.groupAt, EmailParser.label.
    cbn [Regex.m]. rewrite Hl.
    assert (∃ c', s !! i = Some c' ∧ sameLetter x c' = false) as (c' & Hi' & Hx).
    { destruct (lookup_lt_is_Some_2 lead i) as [c' Hc']; [ fold p; lia | ].
      exists c'. split.
      - unfold s. by rewrite lookup_app_l by (fold p; lia).
      - eapply Forall_lookup_1 in Hlead; [ exact Hlead | exact Hc' ]. }
    by rewrite (m_RLitI_other _ _ _ _ _ c').
  - done.
  - lia.
  - unfold s, p. rewrite length_app. lia.
Qed.

(** X19: a device name that is found: when the content has the label
    [Device Name:], in whatever case and with no letter D before it, then
    blanks, which may be line breaks, then a value up to the end of its
    line, the device name is that value without the blanks at its end. *)
Theorem device_name_found lead lbl blanks v rest :
  Forall (λ c, c ≠ 68%N ∧ c ≠ 100%N) lead →
  asciiUpper <$> lbl = asciiUpper <$> str "Device Name:" →
  Forall (λ c, JS.isWhiteSpace c = true) blanks →
  (∃ c, head v = Some c ∧ JS.isWhiteSpace c = false) →
  Forall (λ c, EmailParser.notLineBreak c = true) v →
  (∀ d, head rest = Some d → EmailParser.notLineBreak d = false) →
  EmailParser.extractDeviceName (lead ++ lbl ++ blanks ++ v ++ rest)
  = JS.trim v.
Proof.
  intros Hlead Hlbl Hblanks Hhead Hv Hrest.
  unfold EmailParser.extractDeviceName.
  rewrite (labelled_value "Device Name:" 68 (str "evice Name:")); try done.
  eapply Forall_impl; [ exact Hlead | ].
  intros c [H1 H2]. unfold sameLetter, asciiUpper, Regex.isLower.
  apply N.eqb_neq.
  destruct ((97 <=? c) && (c <=? 122))%N eqn:Hl; cbn; [ | done ].
  apply andb_prop in Hl as [Ha%N.leb_le Hb%N.leb_le]. lia.
Qed.

(** ** Instances *)

Lemma scan_device : autoDetectParserTargets scenario1 !! 0
  = Some (candidate scenario1 "device_id" (18, 24)).
Proof. vm_compute. reflexivity. Defined.

Lemma scan_site_code : autoDetectParserTargets scenario1 !! 1
  = Some siteCodeTarget.
Proof. vm_compute. reflexivity. Defined.

Lemma detected_targets_in_order_witness :
  startPos (candidate scenario1 "device_id" (18, 24)) < startPos siteCodeTarget
  ∧ endPos (candidate scenario1 "device_id" (18, 24)) ≤ startPos siteCodeTarget.
Proof.
  apply (detected_targets_in_order scenario1 0 1);
    [ lia | exact scan_device | exact scan_site_code ].
Defined.

Lemma detected_text_in_document_witness :
  text siteCodeTarget ≠ []
  ∧ (∃ c, head (text siteCodeTarget) = Some c ∧ Regex.isWordChar c = true)
  ∧ startPos siteCodeTarget < endPos siteCodeTarget
  ∧ endPos siteCodeTarget ≤ length scenario1
  ∧ JS.substring scenario1 (startPos siteCodeTarget) (endPos siteCodeTarget)
    = text siteCodeTarget.
Proof.
  apply (detected_text_in_document scenario1 siteCodeTarget).
  apply (list_elem_of_lookup_2 _ 1). exact scan_site_code.
Defined.

Lemma no_word_characters_no_targets_witness :
  autoDetectParserTargets (str "--- ... ---") = [].
Proof.
  apply no_word_characters_no_targets. by repeat constructor.
Defined.

Lemma reassignments_keep_layout_witness :
  span <$> updateTargetMapping 1 "job_number" (autoDetectParserTargets scenario1)
  = span <$> autoDetectParserTargets scenario1.
Proof.
  apply (proj1 (reassignments_keep_layout scenario1 _
                  (remapped_step scenario1 1 "job_number" _
                     (remapped_scan scenario1)))).
Defined.

Lemma three_reassignments_saturate_witness :
  confidence
    <$> updateTargetMapping 1 "device_id"
          (updateTargetMapping 1 "job_name"
             (updateTargetMapping 1 "job_number" scenario1Registry))
        !! 1
  = Some 1%float.
Proof.
  apply (proj1 (three_reassignments_saturate scenario1Registry 1 siteCodeTarget
                  "job_number" "job_name" "device_id" "building_code"
                  scenario1Registry_session scenario1Registry_site_code
                  ltac:(done) ltac:(done) ltac:(done) ltac:(done))).
Defined.

Lemma reassignment_raises_icon_witness :
  ∃ t2, updateTargetMapping 1 "job_name"
          (updateTargetMapping 1 "job_number" scenario1Registry) !! 1
        = Some t2
        ∧ getConfidenceIcon (confidence t2) = [55357; 57314]%N.
Proof.
  apply (proj2 (reassignment_raises_icon scenario1Registry 1 siteCodeTarget
                  "job_number" "job_name"
                  scenario1Registry_session scenario1Registry_site_code
                  ltac:(done) ltac:(done))).
Defined.

Lemma hex_row_shape_witness :
  length (Normalizer.hexLine 16 (Byte.to_N <$> [Byte.x53; Byte.x45; Byte.x41]))
  = length (Normalizer.hex 8 16) + 69.
Proof.
  apply (proj1 (proj2 (hex_row_shape 16 [Byte.x53; Byte.x45; Byte.x41]
                         ltac:(cbn; lia)))).
Defined.

Lemma device_name_found_witness :
  EmailParser.extractDeviceName
    (str "Site: SEA124; " ++ str "DEVICE name:" ++ [32; 10; 32]%N
     ++ str "Reader 12  " ++ [13; 10]%N)
  = JS.trim (str "Reader 12  ").
Proof.
  apply (device_name_found (str "Site: SEA124; ") (str "DEVICE name:")
           [32; 10; 32]%N (str "Reader 12  ") [13; 10]%N).
  - by repeat (constructor; [ by split | ]).
  - reflexivity.
  - by repeat constructor.
  - by exists 82%N.
  - by repeat constructor.
  - by intros d [= <-].
Defined.
